(** * theanets/trainer.py: flat parameter buffers, gradient policy,
      convergence tracking and the SGD / Scipy training loops.

    Numbers are NumPy floats in the source; they are idealised here as the
    real numbers of the Standard Library, so rounding, infinities and NaN are
    outside the model.  An array is its shape together with its elements in
    row-major order. *)

From Stdlib Require Import List ZArith Reals Lra Lia Bool Arith Sorted.
Import ListNotations.

(** ** Python exceptions and fallible results *)

Inductive exn : Type :=
| ValueError
| AssertionError
| IndexError
| TypeError
| ZeroDivisionError
| KeyboardInterrupt
| PatienceElapsedError
| NoImprovementError.

Inductive result (A : Type) : Type :=
| Ok (a : A)
| Raise (e : exn).

Arguments Ok {A} a.
Arguments Raise {A} e.

Definition bind {A B : Type} (r : result A) (k : A -> result B) : result B :=
  match r with
  | Ok a => k a
  | Raise e => Raise e
  end.

Notation "'do' x <- r ; k" := (bind r (fun x => k))
  (at level 10, x pattern, r at level 100, k at level 200).

(** ** NumPy arrays *)

Module NDArray.

Record ndarray (A : Type) : Type := mk_ndarray {
  shape : list nat;
  data : list A
}.

Arguments mk_ndarray {A} shape data.
Arguments shape {A} n.
Arguments data {A} n.

(** [np.prod(shape)]: the element count of a shape; the empty shape has 1. *)
Definition prod (s : list nat) : nat := fold_right Nat.mul 1%nat s.

(** [sum(counts)]. *)
Definition sum (l : list nat) : nat := fold_right Nat.add 0%nat l.

(** Every array NumPy builds holds exactly [prod shape] elements. *)
Definition well_formed {A : Type} (a : ndarray A) : Prop :=
  length (data a) = prod (shape a).

Section Ops.
Context {A : Type}.

(** [x[start:start+count]] on a one-dimensional array; Python clamps the
    slice to the array. *)
Definition slice (x : list A) (start count : nat) : list A :=
  firstn count (skipn start x).

(** [v.reshape(shape)] of a one-dimensional [v]: ValueError unless the
    element counts agree. *)
Definition reshape (v : list A) (s : list nat) : result (ndarray A) :=
  if Nat.eqb (length v) (prod s) then Ok (mk_ndarray s v) else Raise ValueError.

(** [array.flatten()]. *)
Definition flatten (a : ndarray A) : list A := data a.

(** [x[start:start+count] = vals]: the values must have the length of the
    slice, or be a single value that NumPy broadcasts over it. *)
Definition assign_slice (x : list A) (start count : nat) (vals : list A)
  : result (list A) :=
  let n := length (slice x start count) in
  if Nat.eqb (length vals) n then
    Ok (firstn start x ++ vals ++ skipn (start + n) x)
  else
    match vals with
    | [c] => Ok (firstn start x ++ repeat c n ++ skipn (start + n) x)
    | _ => Raise ValueError
    end.

End Ops.

(** *** Elementwise arithmetic on float arrays.

    A binary operation is applied where both operands have an element; the
    result keeps the shape of its left operand, as NumPy's in-place operators
    do.  Gradients have the shape of their parameter ([TT.grad(J, p)]), so the
    source only combines arrays of equal shape; what NumPy does on unequal
    shapes (broadcasting, or ValueError) is outside the model. *)

Definition tensor : Type := ndarray R.

Fixpoint zip_with (f : R -> R -> R) (v d : list R) : list R :=
  match v, d with
  | x :: v', y :: d' => f x y :: zip_with f v' d'
  | _, _ => v
  end.

(** [c * a]. *)
Definition scale (c : R) (a : tensor) : tensor :=
  mk_ndarray (shape a) (map (Rmult c) (data a)).

(** [a + b]. *)
Definition add (a b : tensor) : tensor :=
  mk_ndarray (shape a) (zip_with Rplus (data a) (data b)).

(** [a /= c] and [a *= c] by a scalar. *)
Definition div_scalar (a : tensor) (c : R) : tensor :=
  mk_ndarray (shape a) (map (fun x => (x / c)%R) (data a)).

Definition mul_scalar (a : tensor) (c : R) : tensor :=
  mk_ndarray (shape a) (map (fun x => (x * c)%R) (data a)).

(** [np.zeros_like(a)]. *)
Definition zeros_like (a : tensor) : tensor :=
  mk_ndarray (shape a) (map (fun _ => 0%R) (data a)).

(** [np.linalg.norm(a)]: the 2-norm of the flattened array. *)
Definition sum_sq (v : list R) : R :=
  fold_right (fun x acc => (x * x + acc)%R) 0%R v.

Definition norm (a : tensor) : R := sqrt (sum_sq (data a)).

(** [v > 0] and [v < 0] as boolean arrays. *)
Definition Rltb (x y : R) : bool := if Rlt_dec x y then true else false.

Definition gt0 (v : list R) : list bool := map (fun x => Rltb 0 x) v.
Definition lt0 (v : list R) : list bool := map (fun x => Rltb x 0) v.

Definition mask_and (a b : list bool) : list bool :=
  map (fun ab => andb (fst ab) (snd ab)) (combine a b).
Definition mask_or (a b : list bool) : list bool :=
  map (fun ab => orb (fst ab) (snd ab)) (combine a b).

(** [v[mask] = c]. *)
Fixpoint assign_where (v : list R) (mask : list bool) (c : R) : list R :=
  match v, mask with
  | x :: v', b :: mask' => (if b then c else x) :: assign_where v' mask' c
  | _, _ => v
  end.

(** [np.mean(xs)] of a one-dimensional list. *)
Definition mean (xs : list R) : R :=
  (fold_right Rplus 0 xs / INR (length xs))%R.

(** [np.mean(rows, axis=0)] of rows of equal length. *)
Definition mean_axis0 (rows : list (list R)) : list R :=
  match rows with
  | [] => []
  | r :: _ =>
      map (fun j => mean (map (fun row => nth j row 0%R) rows)) (seq 0 (length r))
  end.

End NDArray.

Import NDArray.

(** ** The logging side effect

    One entry per [logging] call of the training loops, oldest first. *)

Inductive log_entry : Type :=
| LogValid (iteration : Z) (costs : list R) (marker : bool)
| LogTrain (iteration total : Z) (learning_rate : R) (costs grads : list R)
| LogScipy (iteration total : Z) (J : R)
| LogInterrupted
| LogPatienceElapsed.

(** ** class Trainer *)

Module Trainer.

(** The keyword arguments the constructors read; [None] is an absent key. *)
Record kwargs : Type := mk_kwargs {
  kw_validate : option Z;
  kw_min_improvement : option R;
  kw_num_updates : option Z;
  kw_patience : option Z;
  kw_momentum : option R;
  kw_max_gradient_norm : option R;
  kw_learning_rate : option R;
  kw_learning_rate_decay : option R;
  kw_clip_params_at_zero : option bool
}.

(** [kwargs.get(key, default)]. *)
Definition get {A : Type} (v : option A) (default : A) : A :=
  match v with
  | Some a => a
  | None => default
  end.

Section Trainer.
Context {batch : Type}.

(** The trainer object.  [params] holds the current values of the network's
    shared variables; the three compiled Theano functions read them.
    [f_train] is compiled with the network's own updates, which belong to the
    network and leave the values of [params] alone. *)
Record t : Type := mk {
  params : list tensor;
  f_train : batch -> list tensor -> list R;
  f_grad : batch -> list tensor -> list tensor;
  f_eval : batch -> list tensor -> list R;
  validation_frequency : Z;
  min_improvement : R;
  iterations : Z;
  patience : Z;
  shapes : list (list nat);
  counts : list nat;
  best_cost : R;
  best_iter : Z;
  best_params : list tensor
}.

Definition set_params (s : t) (ps : list tensor) : t :=
  mk ps (f_train s) (f_grad s) (f_eval s) (validation_frequency s)
     (min_improvement s) (iterations s) (patience s) (shapes s) (counts s)
     (best_cost s) (best_iter s) (best_params s).

Definition set_best_cost (s : t) (c : R) : t :=
  mk (params s) (f_train s) (f_grad s) (f_eval s) (validation_frequency s)
     (min_improvement s) (iterations s) (patience s) (shapes s) (counts s)
     c (best_iter s) (best_params s).

Definition set_best_iter (s : t) (i : Z) : t :=
  mk (params s) (f_train s) (f_grad s) (f_eval s) (validation_frequency s)
     (min_improvement s) (iterations s) (patience s) (shapes s) (counts s)
     (best_cost s) i (best_params s).

Definition set_best_params (s : t) (ps : list tensor) : t :=
  mk (params s) (f_train s) (f_grad s) (f_eval s) (validation_frequency s)
     (min_improvement s) (iterations s) (patience s) (shapes s) (counts s)
     (best_cost s) (best_iter s) ps.

(** The float literal [1e100]. *)
Definition sentinel : R := (10 ^ 100)%R.

(** [Trainer.__init__]: [self.params[0]] raises IndexError on a network
    without parameters. *)
Definition init (values : list tensor)
    (train : batch -> list tensor -> list R)
    (grad : batch -> list tensor -> list tensor)
    (eval : batch -> list tensor -> list R)
    (kw : kwargs) : result t :=
  match values with
  | [] => Raise IndexError
  | _ :: _ =>
      let shapes := map shape values in
      Ok (mk values train grad eval
             (get (kw_validate kw) 3%Z)
             (get (kw_min_improvement kw) 0%R)
             (get (kw_num_updates kw) 1000%Z)
             (get (kw_patience kw) 100%Z)
             shapes (map prod shapes)
             sentinel 0%Z values)
  end.

(** The loop of [flat_to_arrays] over [zip(self.shapes, self.counts)]. *)
Fixpoint flat_to_arrays_loop {A : Type} (sc : list (list nat * nat)) (x : list A)
    (start : nat) (arrays : list (ndarray A)) : result (list (ndarray A) * nat) :=
  match sc with
  | [] => Ok (arrays, start)
  | (shape, count) :: sc' =>
      do a <- reshape (slice x start count) shape;
      flat_to_arrays_loop sc' x (start + count) (arrays ++ [a])
  end.

Definition flat_to_arrays_with {A : Type} (shapes : list (list nat))
    (counts : list nat) (x : list A) : result (list (ndarray A)) :=
  do r <- flat_to_arrays_loop (combine shapes counts) x 0 [];
  if Nat.eqb (snd r) (length x) then Ok (fst r) else Raise AssertionError.

Definition flat_to_arrays (s : t) (x : list R) : result (list tensor) :=
  flat_to_arrays_with (shapes s) (counts s) x.

(** The loop of [arrays_to_flat] over [zip(arrays, self.counts)]. *)
Fixpoint arrays_to_flat_loop {A : Type} (ac : list (ndarray A * nat)) (x : list A)
    (start : nat) : result (list A) :=
  match ac with
  | [] => Ok x
  | (array, count) :: ac' =>
      do x' <- assign_slice x start count (flatten array);
      arrays_to_flat_loop ac' x' (start + count)
  end.

Definition arrays_to_flat_with {A : Type} (zero : A) (counts : list nat)
    (arrays : list (ndarray A)) : result (list A) :=
  arrays_to_flat_loop (combine arrays counts) (repeat zero (sum counts)) 0.

Definition arrays_to_flat (s : t) (arrays : list tensor) : result (list R) :=
  arrays_to_flat_with 0%R (counts s) arrays.

(** [for param, target in zip(params, targets): param.set_value(target)]:
    a parameter without a target keeps its value. *)
Fixpoint set_values (ps targets : list tensor) : list tensor :=
  match ps, targets with
  | _ :: ps', a :: targets' => a :: set_values ps' targets'
  | _, _ => ps
  end.

(** The same loop stopped after [k] turns. *)
Definition set_values_upto (k : nat) (ps targets : list tensor) : list tensor :=
  set_values (firstn k ps) targets ++ skipn k ps.

Definition update_params (s : t) (targets : list tensor) : t :=
  set_params s (set_values (params s) targets).

(** [best_cost - costs[0] > best_cost * min_improvement]. *)
Definition improvement (s : t) (cost : R) : bool :=
  Rltb (best_cost s * min_improvement s) (best_cost s - cost).

(** The mean over axis 0 of [self.f_eval] on every batch of [valid_set]. *)
Definition valid_costs (s : t) (valid_set : list batch) : list R :=
  mean_axis0 (map (fun x => f_eval s x (params s)) valid_set).

(** The body of [if improvement:]: the snapshot copies the current values. *)
Definition record_best (s : t) (cost : R) (iteration : Z) : t :=
  set_best_params (set_best_iter (set_best_cost s cost) iteration) (params s).

(** [evaluate]: the trainer after the call, the line it logs, and how the
    call ends.  [costs[0]] raises IndexError when the mean has no entry, which
    is the case for an empty validation set. *)
Definition evaluate (s : t) (iteration : Z) (valid_set : list batch)
  : t * list log_entry * result unit :=
  match valid_costs s valid_set with
  | [] => (s, [], Raise IndexError)
  | (cost :: _) as costs =>
      let improved := improvement s cost in
      let s' := if improved then record_best s cost iteration else s in
      let log := [LogValid (iteration + 1) costs improved] in
      if Z.ltb (patience s') (iteration - best_iter s') then
        (s', log, Raise PatienceElapsedError)
      else if negb improved then
        (s', log, Raise NoImprovementError)
      else
        (s', log, Ok tt)
  end.

(** [evaluate] cut short by a KeyboardInterrupt that arrives when [k]
    assignments of the body of [if improvement:] have run; [k = 0] is an
    interrupt before that block, and from [k = 3] on the block is complete.
    With [k = 3] the interrupt arrives before [logging.info] (line 111), with
    [k >= 4] after it, before the [raise] statements. *)
Definition evaluate_interrupted (k : nat) (s : t) (iteration : Z)
    (valid_set : list batch) : result t :=
  match k with
  | O => Ok s
  | S k1 =>
      match valid_costs s valid_set with
      | [] => Raise IndexError
      | cost :: _ =>
          if improvement s cost then
            let s1 := set_best_cost s cost in
            match k1 with
            | O => Ok s1
            | S O => Ok (set_best_iter s1 iteration)
            | _ => Ok (record_best s cost iteration)
            end
          else Ok s
      end
  end.

(** What an [evaluate] cut short in this way has logged. *)
Definition evaluate_interrupted_log (k : nat) (s : t) (iteration : Z)
    (valid_set : list batch) : list log_entry :=
  match valid_costs s valid_set with
  | [] => []
  | (cost :: _) as costs =>
      if Nat.leb 4 k then [LogValid (iteration + 1) costs (improvement s cost)]
      else []
  end.

(** A sequence of [evaluate] calls on one trainer: call [(i, ps)] is made
    at iteration [i] when the parameters have the values [ps].  The trace
    lists, for every call, its iteration and the trainer before and after. *)
Fixpoint evaluate_all (s : t) (calls : list (Z * list tensor))
    (valid_set : list batch) : list (Z * t * t) :=
  match calls with
  | [] => []
  | (i, ps) :: rest =>
      let before := set_params s ps in
      let after := fst (fst (evaluate before i valid_set)) in
      (i, before, after) :: evaluate_all after rest valid_set
  end.

End Trainer.

Arguments t : clear implicits.

End Trainer.

(** ** How a training run ends, and when the user interrupts it *)

Inductive terminal : Type :=
| Converged
| Interrupted
| Exhausted
| Crashed (e : exn).

(** Where a KeyboardInterrupt finds a pass over the training set: in the
    loop that moves the parameters to the lookahead position, or in the loop
    that applies the gradients, after [k] turns of it. *)
Inductive learn_point : Type :=
| InMoves (k : nat)
| InUpdates (k : nat).

(** Where a KeyboardInterrupt that no [try] block catches finds an iteration
    of [train]: at the head of the loop, before the first [try]; in the
    [except] clause that handles what [evaluate] raised, before ([false]) or
    after ([true]) the one statement of the clause; between the two [try]
    blocks; in the [except] clause of the second [try], before or after its
    [logging.info]; and in the lines that follow the second [try], before or
    after their [logging.info].  [train] has no handler there, and the
    KeyboardInterrupt leaves it. *)
Inductive loose_point : Type :=
| AtCheck
| InHandler (done : bool)
| BeforePass
| InPassHandler (done : bool)
| AfterPass (logged : bool).

(** ** class SGD *)

Module SGD.

Section SGD.
Context {batch : Type}.

Record t : Type := mk {
  trainer : Trainer.t batch;
  momentum : R;
  max_gradient_norm : R;
  learning_rate : R;
  learning_rate_decay : R;
  clip_params_at_zero : bool
}.

Definition set_trainer (s : t) (tr : Trainer.t batch) : t :=
  mk tr (momentum s) (max_gradient_norm s) (learning_rate s)
     (learning_rate_decay s) (clip_params_at_zero s).

Definition set_learning_rate (s : t) (lr : R) : t :=
  mk (trainer s) (momentum s) (max_gradient_norm s) lr
     (learning_rate_decay s) (clip_params_at_zero s).

Definition set_params (s : t) (ps : list tensor) : t :=
  set_trainer s (Trainer.set_params (trainer s) ps).

Definition params (s : t) : list tensor := Trainer.params (trainer s).

(** [SGD.__init__]. *)
Definition init (values : list tensor)
    (train : batch -> list tensor -> list R)
    (grad : batch -> list tensor -> list tensor)
    (eval : batch -> list tensor -> list R)
    (kw : Trainer.kwargs) : result t :=
  do tr <- Trainer.init values train grad eval kw;
  Ok (mk tr
         (Trainer.get (Trainer.kw_momentum kw) 0%R)
         (Trainer.get (Trainer.kw_max_gradient_norm kw) 100000%R)
         (Trainer.get (Trainer.kw_learning_rate kw) (1 / 10)%R)
         (Trainer.get (Trainer.kw_learning_rate_decay kw) (1 / 10)%R)
         (Trainer.get (Trainer.kw_clip_params_at_zero kw) false)).

Definition _maybe_rescale_gradient (s : t) (grad : tensor) : tensor * R :=
  let g := grad in
  let l := norm g in
  if Rltb (max_gradient_norm s) l then
    (mul_scalar (div_scalar g l) (max_gradient_norm s), l)
  else
    (g, l).

(** [_apply_delta]: the new value of the parameter whose value was [v]. *)
Definition _apply_delta (s : t) (v delta : tensor) : tensor :=
  let pos0 := gt0 (data v) in
  let neg0 := lt0 (data v) in
  let v1 := add v delta in
  let pos1 := gt0 (data v1) in
  let neg1 := lt0 (data v1) in
  if clip_params_at_zero s then
    mk_ndarray (shape v1)
      (assign_where (data v1)
         (mask_or (mask_and pos0 neg1) (mask_and neg0 pos1)) 0%R)
  else v1.

(** The inner loop of [_sgd] over [zip(self.params, self.f_grad(...))]:
    the new parameter values and the gradient lengths. *)
Fixpoint sgd_updates (s : t) (ps gs : list tensor) : list tensor * list R :=
  match ps, gs with
  | p :: ps', g :: gs' =>
      let (grad, length) := _maybe_rescale_gradient s g in
      let p' := _apply_delta s p (scale (- learning_rate s) grad) in
      let (rest, grads) := sgd_updates s ps' gs' in
      (p' :: rest, length :: grads)
  | _, _ => (ps, [])
  end.

(** One batch of [_sgd]: the gradients are computed once, before any
    parameter changes; the yield is [(self.f_train(...), grads)]. *)
Definition sgd_batch (s : t) (x : batch) : t * (list R * list R) :=
  let gs := Trainer.f_grad (trainer s) x (params s) in
  let (ps', grads) := sgd_updates s (params s) gs in
  let s' := set_params s ps' in
  (s', (Trainer.f_train (trainer s') x (params s'), grads)).

Fixpoint _sgd (s : t) (train_set : list batch) : t * list (list R * list R) :=
  match train_set with
  | [] => (s, [])
  | x :: rest =>
      let (s1, y) := sgd_batch s x in
      let (s2, ys) := _sgd s1 rest in
      (s2, y :: ys)
  end.

(** The first loop of [_nag] over [zip(self.params, velocities)]: the
    parameters at the lookahead position and the moves. *)
Fixpoint nag_moves (s : t) (ps velocities : list tensor)
  : list tensor * list tensor :=
  match ps, velocities with
  | p :: ps', vel :: velocities' =>
      let u := scale (momentum s) vel in
      let (rest, moves) := nag_moves s ps' velocities' in
      (add p u :: rest, u :: moves)
  | _, _ => (ps, [])
  end.

(** The second loop of [_nag] over
    [zip(self.params, velocities, self.f_grad(...), moves)]: the new
    parameter values, the new velocities and the gradient lengths. *)
Fixpoint nag_updates (s : t) (ps velocities gs moves : list tensor)
  : list tensor * list tensor * list R :=
  match ps, velocities, gs, moves with
  | p :: ps', v :: velocities', g :: gs', u :: moves' =>
      let (grad, length) := _maybe_rescale_gradient s g in
      let d := scale (- learning_rate s) grad in
      let p' := _apply_delta s p d in
      let v' := mk_ndarray (shape v) (data (add u d)) in
      let '(rest, vrest, grads) := nag_updates s ps' velocities' gs' moves' in
      (p' :: rest, v' :: vrest, length :: grads)
  | _, _, _, _ => (ps, velocities, [])
  end.

Definition nag_batch (s : t) (velocities : list tensor) (x : batch)
  : t * list tensor * (list R * list R) :=
  let (look, moves) := nag_moves s (params s) velocities in
  let gs := Trainer.f_grad (trainer s) x look in
  let '(ps', velocities', grads) := nag_updates s look velocities gs moves in
  let s' := set_params s ps' in
  (s', velocities', (Trainer.f_train (trainer s') x (params s'), grads)).

Fixpoint _nag (s : t) (velocities : list tensor) (train_set : list batch)
  : t * list tensor * list (list R * list R) :=
  match train_set with
  | [] => (s, velocities, [])
  | x :: rest =>
      let '(s1, v1, y) := nag_batch s velocities x in
      let '(s2, v2, ys) := _nag s1 v1 rest in
      (s2, v2, y :: ys)
  end.

(** [learn = self._nag if self.momentum > 0 else self._sgd]. *)
Definition learn (s : t) (velocities : list tensor) (train_set : list batch)
  : t * list tensor * list (list R * list R) :=
  if Rltb 0 (momentum s) then _nag s velocities train_set
  else let (s', ys) := _sgd s train_set in (s', velocities, ys).

(** A batch cut short by a KeyboardInterrupt. *)
Definition sgd_batch_interrupted (s : t) (x : batch) (pt : learn_point) : t :=
  match pt with
  | InMoves _ => s
  | InUpdates k =>
      let gs := Trainer.f_grad (trainer s) x (params s) in
      set_params s
        (fst (sgd_updates s (firstn k (params s)) gs) ++ skipn k (params s))
  end.

Definition nag_batch_interrupted (s : t) (velocities : list tensor) (x : batch)
    (pt : learn_point) : t * list tensor :=
  match pt with
  | InMoves k =>
      (set_params s
         (fst (nag_moves s (firstn k (params s)) velocities)
          ++ skipn k (params s)),
       velocities)
  | InUpdates k =>
      let (look, moves) := nag_moves s (params s) velocities in
      let gs := Trainer.f_grad (trainer s) x look in
      let '(ps', velocities', _) :=
        nag_updates s (firstn k look) (firstn k velocities) gs moves in
      (set_params s (ps' ++ skipn k look), velocities' ++ skipn k velocities)
  end.

(** A pass that a KeyboardInterrupt stops after [b] complete batches, at
    point [pt] of the next one (or at the end of the pass when no batch is
    left). *)
Definition learn_interrupted (s : t) (velocities : list tensor)
    (train_set : list batch) (b : nat) (pt : learn_point) : t * list tensor :=
  let '(s1, v1, _) := learn s velocities (firstn b train_set) in
  match nth_error train_set b with
  | None => (s1, v1)
  | Some x =>
      if Rltb 0 (momentum s) then nag_batch_interrupted s1 v1 x pt
      else (sgd_batch_interrupted s1 x pt, v1)
  end.

(** The interrupts of one run: for iteration [i], whether one arrives during
    [evaluate] (and after how many assignments of its update block), whether
    one arrives during the pass over the training set (and where), and
    whether one arrives outside the two [try] blocks (and where); and
    whether one arrives during the final [update_params], after how many
    parameters have been set.  An interrupt at a point that the run does not
    reach does not happen. *)
Record events : Type := mk_events {
  eval_interrupt : Z -> option nat;
  learn_interrupt : Z -> option (nat * learn_point);
  loose_interrupt : Z -> option loose_point;
  restore_interrupt : option nat
}.

Section Train.
Variables (train_set valid_set : list batch) (ev : events).

(** An [except] clause whose one statement logs [line] and that ends the
    loop as [term], with the interrupts that can arrive in it. *)
Definition handler (s : t) (i : Z) (log : list log_entry) (line : log_entry)
    (term : terminal) : t * list log_entry * option terminal :=
  match loose_interrupt ev i with
  | Some (InHandler false) => (s, log, Some (Crashed KeyboardInterrupt))
  | Some (InHandler true) => (s, log ++ [line], Some (Crashed KeyboardInterrupt))
  | _ => (s, log ++ [line], Some term)
  end.

(** The clause [except NoImprovementError:] with its assignment. *)
Definition anneal (s : t) (i : Z) (log : list log_entry)
  : t * list log_entry * option terminal :=
  let s' := set_learning_rate s (learning_rate s * (1 - learning_rate_decay s)) in
  match loose_interrupt ev i with
  | Some (InHandler false) => (s, log, Some (Crashed KeyboardInterrupt))
  | Some (InHandler true) => (s', log, Some (Crashed KeyboardInterrupt))
  | _ => (s', log, None)
  end.

(** The [try: self.evaluate(i, valid_set)] block with its handlers. *)
Definition validate (s : t) (i : Z) : t * list log_entry * option terminal :=
  match eval_interrupt ev i with
  | Some k =>
      match Trainer.evaluate_interrupted k (trainer s) i valid_set with
      | Ok tr =>
          handler (set_trainer s tr) i
            (Trainer.evaluate_interrupted_log k (trainer s) i valid_set)
            LogInterrupted Interrupted
      | Raise e => (s, [], Some (Crashed e))
      end
  | None =>
      let '(tr, log, r) := Trainer.evaluate (trainer s) i valid_set in
      let s' := set_trainer s tr in
      match r with
      | Ok _ => (s', log, None)
      | Raise KeyboardInterrupt => handler s' i log LogInterrupted Interrupted
      | Raise PatienceElapsedError => handler s' i log LogPatienceElapsed Converged
      | Raise NoImprovementError => anneal s' i log
      | Raise e => (s', log, Some (Crashed e))
      end
  end.

(** The pass over the training set and the line logged after it.  The mean
    of no costs is not a sequence, and [zip] raises TypeError on it. *)
Definition update (s : t) (velocities : list tensor) (i : Z)
  : t * list tensor * list log_entry * option terminal :=
  match learn_interrupt ev i with
  | Some (b, pt) =>
      let (s', v') := learn_interrupted s velocities train_set b pt in
      match loose_interrupt ev i with
      | Some (InPassHandler false) =>
          (s', v', [], Some (Crashed KeyboardInterrupt))
      | Some (InPassHandler true) =>
          (s', v', [LogInterrupted], Some (Crashed KeyboardInterrupt))
      | _ => (s', v', [LogInterrupted], Some Interrupted)
      end
  | None =>
      let '(s', v', ys) := learn s velocities train_set in
      match loose_interrupt ev i with
      | Some (AfterPass false) => (s', v', [], Some (Crashed KeyboardInterrupt))
      | other =>
          match ys with
          | [] => (s', v', [], Some (Crashed TypeError))
          | _ :: _ =>
              (s', v',
               [LogTrain (i + 1) (Trainer.iterations (trainer s'))
                  (learning_rate s')
                  (mean_axis0 (map fst ys)) (mean_axis0 (map snd ys))],
               match other with
               | Some (AfterPass true) => Some (Crashed KeyboardInterrupt)
               | _ => None
               end)
          end
      end
  end.

(** Lines 149-167, with the interrupt that can arrive before the second
    [try]. *)
Definition pass (s : t) (velocities : list tensor) (i : Z)
  : t * list tensor * list log_entry * option terminal :=
  match loose_interrupt ev i with
  | Some BeforePass => (s, velocities, [], Some (Crashed KeyboardInterrupt))
  | _ => update s velocities i
  end.

(** The body of [for i in xrange(self.iterations)] from the test of the
    iteration index on; [Some] is a [break] or an exception that leaves
    [train]. *)
Definition turn (s : t) (velocities : list tensor) (i : Z)
  : t * list tensor * list log_entry * option terminal :=
  let vf := Trainer.validation_frequency (trainer s) in
  if Z.eqb vf 0 then (s, velocities, [], Some (Crashed ZeroDivisionError))
  else
    let '(s1, log1, stop) :=
      if Z.eqb (i mod vf) 0 then validate s i else (s, [], None) in
    match stop with
    | Some term => (s1, velocities, log1, Some term)
    | None =>
        let '(s2, v2, log2, stop2) := pass s1 velocities i in
        (s2, v2, log1 ++ log2, stop2)
    end.

(** One iteration, with the interrupt that can arrive at the head of the
    loop. *)
Definition iteration (s : t) (velocities : list tensor) (i : Z)
  : t * list tensor * list log_entry * option terminal :=
  match loose_interrupt ev i with
  | Some AtCheck => (s, velocities, [], Some (Crashed KeyboardInterrupt))
  | _ => turn s velocities i
  end.

Fixpoint train_loop (n : nat) (i : Z) (s : t) (velocities : list tensor)
    (log : list log_entry) : t * list tensor * list log_entry * terminal :=
  match n with
  | O => (s, velocities, log, Exhausted)
  | S n' =>
      let '(s', v', log', stop) := iteration s velocities i in
      match stop with
      | Some term => (s', v', log ++ log', term)
      | None => train_loop n' (i + 1) s' v' (log ++ log')
      end
  end.

(** The last line, [self.update_params(self.best_params)], and the
    KeyboardInterrupt that can arrive in it when [k] parameters are set. *)
Definition restore (s : t) (log : list log_entry) (term : terminal)
  : t * list log_entry * terminal :=
  let tr := trainer s in
  match restore_interrupt ev with
  | Some k =>
      (set_params s
         (Trainer.set_values_upto k (Trainer.params tr) (Trainer.best_params tr)),
       log, Crashed KeyboardInterrupt)
  | None =>
      (set_trainer s (Trainer.update_params tr (Trainer.best_params tr)),
       log, term)
  end.

(** [SGD.train]: an exception that no handler catches leaves the method
    before its last line. *)
Definition train (s : t) : t * list log_entry * terminal :=
  let velocities := map zeros_like (params s) in
  let '(s', _, log, term) :=
    train_loop (Z.to_nat (Trainer.iterations (trainer s))) 0 s velocities [] in
  match term with
  | Crashed e => (s', log, term)
  | _ => restore s' log term
  end.

End Train.

End SGD.

Arguments t : clear implicits.

End SGD.

(** ** class Scipy *)

Module Scipy.

(** What [scipy.optimize.minimize] returns: [res.x] and [res.fun]. *)
Record OptimizeResult : Type := mk_result {
  res_x : list R;
  res_fun : R
}.

(** One call of the external minimizer as the trainer sees it: the points at
    which it called [function_at] or [gradient_at] to the end, in order; the
    point of a call cut short by a KeyboardInterrupt with the number of
    parameters that call had set; and how the minimizer ended. *)
Record minimize_run : Type := mk_run {
  probes : list (list R);
  partial_probe : option (list R * nat);
  outcome : result OptimizeResult
}.

Section Scipy.
Context {batch : Type}.

(** [minimize] is [scipy.optimize.minimize] with [method=self.method]: given
    [fun], [jac], [x0] and [maxiter] it produces one run. *)
Record t : Type := mk {
  trainer : Trainer.t batch;
  minimize : (list R -> result R) -> (list R -> result (list R)) ->
             list R -> Z -> minimize_run
}.

Definition set_trainer (s : t) (tr : Trainer.t batch) : t :=
  mk tr (minimize s).

(** [for p, a in zip(self.params, self.flat_to_arrays(x)): p.set_value(a)]. *)
Definition set_flat (tr : Trainer.t batch) (x : list R) : result (Trainer.t batch) :=
  do arrays <- Trainer.flat_to_arrays tr x;
  Ok (Trainer.update_params tr arrays).

Definition set_flat_upto (k : nat) (tr : Trainer.t batch) (x : list R)
  : result (Trainer.t batch) :=
  do arrays <- Trainer.flat_to_arrays tr x;
  Ok (Trainer.set_params tr (Trainer.set_values_upto k (Trainer.params tr) arrays)).

(** [function_at]: the value it returns; the parameters it sets are the
    arrays of [x]. *)
Definition function_at (tr : Trainer.t batch) (train_set : list batch)
    (x : list R) : result R :=
  do tr' <- set_flat tr x;
  match Trainer.valid_costs tr' train_set with
  | [] => Raise IndexError
  | cost :: _ => Ok cost
  end.

(** The mean over the batches of the gradients of one parameter. *)
Definition mean_arrays (gs : list tensor) : result tensor :=
  match gs with
  | [] => Raise ValueError
  | g :: _ => Ok (mk_ndarray (shape g) (mean_axis0 (map data gs)))
  end.

Fixpoint collect {A : Type} (rs : list (result A)) : result (list A) :=
  match rs with
  | [] => Ok []
  | r :: rs' => do a <- r; do l <- collect rs'; Ok (a :: l)
  end.

(** [gradient_at].  On an empty training set NumPy's mean is NaN, which the
    reals do not have; the model raises there. *)
Definition gradient_at (tr : Trainer.t batch) (train_set : list batch)
    (x : list R) : result (list R) :=
  do tr' <- set_flat tr x;
  let per_batch := map (fun b => Trainer.f_grad tr' b (Trainer.params tr')) train_set in
  let grads :=
    map (fun i => map (fun gs => nth i gs (mk_ndarray [] [])) per_batch)
        (seq 0 (length (Trainer.params tr'))) in
  do means <- collect (map mean_arrays grads);
  Trainer.arrays_to_flat tr' means.

Fixpoint set_probes (tr : Trainer.t batch) (xs : list (list R))
  : result (Trainer.t batch) :=
  match xs with
  | [] => Ok tr
  | x :: xs' => do tr' <- set_flat tr x; set_probes tr' xs'
  end.

(** The interrupts of one run, off the minimizer (whose interrupts are part
    of its run): for iteration [i], whether one arrives during [evaluate],
    whether one arrives outside the two [try] blocks (and where), and whether
    one arrives while the result of the minimizer is committed (lines
    319-320), after how many parameters have been set; and whether one
    arrives during the final [update_params]. *)
Record events : Type := mk_events {
  eval_interrupt : Z -> option nat;
  loose_interrupt : Z -> option loose_point;
  commit_interrupt : Z -> option nat;
  restore_interrupt : option nat
}.

Section Train.
Variables (train_set valid_set : list batch) (ev : events).

(** An [except] clause whose one statement logs [line] and that ends the
    loop as [term], with the interrupts that can arrive in it. *)
Definition handler (s : t) (i : Z) (log : list log_entry) (line : log_entry)
    (term : terminal) : t * list log_entry * option terminal :=
  match loose_interrupt ev i with
  | Some (InHandler false) => (s, log, Some (Crashed KeyboardInterrupt))
  | Some (InHandler true) => (s, log ++ [line], Some (Crashed KeyboardInterrupt))
  | _ => (s, log ++ [line], Some term)
  end.

(** The [try: self.evaluate(i, valid_set)] block with its handlers; the
    clause [except NoImprovementError: pass] has no statement to run. *)
Definition validate (s : t) (i : Z) : t * list log_entry * option terminal :=
  match eval_interrupt ev i with
  | Some k =>
      match Trainer.evaluate_interrupted k (trainer s) i valid_set with
      | Ok tr =>
          handler (set_trainer s tr) i
            (Trainer.evaluate_interrupted_log k (trainer s) i valid_set)
            LogInterrupted Interrupted
      | Raise e => (s, [], Some (Crashed e))
      end
  | None =>
      let '(tr, log, r) := Trainer.evaluate (trainer s) i valid_set in
      let s' := set_trainer s tr in
      match r with
      | Ok _ => (s', log, None)
      | Raise KeyboardInterrupt => handler s' i log LogInterrupted Interrupted
      | Raise PatienceElapsedError => handler s' i log LogPatienceElapsed Converged
      | Raise NoImprovementError =>
          match loose_interrupt ev i with
          | Some (InHandler _) => (s', log, Some (Crashed KeyboardInterrupt))
          | _ => (s', log, None)
          end
      | Raise e => (s', log, Some (Crashed e))
      end
  end.

(** The clause [except KeyboardInterrupt:] of the second [try]. *)
Definition pass_handler (s : t) (i : Z)
  : t * list log_entry * option terminal :=
  match loose_interrupt ev i with
  | Some (InPassHandler false) => (s, [], Some (Crashed KeyboardInterrupt))
  | Some (InPassHandler true) =>
      (s, [LogInterrupted], Some (Crashed KeyboardInterrupt))
  | _ => (s, [LogInterrupted], Some Interrupted)
  end.

(** Lines 318-320: the line logged for the result, and the commit of
    [res.x]. *)
Definition commit (s : t) (i : Z) (res : OptimizeResult)
  : t * list log_entry * option terminal :=
  let tr := trainer s in
  let log := [LogScipy (i + 1) (Trainer.iterations tr) (res_fun res)] in
  match loose_interrupt ev i with
  | Some (AfterPass false) => (s, [], Some (Crashed KeyboardInterrupt))
  | Some (AfterPass true) => (s, log, Some (Crashed KeyboardInterrupt))
  | _ =>
      match commit_interrupt ev i with
      | Some k =>
          match set_flat_upto k tr (res_x res) with
          | Raise e => (s, log, Some (Crashed e))
          | Ok tr' => (set_trainer s tr', log, Some (Crashed KeyboardInterrupt))
          end
      | None =>
          match set_flat tr (res_x res) with
          | Raise e => (s, log, Some (Crashed e))
          | Ok tr' => (set_trainer s tr', log, None)
          end
      end
  end.

(** The call of the minimizer in its [try] block, and what follows it. *)
Definition optimize (s : t) (i : Z) : t * list log_entry * option terminal :=
  let tr := trainer s in
  match Trainer.arrays_to_flat tr (Trainer.best_params tr) with
  | Raise e => (s, [], Some (Crashed e))
  | Ok x0 =>
      let run := minimize s (function_at tr train_set) (gradient_at tr train_set)
                   x0 (Trainer.validation_frequency tr) in
      match set_probes tr (probes run) with
      | Raise e => (s, [], Some (Crashed e))
      | Ok tr1 =>
          let partial :=
            match partial_probe run with
            | None => Ok tr1
            | Some (x, k) => set_flat_upto k tr1 x
            end in
          match partial with
          | Raise e => (set_trainer s tr1, [], Some (Crashed e))
          | Ok tr2 =>
              let s2 := set_trainer s tr2 in
              match outcome run with
              | Raise KeyboardInterrupt => pass_handler s2 i
              | Raise e => (s2, [], Some (Crashed e))
              | Ok res => commit s2 i res
              end
          end
      end
  end.

(** The second [try] and what follows it, with the interrupt that can
    arrive before it. *)
Definition pass (s : t) (i : Z) : t * list log_entry * option terminal :=
  match loose_interrupt ev i with
  | Some BeforePass => (s, [], Some (Crashed KeyboardInterrupt))
  | _ => optimize s i
  end.

(** The body of [for i in xrange(self.iterations)]. *)
Definition turn (s : t) (i : Z) : t * list log_entry * option terminal :=
  let '(s1, log1, stop) := validate s i in
  match stop with
  | Some term => (s1, log1, Some term)
  | None =>
      let '(s2, log2, stop2) := pass s1 i in
      (s2, log1 ++ log2, stop2)
  end.

(** One iteration, with the interrupt that can arrive at the head of the
    loop. *)
Definition iteration (s : t) (i : Z) : t * list log_entry * option terminal :=
  match loose_interrupt ev i with
  | Some AtCheck => (s, [], Some (Crashed KeyboardInterrupt))
  | _ => turn s i
  end.

Fixpoint train_loop (n : nat) (i : Z) (s : t) (log : list log_entry)
  : t * list log_entry * terminal :=
  match n with
  | O => (s, log, Exhausted)
  | S n' =>
      let '(s', log', stop) := iteration s i in
      match stop with
      | Some term => (s', log ++ log', term)
      | None => train_loop n' (i + 1) s' (log ++ log')
      end
  end.

(** The last line, [self.update_params(self.best_params)], and the
    KeyboardInterrupt that can arrive in it when [k] parameters are set. *)
Definition restore (s : t) (log : list log_entry) (term : terminal)
  : t * list log_entry * terminal :=
  let tr := trainer s in
  match restore_interrupt ev with
  | Some k =>
      (set_trainer s
         (Trainer.set_params tr
            (Trainer.set_values_upto k (Trainer.params tr)
               (Trainer.best_params tr))),
       log, Crashed KeyboardInterrupt)
  | None =>
      (set_trainer s (Trainer.update_params tr (Trainer.best_params tr)),
       log, term)
  end.

(** [Scipy.train]: an exception that no handler catches leaves the method
    before its last line. *)
Definition train (s : t) : t * list log_entry * terminal :=
  let '(s', log, term) :=
    train_loop (Z.to_nat (Trainer.iterations (trainer s))) 0 s [] in
  match term with
  | Crashed e => (s', log, term)
  | _ => restore s' log term
  end.

End Train.

End Scipy.

Arguments t : clear implicits.

End Scipy.

(** ** A one-number network for concrete runs

    A batch is a real number.  The cost is the first element of the first
    parameter, and every element of every gradient is the batch. *)

Module Sample.

Definition value (ps : list tensor) : R :=
  nth 0 (data (nth 0 ps (mk_ndarray [] []))) 0%R.

Definition eval (x : R) (ps : list tensor) : list R := [value ps].

Definition grad (x : R) (ps : list tensor) : list tensor :=
  map (fun p => mk_ndarray (shape p) (map (fun _ => x) (data p))) ps.

(** A vector of shape [(n,)]. *)
Definition vec (d : list R) : tensor := mk_ndarray [length d] d.

Definition trainer (values : list tensor) (validate : Z) (min_improvement : R)
    (num_updates patience : Z) (best_cost : R) : Trainer.t R :=
  Trainer.mk values eval grad eval validate min_improvement num_updates patience
    (map shape values) (map prod (map shape values)) best_cost 0%Z values.

Definition sgd (tr : Trainer.t R) (momentum max_gradient_norm learning_rate : R)
    (clip : bool) : SGD.t R :=
  SGD.mk tr momentum max_gradient_norm learning_rate (1 / 10)%R clip.

(** No interrupt at all. *)
Definition quiet : SGD.events :=
  SGD.mk_events (fun _ => None) (fun _ => None) (fun _ => None) None.





End Sample.

(** ** What is stated of the program

    The predicates that the properties below are stated with. *)

Module Spec.

Local Open Scope R_scope.

(** *** Gradient policy *)

(** What the claim C3 says of one call of [_maybe_rescale_gradient]. *)
Definition rescale_claim {batch : Type} (s : SGD.t batch) (g : tensor) : Prop :=
  let r := fst (SGD._maybe_rescale_gradient s g) in
  let l := snd (SGD._maybe_rescale_gradient s g) in
  l = norm g /\
  (SGD.max_gradient_norm s < norm g ->
     norm r = SGD.max_gradient_norm s /\ exists c, 0 < c /\ r = scale c g) /\
  (norm g <= SGD.max_gradient_norm s -> r = g).

(** What [_apply_delta] makes of one element [x] and its delta [d]. *)
Definition shifted (clip : bool) (x d : R) : R :=
  if clip && ((Rltb 0 x && Rltb (x + d) 0) || (Rltb x 0 && Rltb 0 (x + d)))
  then 0 else x + d.

(** The parameter values [look] at which the Nesterov pass takes its
    gradients: a parameter with a velocity has moved by [m] times the
    velocity, element by element, and one without a velocity has not
    moved. *)
Definition lookahead (m : R) (ps velocities look : list tensor) : Prop :=
  length look = length ps /\
  forall k q, nth_error ps k = Some q ->
    exists l,
      nth_error look k = Some l /\ shape l = shape q /\
      length (data l) = length (data q) /\
      match nth_error velocities k with
      | None => l = q
      | Some w =>
          forall j qj wj,
            nth_error (data q) j = Some qj -> nth_error (data w) j = Some wj ->
            nth_error (data l) j = Some (qj + m * wj)
      end.


(** *** Convergence tracking *)

(** One call of [evaluate]: the best cost and iteration change together, and
    only when the criterion holds. *)
Definition tracked {batch : Type} (valid_set : list batch)
    (c : Z * Trainer.t batch * Trainer.t batch) : Prop :=
  let '(i, before, after) := c in
  (exists cost rest,
      Trainer.valid_costs before valid_set = cost :: rest /\
      Trainer.best_cost before - cost
        > Trainer.best_cost before * Trainer.min_improvement before /\
      Trainer.best_cost after = cost /\ Trainer.best_iter after = i) \/
  (Trainer.best_cost after = Trainer.best_cost before /\
   Trainer.best_iter after = Trainer.best_iter before).

(** The costs a sequence of calls sees are not negative. *)
Definition costs_nonneg {batch : Type} (s : Trainer.t batch)
    (calls : list (Z * list tensor)) (valid_set : list batch) : Prop :=
  Forall (fun call =>
            match Trainer.valid_costs (Trainer.set_params s (snd call)) valid_set with
            | [] => True
            | cost :: _ => 0 <= cost
            end) calls.

(** The best costs before and after every call of a sequence. *)
Definition best_costs {batch : Type} (s : Trainer.t batch)
    (calls : list (Z * list tensor)) (valid_set : list batch) : list R :=
  Trainer.best_cost s ::
  map (fun c => Trainer.best_cost (snd c)) (Trainer.evaluate_all s calls valid_set).

(** What the claim C8 says of the best cost. *)
Definition best_cost_claim {batch : Type} (s : Trainer.t batch)
    (calls : list (Z * list tensor)) (valid_set : list batch) : Prop :=
  0 <= Trainer.min_improvement s -> Sorted Rge (best_costs s calls valid_set).

Local Close Scope R_scope.

(** *** The training loops *)

(** A trainer holds one best value for every parameter. *)
Definition consistent {batch : Type} (tr : Trainer.t batch) : Prop :=
  length (Trainer.best_params tr) = length (Trainer.params tr).

(** A run that ends in one of the three terminal states of the loop. *)
Definition terminated (term : terminal) : Prop :=
  term = Converged \/ term = Interrupted \/ term = Exhausted.

(** [s'] is [s] with other parameter values, as many as before. *)
Definition moved {batch : Type} (s s' : SGD.t batch) : Prop :=
  exists ps, s' = SGD.set_params s ps /\ length ps = length (SGD.params s).

(** [tr'] is [tr] with other parameter values, as many as before. *)
Definition reset {batch : Type} (tr tr' : Trainer.t batch) : Prop :=
  exists ps, tr' = Trainer.set_params tr ps /\
             length ps = length (Trainer.params tr).

(** No line of the log marks an improvement. *)
Definition no_improvement (log : list log_entry) : Prop :=
  forall i costs, ~ In (LogValid i costs true) log.

(** The calls of [evaluate] in a run, for stating what a run has seen: for
    the iteration [i] of [SGD.train] in state [s], the call that the
    iteration reaches (none when an interrupt arrives before it, or when [i]
    is no multiple of the validation frequency), with the parameter values it
    is made at and whether it finds an improvement (line 102), be it
    interrupted later or not. *)
Definition finds {batch : Type} (valid_set : list batch)
    (interrupt : option nat) (tr : Trainer.t batch) : bool :=
  match interrupt, Trainer.valid_costs tr valid_set with
  | Some O, _ => false
  | _, [] => false
  | _, cost :: _ => Trainer.improvement tr cost
  end.

Definition sgd_call {batch : Type} (valid_set : list batch) (ev : SGD.events)
    (s : SGD.t batch) (i : Z) : list (Z * list tensor * bool) :=
  let tr := SGD.trainer s in
  let vf := Trainer.validation_frequency tr in
  match SGD.loose_interrupt ev i with
  | Some AtCheck => []
  | _ =>
      if Z.eqb vf 0 then []
      else if Z.eqb (i mod vf) 0 then
        [(i, SGD.params s, finds valid_set (SGD.eval_interrupt ev i) tr)]
      else []
  end.

(** The calls of [evaluate] in [n] iterations from [i] on. *)
Fixpoint sgd_calls {batch : Type} (train_set valid_set : list batch)
    (ev : SGD.events) (n : nat) (i : Z) (s : SGD.t batch)
    (velocities : list tensor) : list (Z * list tensor * bool) :=
  match n with
  | O => []
  | S n' =>
      sgd_call valid_set ev s i ++
      match SGD.iteration train_set valid_set ev s velocities i with
      | (s', v', _, None) => sgd_calls train_set valid_set ev n' (i + 1) s' v'
      | (_, _, _, Some _) => []
      end
  end.

(** The calls of [evaluate] in a run of [SGD.train]. *)
Definition sgd_run_calls {batch : Type} (train_set valid_set : list batch)
    (ev : SGD.events) (s : SGD.t batch) : list (Z * list tensor * bool) :=
  sgd_calls train_set valid_set ev
    (Z.to_nat (Trainer.iterations (SGD.trainer s))) 0 s
    (map zeros_like (SGD.params s)).

(** The same for [Scipy.train], which calls [evaluate] in every
    iteration. *)
Definition scipy_call {batch : Type} (valid_set : list batch)
    (ev : Scipy.events) (s : Scipy.t batch) (i : Z)
  : list (Z * list tensor * bool) :=
  let tr := Scipy.trainer s in
  match Scipy.loose_interrupt ev i with
  | Some AtCheck => []
  | _ => [(i, Trainer.params tr, finds valid_set (Scipy.eval_interrupt ev i) tr)]
  end.

Fixpoint scipy_calls {batch : Type} (train_set valid_set : list batch)
    (ev : Scipy.events) (n : nat) (i : Z) (s : Scipy.t batch)
  : list (Z * list tensor * bool) :=
  match n with
  | O => []
  | S n' =>
      scipy_call valid_set ev s i ++
      match Scipy.iteration train_set valid_set ev s i with
      | (s', _, None) => scipy_calls train_set valid_set ev n' (i + 1) s'
      | (_, _, Some _) => []
      end
  end.

Definition scipy_run_calls {batch : Type} (train_set valid_set : list batch)
    (ev : Scipy.events) (s : Scipy.t batch) : list (Z * list tensor * bool) :=
  scipy_calls train_set valid_set ev
    (Z.to_nat (Trainer.iterations (Scipy.trainer s))) 0 s.

(** The snapshot [best] is the one that the run started with, or the
    parameter values at which a call of [evaluate] of the run found an
    improvement. *)
Definition validated (best start : list tensor)
    (calls : list (Z * list tensor * bool)) : Prop :=
  best = start \/ exists i, In (i, best, true) calls.

(** No interrupt arrives in iteration [i]. *)
Definition quiet_at (ev : SGD.events) (i : Z) : Prop :=
  SGD.eval_interrupt ev i = None /\ SGD.learn_interrupt ev i = None /\
  SGD.loose_interrupt ev i = None.



(** What the claim C1 says of a run of [SGD.train] that patience, an
    interrupt or the end of its iterations ends, wherever the interrupt
    arrives: on exit the parameters are the best parameters. *)
Definition restores_claim {batch : Type} (train_set valid_set : list batch)
    (ev : SGD.events) (s : SGD.t batch) : Prop :=
  let r := SGD.train train_set valid_set ev s in
  terminated (snd r) \/ snd r = Crashed KeyboardInterrupt ->
  SGD.params (fst (fst r)) = Trainer.best_params (SGD.trainer (fst (fst r))).

(** Between the last improvement and iteration [i] no checkpoint has used up
    the patience [P], and PatienceElapsedError has not been logged. *)
Definition waiting {batch : Type} (vf P : Z) (i : Z) (s : SGD.t batch)
    (log : list log_entry) : Prop :=
  Trainer.validation_frequency (SGD.trainer s) = vf /\
  Trainer.patience (SGD.trainer s) = P /\
  ~ In LogPatienceElapsed log /\
  (Trainer.best_iter (SGD.trainer s) mod vf = 0)%Z /\
  (forall j, (Trainer.best_iter (SGD.trainer s) < j < i)%Z ->
             (j mod vf = 0)%Z -> (j - Trainer.best_iter (SGD.trainer s) <= P)%Z).

(** The log ends with the check that used up the patience, at the first
    checkpoint more than [P] iterations after the last improvement, and with
    the line that says so. *)
Definition elapsed {batch : Type} (vf P : Z) (s : SGD.t batch)
    (log : list log_entry) : Prop :=
  exists log0 i costs,
    log = log0 ++ [LogValid (i + 1) costs false; LogPatienceElapsed] /\
    ~ In LogPatienceElapsed log0 /\
    i = (Trainer.best_iter (SGD.trainer s) + (P / vf + 1) * vf)%Z.

(** How the loop is left by a [break] or an exception: with patience
    elapsed as [elapsed] says; with a KeyboardInterrupt that no [try] block
    catches in the same way, when it arrives in the handler of
    PatienceElapsedError after its line is logged, or without that line;
    and without that line in every other case. *)
Definition stopped {batch : Type} (vf P : Z) (s : SGD.t batch)
    (log : list log_entry) (term : terminal) : Prop :=
  match term with
  | Converged => elapsed vf P s log
  | Exhausted => False
  | Crashed KeyboardInterrupt =>
      elapsed vf P s log \/ ~ In LogPatienceElapsed log
  | _ => ~ In LogPatienceElapsed log
  end.

(** How a run of [n] iterations ends: as [stopped] says, or with all [n]
    iterations done and no checkpoint among them more than [P] iterations
    after the last improvement. *)
Definition ended {batch : Type} (vf P : Z) (n : nat) (s : SGD.t batch)
    (log : list log_entry) (term : terminal) : Prop :=
  match term with
  | Exhausted =>
      ~ In LogPatienceElapsed log /\
      forall j, (Trainer.best_iter (SGD.trainer s) < j < Z.of_nat n)%Z ->
                (j mod vf = 0)%Z ->
                (j - Trainer.best_iter (SGD.trainer s) <= P)%Z
  | _ => stopped vf P s log term
  end.

(** What the claim C6 says of a run that ends with patience elapsed: the
    last check is that of checkpoint [P + 1] after the last improvement. *)
Definition patience_claim {batch : Type} (train_set valid_set : list batch)
    (ev : SGD.events) (s : SGD.t batch) : Prop :=
  let vf := Trainer.validation_frequency (SGD.trainer s) in
  let P := Trainer.patience (SGD.trainer s) in
  let r := SGD.train train_set valid_set ev s in
  snd r = Converged ->
  exists log0 i costs marker,
    snd (fst r) = log0 ++ [LogValid (i + 1) costs marker; LogPatienceElapsed] /\
    i = (Trainer.best_iter (SGD.trainer (fst (fst r))) + (P + 1) * vf)%Z.

End Spec.

Import Spec.

(** ** class Sample *)

Module SampleTrainer.

(** The state of [numpy.random]: the raw integers and the normal deviates it
    is going to produce, and how many of each it has produced. *)
Record source : Type := mk_source {
  ints : nat -> nat;
  normals : nat -> R;
  int_pos : nat;
  normal_pos : nat
}.

(** [rng.randint(high)]: an integer below [high]; ValueError when there is
    none. *)
Definition randint (high : nat) (src : source) : result (nat * source) :=
  match high with
  | O => Raise ValueError
  | S _ =>
      Ok (ints src (int_pos src) mod high,
          mk_source (ints src) (normals src) (S (int_pos src)) (normal_pos src))
  end.

(** [rng.randn( *shape)]: an array of normal deviates. *)
Definition randn (sh : list nat) (src : source) : tensor * source :=
  (mk_ndarray sh (map (normals src) (seq (normal_pos src) (prod sh))),
   mk_source (ints src) (normals src) (int_pos src) (normal_pos src + prod sh)).

(** [x / np.linalg.norm(x)]. *)
Definition normalized (x : tensor) : tensor := div_scalar x (norm x).

(** [pool[j] = v]: IndexError when [j] is not an index of the list. *)
Fixpoint set_item {A : Type} (l : list A) (j : nat) (v : A) : result (list A) :=
  match l, j with
  | [], _ => Raise IndexError
  | _ :: l', O => Ok (v :: l')
  | a :: l', S j' => do r <- set_item l' j' v; Ok (a :: r)
  end.

(** [np.std(pool, axis=0)] of arrays of one shape. *)
Definition std_axis0 (pool : list tensor) : tensor :=
  match pool with
  | [] => mk_ndarray [] []
  | x :: _ =>
      mk_ndarray (shape x)
        (map (fun j =>
                let col := map (fun a => nth j (data a) 0%R) pool in
                let m := mean col in
                sqrt (mean (map (fun v => ((v - m) * (v - m))%R) col)))
             (seq 0 (length (data x))))
  end.

(** [a * b], elementwise. *)
Definition mul (a b : tensor) : tensor :=
  mk_ndarray (shape a) (zip_with Rmult (data a) (data b)).

(** The loop of [reservoir] over [enumerate(xs)], from index [i] on. *)
Fixpoint reservoir_fill (xs : list tensor) (i n : nat) (pool : list tensor)
    (src : source) : result (list tensor * source) :=
  match xs with
  | [] => Ok (pool, src)
  | x :: xs' =>
      if Nat.ltb (length pool) n then
        reservoir_fill xs' (S i) n (pool ++ [normalized x]) src
      else
        do r <- randint (i + 1) src;
        let (j, src') := r in
        if Nat.ltb j n then
          do pool' <- set_item pool j (normalized x);
          reservoir_fill xs' (S i) n pool' src'
        else reservoir_fill xs' (S i) n pool src'
  end.

(** [k] turns of [while len(pool) < n], each of which appends one item. *)
Fixpoint reservoir_pad (k L : nat) (pool : list tensor) (src : source)
  : result (list tensor * source) :=
  match k with
  | O => Ok (pool, src)
  | S k' =>
      do r <- randint L src;
      let (j, src1) := r in
      match nth_error pool j with
      | None => Raise IndexError
      | Some x =>
          let sd := std_axis0 pool in
          let (noise, src2) := randn (shape x) src1 in
          reservoir_pad k' L (pool ++ [add x (mul sd noise)]) src2
      end
  end.

(** [Sample.reservoir]: the loop runs [n - len(pool)] times. *)
Definition reservoir (xs : list tensor) (n : nat) (src : source)
  : result (list tensor * source) :=
  do r <- reservoir_fill xs 0 n [] src;
  let (pool, src1) := r in
  reservoir_pad (n - length pool) (length pool) pool src1.

(** A source for concrete runs: every raw integer is [c], every deviate 0. *)
Definition constant (c : nat) : source :=
  mk_source (fun _ => c) (fun _ => 0%R) 0 0.

End SampleTrainer.

(** ** What the further properties are stated with *)

Module Observations.

Local Open Scope R_scope.

(** [np.linalg.norm(a - b)]. *)
Definition dist (a b : tensor) : R :=
  sqrt (sum_sq (zip_with Rminus (data a) (data b))).

(** The checks of a log that brought no improvement and were not the one
    that used up the patience: those after which [SGD.train] lowers the
    learning rate. *)
Fixpoint anneals (log : list log_entry) : nat :=
  match log with
  | [] => 0%nat
  | LogValid _ _ false :: rest =>
      match rest with
      | LogPatienceElapsed :: _ => anneals rest
      | _ => S (anneals rest)
      end
  | _ :: rest => anneals rest
  end.

(** The iteration numbers of the lines logged after a pass over the
    training set. *)
Fixpoint train_lines (log : list log_entry) : list Z :=
  match log with
  | [] => []
  | LogTrain i _ _ _ _ :: rest => i :: train_lines rest
  | _ :: rest => train_lines rest
  end.

(** The numbers 1, ..., [k]. *)
Definition upto (k : nat) : list Z := map Z.of_nat (seq 1 k).

(** The learning rate [lr'] is the rate [lr] lowered [k] times by the factor
    [1 - d], where [k] is the number of annealing checks in the log, or one
    less; it is that number in a run that no KeyboardInterrupt ends. *)
Definition lowered (lr d lr' : R) (log : list log_entry) (term : terminal)
  : Prop :=
  exists k : nat,
    lr' = (lr * (1 - d) ^ k)%R /\
    (k = anneals log \/ S k = anneals log) /\
    (term <> Interrupted -> term <> Crashed KeyboardInterrupt ->
     k = anneals log).

(** The compiled evaluation function reports at least the primary cost. *)
Definition reports_cost {batch : Type} (tr : Trainer.t batch) : Prop :=
  forall x ps, Trainer.f_eval tr x ps <> [].





End Observations.

Import Observations.

(** * Properties *)

(** ** Flat buffers *)

Module FlatFacts.
Import Trainer.

Section Flat.
Context {A : Type}.

Lemma sum_counts_concat (arrays : list (ndarray A)) :
  Forall well_formed arrays ->
  length (concat (map data arrays)) = sum (map prod (map shape arrays)).
Proof.
  induction 1 as [|a l Ha _ IH]; simpl; [reflexivity|].
  rewrite length_app, IH, Ha. reflexivity.
Qed.

Lemma assign_slice_exact (pre vals zs : list A) :
  length vals <= length zs ->
  assign_slice (pre ++ zs) (length pre) (length vals) vals
  = Ok (pre ++ vals ++ skipn (length vals) zs).
Proof.
  intros Hle. unfold assign_slice, slice.
  rewrite skipn_app, skipn_all, Nat.sub_diag. simpl.
  rewrite length_firstn, Nat.min_l by exact Hle.
  rewrite Nat.eqb_refl.
  rewrite firstn_app, firstn_all, Nat.sub_diag. simpl.
  rewrite app_nil_r.
  rewrite skipn_app.
  rewrite (skipn_all2 pre) by lia.
  replace (length pre + length vals - length pre) with (length vals) by lia.
  reflexivity.
Qed.

Lemma arrays_to_flat_loop_spec (arrays : list (ndarray A)) :
  forall (pre zs : list A),
    Forall well_formed arrays ->
    length zs = sum (map prod (map shape arrays)) ->
    arrays_to_flat_loop (combine arrays (map prod (map shape arrays)))
      (pre ++ zs) (length pre)
    = Ok (pre ++ concat (map data arrays)).
Proof.
  induction arrays as [|a l IH]; intros pre zs Hwf Hlen; simpl in *.
  - destruct zs; [reflexivity | discriminate].
  - inversion Hwf as [|? ? Ha Hl]; subst.
    unfold well_formed in Ha. unfold flatten. rewrite <- Ha in Hlen |- *.
    rewrite assign_slice_exact by lia. simpl.
    replace (length pre + length (data a)) with (length (pre ++ data a))
      by (rewrite length_app; reflexivity).
    rewrite app_assoc.
    rewrite IH; [rewrite <- app_assoc; reflexivity | exact Hl |].
    rewrite length_skipn. lia.
Qed.

Lemma flat_to_arrays_loop_spec (arrays : list (ndarray A)) :
  forall (pre rest : list A) (acc : list (ndarray A)),
    Forall well_formed arrays ->
    flat_to_arrays_loop
      (combine (map shape arrays) (map prod (map shape arrays)))
      (pre ++ concat (map data arrays) ++ rest) (length pre) acc
    = Ok (acc ++ arrays, length pre + length (concat (map data arrays))).
Proof.
  induction arrays as [|a l IH]; intros pre rest acc Hwf; simpl.
  - rewrite app_nil_r, Nat.add_0_r. reflexivity.
  - inversion Hwf as [|? ? Ha Hl]; subst.
    unfold well_formed in Ha. unfold slice, reshape.
    rewrite skipn_app, skipn_all, Nat.sub_diag. simpl.
    rewrite <- Ha, <- app_assoc.
    rewrite firstn_app, firstn_all, Nat.sub_diag. simpl.
    rewrite app_nil_r, Nat.eqb_refl. simpl.
    replace (length pre + length (data a)) with (length (pre ++ data a))
      by (rewrite length_app; reflexivity).
    rewrite (app_assoc pre). rewrite IH by exact Hl.
    rewrite <- app_assoc, !length_app. simpl.
    destruct a as [sh d]; simpl. f_equal. f_equal. lia.
Qed.

Lemma arrays_to_flat_concat (zero : A) (arrays : list (ndarray A)) :
  Forall well_formed arrays ->
  arrays_to_flat_with zero (map prod (map shape arrays)) arrays
  = Ok (concat (map data arrays)).
Proof.
  intros Hwf. unfold arrays_to_flat_with.
  apply (arrays_to_flat_loop_spec arrays [] _ Hwf).
  apply repeat_length.
Qed.

Lemma flat_to_arrays_concat (arrays : list (ndarray A)) :
  Forall well_formed arrays ->
  flat_to_arrays_with (map shape arrays) (map prod (map shape arrays))
    (concat (map data arrays))
  = Ok arrays.
Proof.
  intros Hwf. unfold flat_to_arrays_with.
  pose proof (flat_to_arrays_loop_spec arrays [] [] [] Hwf) as H.
  simpl in H. rewrite app_nil_r in H. rewrite H. simpl.
  rewrite Nat.eqb_refl. reflexivity.
Qed.

(** Every buffer of the right length is the concatenation of arrays of the
    declared shapes. *)
Lemma buffer_splits (shapes : list (list nat)) :
  forall x : list A,
    length x = sum (map prod shapes) ->
    exists arrays,
      map shape arrays = shapes /\ Forall well_formed arrays /\
      concat (map data arrays) = x.
Proof.
  induction shapes as [|sh l IH]; intros x Hlen; simpl in Hlen.
  - exists []. destruct x; [auto | discriminate].
  - destruct (IH (skipn (prod sh) x)) as (arrays & Hs & Hwf & Hc).
    { rewrite length_skipn. lia. }
    exists (mk_ndarray sh (firstn (prod sh) x) :: arrays). simpl.
    repeat split.
    + now rewrite Hs.
    + constructor; [|exact Hwf]. unfold well_formed. simpl.
      rewrite length_firstn. lia.
    + rewrite Hc. apply firstn_skipn.
Qed.

End Flat.

(** C2.  For a trainer whose counts are the element counts of its shapes (as
    the constructor sets them): flattening arrays of the declared shapes
    gives a buffer whose length is the sum of the counts and that
    [flat_to_arrays] turns back into the same arrays; and a buffer of that
    length is unflattened into arrays whose flattening is the buffer again. *)
Theorem flat_roundtrip {batch : Type} (s : Trainer.t batch) :
  counts s = map prod (shapes s) ->
  (forall arrays : list tensor,
      map shape arrays = shapes s -> Forall well_formed arrays ->
      exists x,
        arrays_to_flat s arrays = Ok x /\
        length x = sum (counts s) /\
        flat_to_arrays s x = Ok arrays) /\
  (forall x : list R,
      length x = sum (counts s) ->
      exists arrays,
        flat_to_arrays s x = Ok arrays /\
        arrays_to_flat s arrays = Ok x).
Proof.
  intros Hc. unfold arrays_to_flat, flat_to_arrays. rewrite Hc. split.
  - intros arrays Hs Hwf. rewrite <- Hs.
    exists (concat (map data arrays)).
    rewrite arrays_to_flat_concat, flat_to_arrays_concat by exact Hwf.
    repeat split. apply sum_counts_concat, Hwf.
  - intros x Hlen.
    destruct (buffer_splits (shapes s) x Hlen) as (arrays & Hs & Hwf & Hx).
    exists arrays. rewrite <- Hs, <- Hx.
    rewrite arrays_to_flat_concat, flat_to_arrays_concat by exact Hwf.
    split; reflexivity.
Qed.

Lemma flat_roundtrip_witness :
  let arrays := [Sample.vec [1%R; 2%R]; mk_ndarray [1%nat; 1%nat] [3%R]] in
  let s := Sample.trainer arrays 3 0%R 10 100 1%R in
  exists x,
    arrays_to_flat s arrays = Ok x /\
    length x = sum (counts s) /\
    flat_to_arrays s x = Ok arrays.
Proof.
  intros arrays s.
  apply (proj1 (flat_roundtrip s eq_refl) arrays eq_refl).
  repeat constructor.
Defined.

End FlatFacts.

(** ** Gradient policy *)

Module GradientFacts.
Import SGD.

Local Open Scope R_scope.

Lemma Rltb_true (x y : R) : Rltb x y = true <-> x < y.
Proof. unfold Rltb. destruct (Rlt_dec x y); split; auto; discriminate. Qed.

Lemma Rltb_false (x y : R) : Rltb x y = false <-> y <= x.
Proof.
  unfold Rltb. destruct (Rlt_dec x y); split; intros; try lra; auto; discriminate.
Qed.

Lemma sum_sq_nonneg (v : list R) : 0 <= sum_sq v.
Proof. induction v as [|x v IH]; simpl; [lra | nra]. Qed.

Lemma sum_sq_scaled (c : R) (v : list R) :
  sum_sq (map (fun x => c * x) v) = c * c * sum_sq v.
Proof. induction v as [|x v IH]; simpl; [lra | rewrite IH; ring]. Qed.

Lemma norm_nonneg (g : tensor) : 0 <= norm g.
Proof. apply sqrt_pos. Qed.

Lemma norm_scaled (c : R) (g : tensor) :
  0 <= c -> norm (scale c g) = c * norm g.
Proof.
  intros Hc. unfold norm, scale. simpl.
  rewrite sum_sq_scaled, sqrt_mult by (try apply sum_sq_nonneg; nra).
  rewrite sqrt_square by exact Hc. reflexivity.
Qed.

(** Dividing by the length and multiplying by the bound is one scaling. *)
Lemma rescaled_is_scale (g : tensor) (l m : R) :
  l <> 0 -> mul_scalar (div_scalar g l) m = scale (m / l) g.
Proof.
  intros Hl. unfold mul_scalar, div_scalar, scale. simpl. f_equal.
  rewrite map_map. apply map_ext. intros x. field. exact Hl.
Qed.

(** C3, amended: for a positive bound, a gradient longer than the bound is
    returned scaled by a positive factor to exactly the bound, a gradient
    within the bound is returned unchanged, and the length returned is the
    length before rescaling in both cases. *)
Theorem maybe_rescale_gradient_spec {batch : Type} (s : SGD.t batch) (g : tensor) :
  0 < max_gradient_norm s -> rescale_claim s g.
Proof.
  intros Hm. unfold rescale_claim, _maybe_rescale_gradient.
  destruct (Rltb (max_gradient_norm s) (norm g)) eqn:E; simpl.
  - apply Rltb_true in E. split; [reflexivity|]. split; [|lra].
    intros _. rewrite rescaled_is_scale by lra.
    assert (Hc : 0 < max_gradient_norm s / norm g)
      by (apply Rdiv_lt_0_compat; lra).
    split.
    + rewrite norm_scaled by lra. field. lra.
    + exists (max_gradient_norm s / norm g). split; [exact Hc | reflexivity].
  - apply Rltb_false in E. split; [reflexivity|]. split; [lra | reflexivity].
Qed.

Lemma norm_3_4 : norm (Sample.vec [3; 4]) = 5.
Proof.
  unfold norm. simpl.
  replace (3 * 3 + (4 * 4 + 0)) with (5 * 5) by lra.
  apply sqrt_square. lra.
Qed.

Lemma maybe_rescale_gradient_spec_witness :
  rescale_claim
    (Sample.sgd (Sample.trainer [Sample.vec [0]] 3 0 10 100 1) 0 1 (1 / 10) false)
    (Sample.vec [3; 4]).
Proof.
  apply maybe_rescale_gradient_spec. simpl. lra.
Defined.

(** C3 as stated fails for the bound 0: the gradient (3, 4) is returned as
    the zero vector, which is no positive multiple of it. *)
Lemma maybe_rescale_gradient_zero_bound :
  ~ rescale_claim
      (Sample.sgd (Sample.trainer [Sample.vec [0]] 3 0 10 100 1) 0 0 (1 / 10) false)
      (Sample.vec [3; 4]).
Proof.
  unfold rescale_claim. intros (_ & H & _).
  simpl in H. rewrite norm_3_4 in H.
  destruct H as (_ & c & Hc & Heq); [lra|].
  unfold _maybe_rescale_gradient in Heq. simpl in Heq.
  rewrite norm_3_4 in Heq.
  destruct (Rltb 0 5) eqn:E; [|apply Rltb_false in E; lra].
  simpl in Heq. unfold mul_scalar, div_scalar, scale, Sample.vec in Heq.
  simpl in Heq. injection Heq as H3 _. lra.
Qed.

(** *** _apply_delta *)

Lemma assign_where_same (v : list R) :
  assign_where v (mask_or (mask_and (gt0 v) (lt0 v)) (mask_and (lt0 v) (gt0 v))) 0
  = v.
Proof.
  induction v as [|x v IH]; [reflexivity|].
  unfold mask_or, mask_and, gt0, lt0 in *. simpl. rewrite IH.
  destruct (Rltb 0 x) eqn:E1, (Rltb x 0) eqn:E2; simpl; try reflexivity;
    apply Rltb_true in E1; apply Rltb_true in E2; lra.
Qed.

Lemma clipped_elementwise (v d : list R) :
  assign_where (zip_with Rplus v d)
    (mask_or (mask_and (gt0 v) (lt0 (zip_with Rplus v d)))
             (mask_and (lt0 v) (gt0 (zip_with Rplus v d)))) 0
  = zip_with (shifted true) v d.
Proof.
  revert d. induction v as [|x v IH]; intros d; [reflexivity|].
  destruct d as [|y d].
  - simpl zip_with. apply assign_where_same.
  - specialize (IH d).
    unfold mask_or, mask_and, gt0, lt0 in *. simpl. rewrite IH.
    unfold shifted. simpl. reflexivity.
Qed.

Lemma apply_delta_data {batch : Type} (s : SGD.t batch) (v delta : tensor) :
  data (_apply_delta s v delta)
  = zip_with (shifted (clip_params_at_zero s)) (data v) (data delta).
Proof.
  unfold _apply_delta. destruct (clip_params_at_zero s); simpl.
  - apply clipped_elementwise.
  - reflexivity.
Qed.

Lemma apply_delta_shape {batch : Type} (s : SGD.t batch) (v delta : tensor) :
  shape (_apply_delta s v delta) = shape v.
Proof. unfold _apply_delta. destruct (clip_params_at_zero s); reflexivity. Qed.

Lemma nth_error_zip_with (f : R -> R -> R) (v d : list R) :
  forall i x y,
    nth_error v i = Some x -> nth_error d i = Some y ->
    nth_error (zip_with f v d) i = Some (f x y).
Proof.
  revert d. induction v as [|a v IH]; intros d i x y Hv Hd.
  - destruct i; discriminate.
  - destruct d as [|b d]; [destruct i; discriminate|].
    destruct i; simpl in *.
    + congruence.
    + eauto.
Qed.

Lemma shifted_cases (clip : bool) (x d : R) :
  (clip = false -> shifted clip x d = x + d) /\
  (clip = true ->
     (0 < x /\ x + d <= 0) \/ (x < 0 /\ 0 <= x + d) -> shifted clip x d = 0) /\
  (clip = true ->
     ~ ((0 < x /\ x + d <= 0) \/ (x < 0 /\ 0 <= x + d)) ->
     shifted clip x d = x + d).
Proof.
  unfold shifted.
  destruct (Rltb 0 x) eqn:E1, (Rltb (x + d) 0) eqn:E2,
           (Rltb x 0) eqn:E3, (Rltb 0 (x + d)) eqn:E4;
    repeat match goal with
      | H : Rltb _ _ = true |- _ => apply Rltb_true in H
      | H : Rltb _ _ = false |- _ => apply Rltb_false in H
      end;
    try lra;
    (split; [intros ->; simpl; lra|]);
    (split; intros ->; simpl; intros; try lra; tauto).
Qed.

Lemma zip_with_length (f : R -> R -> R) (v d : list R) :
  length (zip_with f v d) = length v.
Proof.
  revert d. induction v as [|x v IH]; intros [|y d]; simpl; auto.
Qed.

(** The element of the gradient that [_maybe_rescale_gradient] returns. *)
Lemma rescaled_element {batch : Type} (s : SGD.t batch) (g : tensor) (j : nat)
    (gj : R) :
  nth_error (data g) j = Some gj ->
  nth_error (data (fst (_maybe_rescale_gradient s g))) j
  = Some (if Rltb (max_gradient_norm s) (norm g)
          then gj / norm g * max_gradient_norm s else gj).
Proof.
  intros Hg. unfold _maybe_rescale_gradient.
  destruct (Rltb (max_gradient_norm s) (norm g)); simpl; [|exact Hg].
  rewrite map_map.
  apply (map_nth_error (fun x => x / norm g * max_gradient_norm s) _ _ Hg).
Qed.

Lemma rescaled_shape {batch : Type} (s : SGD.t batch) (g : tensor) :
  shape (fst (_maybe_rescale_gradient s g)) = shape g.
Proof.
  unfold _maybe_rescale_gradient.
  destruct (Rltb (max_gradient_norm s) (norm g)); reflexivity.
Qed.

(** C9.  Element [i] of the parameter, [x] before the call with [d] the
    matching element of the delta, is [x + d] afterwards; except that with
    clip_params_at_zero an element that was positive and is no longer, or was
    negative and is no longer, is 0. *)
Theorem apply_delta_spec {batch : Type} (s : SGD.t batch) (v delta : tensor)
    (i : nat) (x d : R) :
  nth_error (data v) i = Some x ->
  nth_error (data delta) i = Some d ->
  exists y,
    nth_error (data (_apply_delta s v delta)) i = Some y /\
    (clip_params_at_zero s = false -> y = x + d) /\
    (clip_params_at_zero s = true ->
       (0 < x /\ x + d <= 0) \/ (x < 0 /\ 0 <= x + d) -> y = 0) /\
    (clip_params_at_zero s = true ->
       ~ ((0 < x /\ x + d <= 0) \/ (x < 0 /\ 0 <= x + d)) -> y = x + d).
Proof.
  intros Hv Hd. exists (shifted (clip_params_at_zero s) x d).
  rewrite apply_delta_data. split; [apply nth_error_zip_with; assumption|].
  unfold shifted.
  destruct (Rltb 0 x) eqn:E1, (Rltb (x + d) 0) eqn:E2,
           (Rltb x 0) eqn:E3, (Rltb 0 (x + d)) eqn:E4;
    repeat match goal with
      | H : Rltb _ _ = true |- _ => apply Rltb_true in H
      | H : Rltb _ _ = false |- _ => apply Rltb_false in H
      end;
    try lra;
    (split; [intros ->; simpl; lra|]);
    (split; intros ->; simpl; intros; try lra; tauto).
Qed.

Lemma apply_delta_spec_witness :
  exists y,
    nth_error
      (data (_apply_delta
               (Sample.sgd (Sample.trainer [Sample.vec [0]] 3 0 10 100 1)
                  0 1 (1 / 10) true)
               (Sample.vec [1; -2]) (Sample.vec [-3; 1]))) 0
    = Some y /\ y = 0.
Proof.
  destruct (apply_delta_spec
              (Sample.sgd (Sample.trainer [Sample.vec [0]] 3 0 10 100 1)
                 0 1 (1 / 10) true)
              (Sample.vec [1; -2]) (Sample.vec [-3; 1]) 0 1 (-3)
              eq_refl eq_refl) as (y & Hy & _ & Hc & _).
  exists y. split; [exact Hy|]. apply Hc; [reflexivity|]. left. lra.
Defined.

End GradientFacts.

(** ** The Nesterov pass *)

Module NagFacts.
Import SGD.

Local Open Scope R_scope.

Lemma nag_moves_nth {batch : Type} (s : SGD.t batch) (ps velocities : list tensor) :
  forall i p v,
    nth_error ps i = Some p -> nth_error velocities i = Some v ->
    nth_error (fst (nag_moves s ps velocities)) i
      = Some (add p (scale (momentum s) v)) /\
    nth_error (snd (nag_moves s ps velocities)) i
      = Some (scale (momentum s) v).
Proof.
  revert velocities. induction ps as [|q ps IH]; intros velocities i p v Hp Hv.
  - destruct i; discriminate.
  - destruct velocities as [|w velocities]; [destruct i; discriminate|].
    simpl. destruct (nag_moves s ps velocities) as [rest moves] eqn:E.
    destruct i; simpl in *.
    + inversion Hp; inversion Hv; subst. auto.
    + specialize (IH velocities i p v Hp Hv). rewrite E in IH. exact IH.
Qed.

Lemma nag_moves_length {batch : Type} (s : SGD.t batch) (ps velocities : list tensor) :
  length (fst (nag_moves s ps velocities)) = length ps.
Proof.
  revert velocities. induction ps as [|q ps IH]; intros [|w velocities];
    simpl; try reflexivity.
  specialize (IH velocities).
  destruct (nag_moves s ps velocities). simpl in *. now rewrite IH.
Qed.

Lemma nag_updates_nth {batch : Type} (s : SGD.t batch)
    (ps velocities gs moves : list tensor) :
  forall i p v g u,
    nth_error ps i = Some p -> nth_error velocities i = Some v ->
    nth_error gs i = Some g -> nth_error moves i = Some u ->
    let d := scale (- learning_rate s) (fst (_maybe_rescale_gradient s g)) in
    let r := nag_updates s ps velocities gs moves in
    nth_error (fst (fst r)) i = Some (_apply_delta s p d) /\
    nth_error (snd (fst r)) i = Some (mk_ndarray (shape v) (data (add u d))) /\
    nth_error (snd r) i = Some (snd (_maybe_rescale_gradient s g)).
Proof.
  revert velocities gs moves.
  induction ps as [|q ps IH]; intros velocities gs moves i p v g u Hp Hv Hg Hu.
  - destruct i; discriminate.
  - destruct velocities as [|w velocities]; [destruct i; discriminate|].
    destruct gs as [|h gs]; [destruct i; discriminate|].
    destruct moves as [|m moves]; [destruct i; discriminate|].
    simpl. destruct (_maybe_rescale_gradient s h) as [grad len] eqn:Eh.
    destruct (nag_updates s ps velocities gs moves) as [[rest vrest] grads] eqn:E.
    destruct i; simpl in *.
    + inversion Hp; inversion Hv; inversion Hg; inversion Hu; subst.
      rewrite Eh. simpl. auto.
    + specialize (IH velocities gs moves i p v g u Hp Hv Hg Hu).
      rewrite E in IH. exact IH.
Qed.

Lemma nag_moves_lookahead {batch : Type} (s : SGD.t batch)
    (ps velocities : list tensor) :
  lookahead (momentum s) ps velocities (fst (nag_moves s ps velocities)).
Proof.
  split; [apply nag_moves_length|].
  revert velocities.
  induction ps as [|a ps IH]; intros velocities k q Hq.
  - destruct k; discriminate.
  - destruct velocities as [|w velocities].
    + simpl. exists q. split; [exact Hq|]. split; [reflexivity|].
      split; [reflexivity|]. destruct k; reflexivity.
    + simpl. specialize (IH velocities).
      destruct (nag_moves s ps velocities) as [rest moves]. simpl in IH.
      destruct k as [|k]; simpl in *.
      * inversion Hq; subst a. eexists. split; [reflexivity|].
        split; [reflexivity|]. simpl.
        split; [apply GradientFacts.zip_with_length|].
        intros j qj wj Hqj Hwj.
        apply GradientFacts.nth_error_zip_with; [exact Hqj|].
        apply (map_nth_error (Rmult (momentum s)) _ _ Hwj).
      * apply IH, Hq.
Qed.

(** One batch of the Nesterov pass, element by element: the parameter [p]
    with velocity [v], at their elements [pj] and [vj]. *)
Lemma nag_batch_elements {batch : Type} (s : SGD.t batch)
    (velocities : list tensor) (x : batch) (i j : nat) (p v : tensor)
    (pj vj : R) :
  nth_error (params s) i = Some p ->
  nth_error velocities i = Some v ->
  nth_error (data p) j = Some pj ->
  nth_error (data v) j = Some vj ->
  let look := fst (nag_moves s (params s) velocities) in
  let r := nag_batch s velocities x in
  let u := momentum s * vj in
  (exists l, nth_error look i = Some l /\ nth_error (data l) j = Some (pj + u)) /\
  forall g gj,
    nth_error (Trainer.f_grad (trainer s) x look) i = Some g ->
    nth_error (data g) j = Some gj ->
    let c := if Rltb (max_gradient_norm s) (norm g)
             then gj / norm g * max_gradient_norm s else gj in
    let d := - learning_rate s * c in
    exists p' v',
      nth_error (params (fst (fst r))) i = Some p' /\
      nth_error (snd (fst r)) i = Some v' /\
      nth_error (snd (snd r)) i = Some (norm g) /\
      shape p' = shape p /\ shape v' = shape v /\
      nth_error (data p') j = Some (shifted (clip_params_at_zero s) (pj + u) d) /\
      nth_error (data v') j = Some (u + d).
Proof.
  intros Hp Hv Hpj Hvj look r u.
  destruct (nag_moves_nth s (params s) velocities i p v Hp Hv) as [Hl Hm].
  fold look in Hl.
  assert (Hu : nth_error (data (scale (momentum s) v)) j = Some u)
    by apply (map_nth_error (Rmult (momentum s)) _ _ Hvj).
  assert (Hlj : nth_error (data (add p (scale (momentum s) v))) j
                = Some (pj + u))
    by (apply GradientFacts.nth_error_zip_with; assumption).
  split; [eexists; split; [exact Hl | exact Hlj]|].
  intros g gj Hg Hgj c d.
  subst r. unfold nag_batch.
  destruct (nag_moves s (params s) velocities) as [look' moves] eqn:E.
  simpl in look, Hl, Hm, Hg. subst look.
  pose proof (nag_updates_nth s look' velocities
                (Trainer.f_grad (trainer s) x look') moves
                i (add p (scale (momentum s) v)) v g (scale (momentum s) v)
                Hl Hv Hg Hm) as H.
  destruct (nag_updates s look' velocities
              (Trainer.f_grad (trainer s) x look') moves)
    as [[ps' velocities'] grads] eqn:E'.
  simpl in H. destruct H as (H1 & H2 & H3).
  cbn [fst snd]. change (params (set_params s ps')) with ps'.
  assert (Hd : nth_error
                 (data (scale (- learning_rate s)
                          (fst (_maybe_rescale_gradient s g)))) j = Some d).
  { apply (map_nth_error (Rmult (- learning_rate s))).
    apply GradientFacts.rescaled_element, Hgj. }
  eexists. eexists. split; [exact H1|]. split; [exact H2|].
  split.
  { rewrite H3. unfold _maybe_rescale_gradient.
    destruct (Rltb (max_gradient_norm s) (norm g)); reflexivity. }
  split; [rewrite GradientFacts.apply_delta_shape; reflexivity|].
  split; [reflexivity|].
  split.
  - rewrite GradientFacts.apply_delta_data.
    apply GradientFacts.nth_error_zip_with; assumption.
  - simpl. apply GradientFacts.nth_error_zip_with; assumption.
Qed.

(** C4.  In one batch of the Nesterov pass, for the element [pj] of the
    parameter at position [i] and the element [vj] of its velocity: the move
    is [u = momentum * vj], and the gradients are taken at the values [look]
    where that element is [pj + u] (and every parameter with a velocity has
    moved in this way).  With [gj] the element of the gradient [g] taken
    there, the rescaled element [c] is [gj / |g| * max_gradient_norm] when
    [|g|] exceeds the bound and [gj] otherwise; with
    [d = -learning_rate * c] the element of the parameter becomes
    [pj + u + d] (0 instead, with clip_params_at_zero, when that changes its
    sign), the element of the velocity becomes [u + d], and the length
    reported is [|g|]. *)
Theorem nag_batch_spec {batch : Type} (s : SGD.t batch)
    (velocities : list tensor) (x : batch) (i j : nat) (p v : tensor)
    (pj vj : R) :
  nth_error (params s) i = Some p ->
  nth_error velocities i = Some v ->
  nth_error (data p) j = Some pj ->
  nth_error (data v) j = Some vj ->
  let look := fst (nag_moves s (params s) velocities) in
  let r := nag_batch s velocities x in
  let u := momentum s * vj in
  lookahead (momentum s) (params s) velocities look /\
  (exists l, nth_error look i = Some l /\ nth_error (data l) j = Some (pj + u)) /\
  forall g gj,
    nth_error (Trainer.f_grad (trainer s) x look) i = Some g ->
    nth_error (data g) j = Some gj ->
    exists c p' v' y,
      (max_gradient_norm s < norm g ->
         c = gj / norm g * max_gradient_norm s) /\
      (norm g <= max_gradient_norm s -> c = gj) /\
      nth_error (params (fst (fst r))) i = Some p' /\
      nth_error (snd (fst r)) i = Some v' /\
      nth_error (snd (snd r)) i = Some (norm g) /\
      shape p' = shape p /\ shape v' = shape v /\
      nth_error (data v') j = Some (u - learning_rate s * c) /\
      nth_error (data p') j = Some y /\
      (clip_params_at_zero s = false -> y = pj + u - learning_rate s * c) /\
      (clip_params_at_zero s = true ->
         (0 < pj + u /\ pj + u - learning_rate s * c <= 0) \/
         (pj + u < 0 /\ 0 <= pj + u - learning_rate s * c) -> y = 0) /\
      (clip_params_at_zero s = true ->
         ~ ((0 < pj + u /\ pj + u - learning_rate s * c <= 0) \/
            (pj + u < 0 /\ 0 <= pj + u - learning_rate s * c)) ->
         y = pj + u - learning_rate s * c).
Proof.
  intros Hp Hv Hpj Hvj look r u.
  split; [apply nag_moves_lookahead|].
  destruct (nag_batch_elements s velocities x i j p v pj vj Hp Hv Hpj Hvj)
    as [Hl H].
  split; [exact Hl|].
  intros g gj Hg Hgj.
  destruct (H g gj Hg Hgj) as (p' & v' & H1 & H2 & H3 & H4 & H5 & H6 & H7).
  set (c := if Rltb (max_gradient_norm s) (norm g)
            then gj / norm g * max_gradient_norm s else gj) in *.
  exists c, p', v',
    (shifted (clip_params_at_zero s) (pj + u) (- learning_rate s * c)).
  assert (Hd : pj + u - learning_rate s * c
               = pj + u + - learning_rate s * c) by ring.
  rewrite !Hd.
  destruct (GradientFacts.shifted_cases (clip_params_at_zero s) (pj + u)
              (- learning_rate s * c)) as (S1 & S2 & S3).
  split.
  { intros Hlt. subst c.
    destruct (Rltb _ _) eqn:E; [reflexivity|].
    apply GradientFacts.Rltb_false in E. lra. }
  split.
  { intros Hle. subst c.
    destruct (Rltb _ _) eqn:E; [|reflexivity].
    apply GradientFacts.Rltb_true in E. lra. }
  split; [exact H1|]. split; [exact H2|]. split; [exact H3|].
  split; [exact H4|]. split; [exact H5|].
  split.
  { rewrite H7. f_equal. fold u. ring. }
  split; [exact H6|]. auto.
Qed.

Lemma nag_batch_spec_witness :
  let s := Sample.sgd (Sample.trainer [Sample.vec [1]] 3 0 10 100 1)
             (1 / 2) (1 / 2) (1 / 10) false in
  let r := nag_batch s [Sample.vec [2]] 1 in
  exists p' v',
    nth_error (params (fst (fst r))) 0 = Some p' /\
    nth_error (data p') 0 = Some (39 / 20) /\
    nth_error (snd (fst r)) 0 = Some v' /\
    nth_error (data v') 0 = Some (19 / 20) /\
    nth_error (snd (snd r)) 0 = Some 1.
Proof.
  intros s r.
  destruct (nag_batch_spec s [Sample.vec [2]] 1 0 0 (Sample.vec [1])
              (Sample.vec [2]) 1 2 eq_refl eq_refl eq_refl eq_refl)
    as (_ & _ & H).
  destruct (H (mk_ndarray [1%nat] [1]) 1 eq_refl eq_refl)
    as (c & p' & v' & y & C1 & _ & H1 & H2 & H3 & _ & _ & H4 & H5 & H6 & _).
  assert (Hn : norm (mk_ndarray [1%nat] [1]) = 1).
  { unfold norm. simpl. replace (1 * 1 + 0) with 1 by lra. apply sqrt_1. }
  rewrite Hn in C1, H3.
  assert (Hc : c = 1 / 2) by (rewrite C1; simpl; lra).
  exists p', v'. split; [exact H1|]. split.
  { rewrite H5. f_equal. rewrite (H6 eq_refl), Hc. simpl. lra. }
  split; [exact H2|]. split; [|exact H3].
  rewrite H4. f_equal. rewrite Hc. simpl. lra.
Defined.

(** *** Momentum 0 *)

Lemma zip_with_plus_zero (v w : list R) :
  zip_with Rplus v (map (Rmult 0) w) = v.
Proof.
  revert w. induction v as [|x v IH]; intros [|y w]; simpl; try reflexivity.
  rewrite IH. f_equal. lra.
Qed.

Lemma add_zero_move (p v : tensor) : add p (scale 0 v) = p.
Proof.
  destruct p as [sh d]. unfold add, scale. simpl.
  now rewrite zip_with_plus_zero.
Qed.



Lemma sgd_updates_length {batch : Type} (s : SGD.t batch) (ps gs : list tensor) :
  length (fst (sgd_updates s ps gs)) = length ps.
Proof.
  revert gs. induction ps as [|p ps IH]; intros [|g gs]; simpl; try reflexivity.
  destruct (_maybe_rescale_gradient s g).
  specialize (IH gs). destruct (sgd_updates s ps gs). simpl in *. now rewrite IH.
Qed.








End NagFacts.

(** ** Convergence tracking *)

Module TrackerFacts.
Import Trainer.

Local Open Scope R_scope.

Section Tracker.
Context {batch : Type}.
Implicit Types (s : Trainer.t batch) (valid_set : list batch).

(** C7.  When the validation costs can be computed, [evaluate] first
    decides whether [best_cost - cost > best_cost * min_improvement]; if so
    the best cost becomes [cost], the best iteration becomes [iteration] and
    the best parameters become the current ones, and if not the three are
    left as they were.  It logs its line, and then raises
    PatienceElapsedError exactly when [iteration - best_iter > patience] for
    the [best_iter] it has just recorded, also when there was no
    improvement; only otherwise does it raise NoImprovementError (no
    improvement) or return (improvement). *)
Theorem evaluate_patience s (iteration : Z) valid_set (cost : R) (rest : list R) :
  valid_costs s valid_set = cost :: rest ->
  let s' := fst (fst (evaluate s iteration valid_set)) in
  let log := snd (fst (evaluate s iteration valid_set)) in
  let r := snd (evaluate s iteration valid_set) in
  let improved := best_cost s - cost > best_cost s * min_improvement s in
  (improved ->
     best_cost s' = cost /\ best_iter s' = iteration /\
     best_params s' = params s) /\
  (~ improved ->
     best_cost s' = best_cost s /\ best_iter s' = best_iter s /\
     best_params s' = best_params s) /\
  params s' = params s /\ patience s' = patience s /\
  min_improvement s' = min_improvement s /\
  (exists marker,
      log = [LogValid (iteration + 1) (cost :: rest) marker] /\
      (marker = true <-> improved)) /\
  (r = Raise PatienceElapsedError <-> (iteration - best_iter s' > patience s)%Z) /\
  (r = Raise NoImprovementError <->
     (iteration - best_iter s' <= patience s)%Z /\ ~ improved) /\
  (r = Ok tt <-> (iteration - best_iter s' <= patience s)%Z /\ improved) /\
  (~ improved -> (iteration - best_iter s > patience s)%Z ->
     r = Raise PatienceElapsedError).
Proof.
  intros Hc s' log r improved. subst s' log r. unfold evaluate. rewrite Hc.
  assert (Hi : improvement s cost = true <-> improved).
  { unfold improvement, improved. rewrite GradientFacts.Rltb_true.
    split; intros; lra. }
  assert (Hm : exists marker,
             [LogValid (iteration + 1) (cost :: rest) (improvement s cost)]
             = [LogValid (iteration + 1) (cost :: rest) marker] /\
             (marker = true <-> improved))
    by (exists (improvement s cost); split; [reflexivity | exact Hi]).
  destruct (improvement s cost) eqn:Ei.
  - assert (Himp : improved) by (apply Hi; reflexivity).
    cbn [negb]. unfold record_best.
    destruct (Z.ltb _ _) eqn:E; simpl in *;
      [apply Z.ltb_lt in E | apply Z.ltb_ge in E];
      (split; [auto|]); (split; [intros X; contradiction|]);
      (split; [reflexivity|]); (split; [reflexivity|]);
      (split; [reflexivity|]); (split; [exact Hm|]);
      repeat split; intros; try discriminate; try reflexivity; try lia;
      tauto.
  - assert (Himp : ~ improved)
      by (intros X; apply Hi in X; discriminate).
    cbn [negb].
    destruct (Z.ltb _ _) eqn:E; simpl in *;
      [apply Z.ltb_lt in E | apply Z.ltb_ge in E];
      (split; [intros X; contradiction|]); (split; [auto|]);
      (split; [reflexivity|]); (split; [reflexivity|]);
      (split; [reflexivity|]); (split; [exact Hm|]);
      repeat split; intros; try discriminate; try reflexivity; try lia;
      tauto.
Qed.

Lemma valid_costs_set_params s s' (ps : list tensor) valid_set :
  f_eval s' = f_eval s ->
  valid_costs (set_params s' ps) valid_set = valid_costs (set_params s ps) valid_set.
Proof. intros H. unfold valid_costs. simpl. now rewrite H. Qed.

Lemma evaluate_tracked s (i : Z) valid_set :
  tracked valid_set (i, s, fst (fst (evaluate s i valid_set))).
Proof.
  unfold tracked, evaluate.
  destruct (valid_costs s valid_set) as [|cost rest] eqn:Hc; simpl; [auto|].
  destruct (improvement s cost) eqn:Ei.
  - left. exists cost, rest. unfold improvement in Ei.
    apply GradientFacts.Rltb_true in Ei.
    destruct (Z.ltb _ _); simpl; repeat split; lra.
  - right. destruct (Z.ltb _ _); simpl; auto.
Qed.

Lemma evaluate_fields s (i : Z) valid_set :
  let s' := fst (fst (evaluate s i valid_set)) in
  min_improvement s' = min_improvement s /\ f_eval s' = f_eval s /\
  params s' = params s.
Proof.
  unfold evaluate.
  destruct (valid_costs s valid_set) as [|cost rest]; simpl; [auto|].
  destruct (improvement s cost); destruct (Z.ltb _ _); simpl; auto.
Qed.

Lemma evaluate_step_le s (i : Z) valid_set :
  0 <= min_improvement s ->
  min_improvement s = 0 \/
    (0 <= best_cost s /\
     match valid_costs s valid_set with [] => True | cost :: _ => 0 <= cost end) ->
  let s' := fst (fst (evaluate s i valid_set)) in
  best_cost s' <= best_cost s /\ (0 <= best_cost s -> 0 <= best_cost s' \/ min_improvement s = 0).
Proof.
  intros Hm Hcase s'. subst s'.
  destruct (evaluate_tracked s i valid_set) as [(cost & rest & Hc & Hi & Hb & _)|[Hb _]].
  - rewrite Hb. rewrite Hc in Hcase. destruct Hcase as [H0|[Hb0 Hc0]].
    + rewrite H0 in Hi. split; [lra|]. auto.
    + split; [nra|]. auto.
  - rewrite Hb. split; [lra|]. auto.
Qed.

Lemma evaluate_all_sorted (calls : list (Z * list tensor)) valid_set :
  forall s,
    0 <= min_improvement s ->
    min_improvement s = 0 \/ (0 <= best_cost s /\ costs_nonneg s calls valid_set) ->
    Sorted Rge (best_costs s calls valid_set) /\
    Forall (tracked valid_set) (evaluate_all s calls valid_set).
Proof.
  induction calls as [|[i ps] calls IH]; intros s Hm Hcase; simpl.
  - split; repeat constructor.
  - set (before := set_params s ps).
    set (after := fst (fst (evaluate before i valid_set))).
    pose proof (evaluate_fields before i valid_set) as (Hmi & Hfe & _).
    fold after in Hmi, Hfe.
    assert (Hstep : best_cost after <= best_cost s /\
                    (min_improvement s = 0 \/ 0 <= best_cost after)).
    { destruct Hcase as [H0|[Hb Hall]].
      - destruct (evaluate_step_le before i valid_set Hm (or_introl H0)) as [Hle _].
        fold after in Hle. simpl in Hle. auto.
      - inversion Hall as [|? ? Hhd Htl]; subst. simpl in Hhd.
        destruct (evaluate_step_le before i valid_set Hm
                    (or_intror (conj Hb Hhd))) as [Hle Hnn].
        fold after in Hle, Hnn. simpl in Hle, Hnn.
        split; [exact Hle|]. destruct (Hnn Hb); auto. }
    destruct Hstep as [Hle Hnext].
    destruct (IH after) as [IHs IHt].
    { rewrite Hmi. exact Hm. }
    { rewrite Hmi. simpl. destruct Hcase as [H0|[Hb Hall]]; [left; exact H0|].
      destruct Hnext as [H0|Hnn]; [left; exact H0|]. right. split; [exact Hnn|].
      inversion Hall as [|? ? _ Htl]; subst. unfold costs_nonneg in *.
      eapply Forall_impl; [|exact Htl]. intros call Hcall.
      rewrite (valid_costs_set_params s after); [exact Hcall|].
      rewrite Hfe. reflexivity. }
    split.
    + unfold best_costs in *. simpl. fold before. fold after.
      constructor; [exact IHs|]. constructor. simpl. lra.
    + constructor; [apply evaluate_tracked | exact IHt].
Qed.

(** C8, amended: over any sequence of [evaluate] calls with
    [min_improvement >= 0], the best cost never increases provided
    [min_improvement] is 0 or the best cost and the validation costs are not
    negative; and in every call the best cost and the best iteration either
    both stay or become the call's primary cost and iteration, the latter
    only when [best_cost - cost > best_cost * min_improvement]. *)
Theorem best_cost_non_increasing s (calls : list (Z * list tensor)) valid_set :
  0 <= min_improvement s ->
  min_improvement s = 0 \/ (0 <= best_cost s /\ costs_nonneg s calls valid_set) ->
  Sorted Rge (best_costs s calls valid_set) /\
  Forall (tracked valid_set) (evaluate_all s calls valid_set).
Proof. intros. now apply evaluate_all_sorted. Qed.

Lemma evaluate_improved s (i : Z) valid_set (cost : R) (rest : list R) :
  valid_costs s valid_set = cost :: rest ->
  best_cost s * min_improvement s < best_cost s - cost ->
  let s' := fst (fst (evaluate s i valid_set)) in
  best_cost s' = cost /\ best_iter s' = i /\ best_params s' = params s /\
  min_improvement s' = min_improvement s.
Proof.
  intros Hc Hi. unfold evaluate. rewrite Hc.
  assert (E : improvement s cost = true)
    by (apply GradientFacts.Rltb_true; exact Hi).
  rewrite E. destruct (Z.ltb _ _); simpl; auto.
Qed.

End Tracker.

Lemma sentinel_pos : 0 < sentinel.
Proof. unfold sentinel. apply pow_lt. lra. Qed.

Lemma sample_valid_costs (tr : Trainer.t R) (x : R) :
  f_eval tr = Sample.eval ->
  valid_costs tr [x] = [mean [Sample.value (params tr)]].
Proof. intros H. unfold valid_costs. rewrite H. reflexivity. Qed.

Lemma mean_one (c : R) : mean [c] = c.
Proof. unfold mean. simpl. field. Qed.

Lemma evaluate_patience_witness :
  let s := Sample.trainer [Sample.vec [5]] 3 0 10 1 1 in
  snd (evaluate s 2 [0]) = Raise PatienceElapsedError /\
  best_iter (fst (fst (evaluate s 2 [0]))) = 0%Z /\
  best_cost (fst (fst (evaluate s 2 [0]))) = 1.
Proof.
  intros s.
  destruct (evaluate_patience s 2%Z [0%R] (mean [5%R]) [] eq_refl)
    as (_ & Hno & _ & _ & _ & _ & _ & _ & _ & Hfirst).
  assert (Hn : ~ best_cost s - mean [5] > best_cost s * min_improvement s).
  { unfold mean. simpl. lra. }
  destruct (Hno Hn) as (Hb & Hi & _).
  split; [apply Hfirst; [exact Hn | simpl; lia]|].
  split; [exact Hi | exact Hb].
Defined.

Lemma best_cost_non_increasing_witness :
  Sorted Rge
    (best_costs (Sample.trainer [Sample.vec [5]] 3 0 10 100 1)
       [(0%Z, [Sample.vec [2]])] [0]).
Proof.
  apply (best_cost_non_increasing
           (Sample.trainer [Sample.vec [5]] 3 0 10 100 1)
           [(0%Z, [Sample.vec [2]])] [0]).
  - simpl. lra.
  - left. reflexivity.
Defined.

(** C8 as stated fails for negative costs: with [min_improvement = 1/2] the
    validation cost -10 is recorded as best, and then the higher cost -8
    replaces it, since -10 - (-8) > -10 * 1/2. *)
Lemma best_cost_increases :
  ~ best_cost_claim
      (Sample.trainer [Sample.vec [0]] 3 (1 / 2) 10 100 sentinel)
      [(0%Z, [Sample.vec [-10]]); (3%Z, [Sample.vec [-8]])] [0].
Proof.
  unfold best_cost_claim. intros H.
  assert (Hm : 0 <= 1 / 2) by lra. specialize (H Hm). clear Hm.
  pose proof sentinel_pos as Hs.
  unfold best_costs in H. simpl evaluate_all in H.
  set (s0 := Sample.trainer [Sample.vec [0]] 3 (1 / 2) 10 100 sentinel) in H.
  set (b1 := set_params s0 [Sample.vec [-10]]) in H.
  destruct (evaluate_improved b1 0%Z [0%R] (mean [(-10)%R]) [] eq_refl)
    as (Hc1 & _ & _ & Hm1).
  { rewrite mean_one. simpl. lra. }
  set (a1 := fst (fst (evaluate b1 0 [0]))) in *.
  set (b2 := set_params a1 [Sample.vec [-8]]) in H.
  assert (Hv : valid_costs b2 [0] = [mean [-8]]).
  { apply sample_valid_costs. subst b2. simpl.
    apply (evaluate_fields b1 0%Z [0%R]). }
  destruct (evaluate_improved b2 3%Z [0%R] (mean [(-8)%R]) [] Hv) as (Hc2 & _).
  { subst b2. simpl. rewrite Hc1, Hm1, !mean_one. simpl. lra. }
  set (a2 := fst (fst (evaluate b2 3 [0]))) in *.
  simpl in H. rewrite Hc1, Hc2, !mean_one in H.
  inversion H as [|? ? H1 _]; subst.
  inversion H1 as [|? ? _ H2]; subst.
  inversion H2 as [|? ? H3]; subst. lra.
Qed.

End TrackerFacts.

(** ** The training loops *)

Module LoopFacts.

Lemma set_values_length (ps targets : list tensor) :
  length (Trainer.set_values ps targets) = length ps.
Proof.
  revert targets. induction ps as [|p ps IH]; intros [|a targets]; simpl; auto.
Qed.

Lemma set_values_all (ps targets : list tensor) :
  length targets = length ps -> Trainer.set_values ps targets = targets.
Proof.
  revert targets. induction ps as [|p ps IH]; intros [|a targets] H;
    simpl in *; try discriminate; auto.
  f_equal. apply IH. lia.
Qed.

Lemma prefix_length {A : Type} (k : nat) (ps qs : list A) :
  length qs = length (firstn k ps) -> length (qs ++ skipn k ps) = length ps.
Proof.
  intros H. rewrite length_app, H, <- length_app, firstn_skipn. reflexivity.
Qed.

Lemma set_values_upto_length (k : nat) (ps targets : list tensor) :
  length (Trainer.set_values_upto k ps targets) = length ps.
Proof. apply prefix_length, set_values_length. Qed.

Section Evaluate.
Context {batch : Type}.
Implicit Types (tr : Trainer.t batch).

Lemma restore_best tr :
  consistent tr ->
  Trainer.params (Trainer.update_params tr (Trainer.best_params tr))
  = Trainer.best_params (Trainer.update_params tr (Trainer.best_params tr)).
Proof. intros H. simpl. apply set_values_all, H. Qed.

Lemma evaluate_consistent tr (i : Z) (valid_set : list batch) :
  consistent tr -> consistent (fst (fst (Trainer.evaluate tr i valid_set))).
Proof.
  intros H. unfold Trainer.evaluate.
  destruct (Trainer.valid_costs tr valid_set) as [|cost rest]; [exact H|].
  destruct (Trainer.improvement tr cost); simpl;
    destruct (Z.ltb _ _); simpl; try exact H; reflexivity.
Qed.

Lemma evaluate_interrupted_consistent (k : nat) tr tr' (i : Z)
    (valid_set : list batch) :
  Trainer.evaluate_interrupted k tr i valid_set = Ok tr' ->
  consistent tr -> consistent tr'.
Proof.
  unfold Trainer.evaluate_interrupted. intros H Hc.
  destruct k as [|[|[|k]]]; [congruence| | |];
    (destruct (Trainer.valid_costs tr valid_set) as [|cost rest];
     [discriminate|]);
    (destruct (Trainer.improvement tr cost);
     inversion H; subst; try exact Hc; try reflexivity).
Qed.

(** Where the snapshot of a call comes from. *)
Lemma evaluate_best tr (i : Z) (valid_set : list batch) :
  let tr' := fst (fst (Trainer.evaluate tr i valid_set)) in
  Trainer.best_params tr' = Trainer.best_params tr \/
  (Trainer.best_params tr' = Trainer.params tr /\
   finds valid_set None tr = true).
Proof.
  unfold Trainer.evaluate, finds.
  destruct (Trainer.valid_costs tr valid_set) as [|cost rest]; [left; auto|].
  destruct (Trainer.improvement tr cost);
    destruct (Z.ltb _ _); simpl; auto.
Qed.

Lemma evaluate_interrupted_best (k : nat) tr tr' (i : Z)
    (valid_set : list batch) :
  Trainer.evaluate_interrupted k tr i valid_set = Ok tr' ->
  Trainer.best_params tr' = Trainer.best_params tr \/
  (Trainer.best_params tr' = Trainer.params tr /\
   finds valid_set (Some k) tr = true).
Proof.
  unfold Trainer.evaluate_interrupted, finds. intros H.
  destruct k as [|[|[|k]]]; [inversion H; auto| | |];
    (destruct (Trainer.valid_costs tr valid_set) as [|cost rest];
     [discriminate|]);
    (destruct (Trainer.improvement tr cost); inversion H; simpl; auto).
Qed.

Lemma finds_none tr (valid_set : list batch) (k : option nat) :
  finds valid_set None tr = false -> finds valid_set k tr = false.
Proof.
  unfold finds. destruct k as [[|k]|]; auto.
Qed.

End Evaluate.

(** *** SGD *)

Section SGDLoop.
Context {batch : Type}.
Implicit Types (s : SGD.t batch).

Lemma moved_refl s : moved s s.
Proof. exists (SGD.params s). destruct s as [[]]; split; reflexivity. Qed.

Lemma moved_trans s1 s2 s3 : moved s1 s2 -> moved s2 s3 -> moved s1 s3.
Proof.
  intros (p & -> & Hp) (q & -> & Hq). exists q. split; [reflexivity|].
  rewrite Hq. exact Hp.
Qed.

Lemma moved_consistent s s' :
  moved s s' -> consistent (SGD.trainer s) -> consistent (SGD.trainer s').
Proof.
  intros (ps & -> & Hp) Hc. unfold consistent in *. simpl. rewrite Hp. exact Hc.
Qed.

Lemma nag_updates_length s (ps velocities gs moves : list tensor) :
  length (fst (fst (SGD.nag_updates s ps velocities gs moves))) = length ps.
Proof.
  revert velocities gs moves.
  induction ps as [|p ps IH]; intros [|v velocities] [|g gs] [|u moves];
    simpl; try reflexivity.
  destruct (SGD._maybe_rescale_gradient s g).
  specialize (IH velocities gs moves).
  destruct (SGD.nag_updates s ps velocities gs moves) as [[? ?] ?].
  simpl in *. now rewrite IH.
Qed.

Lemma sgd_batch_moved s (x : batch) : moved s (fst (SGD.sgd_batch s x)).
Proof.
  unfold SGD.sgd_batch.
  pose proof (NagFacts.sgd_updates_length s (SGD.params s)
                (Trainer.f_grad (SGD.trainer s) x (SGD.params s))) as H.
  destruct (SGD.sgd_updates s (SGD.params s) _) as [ps' grads].
  exists ps'. split; [reflexivity | exact H].
Qed.

Lemma sgd_moved (train_set : list batch) :
  forall s, moved s (fst (SGD._sgd s train_set)).
Proof.
  induction train_set as [|x rest IH]; intros s; simpl; [apply moved_refl|].
  pose proof (sgd_batch_moved s x) as H1.
  destruct (SGD.sgd_batch s x) as [s1 y].
  specialize (IH s1). destruct (SGD._sgd s1 rest) as [s2 ys].
  simpl in *. eapply moved_trans; eassumption.
Qed.

Lemma nag_batch_moved s (velocities : list tensor) (x : batch) :
  moved s (fst (fst (SGD.nag_batch s velocities x))).
Proof.
  unfold SGD.nag_batch.
  pose proof (NagFacts.nag_moves_length s (SGD.params s) velocities) as H1.
  destruct (SGD.nag_moves s (SGD.params s) velocities) as [look moves].
  pose proof (nag_updates_length s look velocities
                (Trainer.f_grad (SGD.trainer s) x look) moves) as H2.
  destruct (SGD.nag_updates s look velocities _ moves) as [[ps' v'] grads].
  exists ps'. simpl in *. split; [reflexivity | congruence].
Qed.

Lemma nag_moved (train_set : list batch) :
  forall s velocities, moved s (fst (fst (SGD._nag s velocities train_set))).
Proof.
  induction train_set as [|x rest IH]; intros s velocities; simpl;
    [apply moved_refl|].
  pose proof (nag_batch_moved s velocities x) as H1.
  destruct (SGD.nag_batch s velocities x) as [[s1 v1] y].
  specialize (IH s1 v1). destruct (SGD._nag s1 v1 rest) as [[s2 v2] ys].
  simpl in *. eapply moved_trans; eassumption.
Qed.

Lemma learn_moved s (velocities : list tensor) (train_set : list batch) :
  moved s (fst (fst (SGD.learn s velocities train_set))).
Proof.
  unfold SGD.learn. destruct (Rltb 0 (SGD.momentum s)).
  - apply nag_moved.
  - pose proof (sgd_moved train_set s) as H.
    destruct (SGD._sgd s train_set). exact H.
Qed.

Lemma sgd_batch_interrupted_moved s (x : batch) (pt : learn_point) :
  moved s (SGD.sgd_batch_interrupted s x pt).
Proof.
  destruct pt as [k|k]; simpl; [apply moved_refl|].
  eexists. split; [reflexivity|].
  apply prefix_length, NagFacts.sgd_updates_length.
Qed.

Lemma nag_batch_interrupted_moved s (velocities : list tensor) (x : batch)
    (pt : learn_point) :
  moved s (fst (SGD.nag_batch_interrupted s velocities x pt)).
Proof.
  destruct pt as [k|k]; simpl.
  - eexists. split; [reflexivity|].
    apply prefix_length, NagFacts.nag_moves_length.
  - pose proof (NagFacts.nag_moves_length s (SGD.params s) velocities) as H1.
    destruct (SGD.nag_moves s (SGD.params s) velocities) as [look moves].
    pose proof (nag_updates_length s (firstn k look) (firstn k velocities)
                  (Trainer.f_grad (SGD.trainer s) x look) moves) as H2.
    destruct (SGD.nag_updates s (firstn k look) _ _ moves) as [[ps' v'] grads].
    simpl in *. eexists. split; [reflexivity|].
    rewrite <- H1. apply prefix_length, H2.
Qed.

Lemma moved_momentum s s' : moved s s' -> SGD.momentum s' = SGD.momentum s.
Proof. intros (ps & -> & _). reflexivity. Qed.

Lemma learn_interrupted_moved s (velocities : list tensor)
    (train_set : list batch) (b : nat) (pt : learn_point) :
  moved s (fst (SGD.learn_interrupted s velocities train_set b pt)).
Proof.
  unfold SGD.learn_interrupted.
  pose proof (learn_moved s velocities (firstn b train_set)) as H.
  destruct (SGD.learn s velocities (firstn b train_set)) as [[s1 v1] ys].
  simpl in H. destruct (nth_error train_set b) as [x|]; [|exact H].
  destruct (Rltb 0 (SGD.momentum s)).
  - eapply moved_trans; [exact H | apply nag_batch_interrupted_moved].
  - eapply moved_trans; [exact H | apply sgd_batch_interrupted_moved].
Qed.

(** The rule for the loop of [SGD.train]: an invariant of the iterations
    that establishes [Q] wherever the loop is left. *)
Lemma sgd_loop_rule (train_set valid_set : list batch) (ev : SGD.events)
    (I : Z -> SGD.t batch -> list log_entry -> Prop)
    (Q : SGD.t batch -> list log_entry -> terminal -> Prop) :
  (forall i s velocities log,
      I i s log ->
      match SGD.iteration train_set valid_set ev s velocities i with
      | (s', _, log', None) => I (i + 1)%Z s' (log ++ log')
      | (s', _, log', Some term) => Q s' (log ++ log') term
      end) ->
  (forall i s log, I i s log -> Q s log Exhausted) ->
  forall n i s velocities log,
    I i s log ->
    match SGD.train_loop train_set valid_set ev n i s velocities log with
    | (s', _, log', term) => Q s' log' term
    end.
Proof.
  intros Hstep Hend. induction n as [|n IH]; intros i s velocities log HI; simpl.
  - eapply Hend, HI.
  - specialize (Hstep i s velocities log HI).
    destruct (SGD.iteration train_set valid_set ev s velocities i)
      as [[[s' v'] log'] [term|]].
    + exact Hstep.
    + apply IH, Hstep.
Qed.

(** The same rule, keeping the invariant when the iterations are used up. *)
Lemma sgd_loop_rule_at (train_set valid_set : list batch) (ev : SGD.events)
    (I : Z -> SGD.t batch -> list log_entry -> Prop)
    (Q : SGD.t batch -> list log_entry -> terminal -> Prop) :
  (forall i s velocities log,
      I i s log ->
      match SGD.iteration train_set valid_set ev s velocities i with
      | (s', _, log', None) => I (i + 1)%Z s' (log ++ log')
      | (s', _, log', Some term) => Q s' (log ++ log') term
      end) ->
  forall n i s velocities log,
    I i s log ->
    match SGD.train_loop train_set valid_set ev n i s velocities log with
    | (s', _, log', term) =>
        Q s' log' term \/ (term = Exhausted /\ I (i + Z.of_nat n)%Z s' log')
    end.
Proof.
  intros Hstep. induction n as [|n IH]; intros i s velocities log HI.
  - simpl. right. rewrite Z.add_0_r. auto.
  - cbn [SGD.train_loop].
    specialize (Hstep i s velocities log HI).
    destruct (SGD.iteration train_set valid_set ev s velocities i)
      as [[[s' v'] log'] [term|]].
    + left. exact Hstep.
    + specialize (IH (i + 1)%Z s' v' (log ++ log') Hstep).
      replace (i + Z.of_nat (S n))%Z with (i + 1 + Z.of_nat n)%Z by lia.
      exact IH.
Qed.

(** What the [except] clauses do to the trainer, the log and the way the
    loop is left, whatever interrupt arrives in them. *)
Lemma handler_state (ev : SGD.events) s (i : Z) (log : list log_entry)
    (line : log_entry) (term : terminal) :
  fst (fst (SGD.handler ev s i log line term)) = s.
Proof.
  unfold SGD.handler.
  destruct (SGD.loose_interrupt ev i) as [[| [] | | |]|]; reflexivity.
Qed.

Lemma handler_cases (ev : SGD.events) s (i : Z) (log : list log_entry)
    (line : log_entry) (term : terminal) :
  SGD.handler ev s i log line term = (s, log ++ [line], Some term) \/
  SGD.handler ev s i log line term
  = (s, log ++ [line], Some (Crashed KeyboardInterrupt)) \/
  SGD.handler ev s i log line term = (s, log, Some (Crashed KeyboardInterrupt)).
Proof.
  unfold SGD.handler.
  destruct (SGD.loose_interrupt ev i) as [[| [] | | |]|]; auto.
Qed.

Lemma anneal_cases (ev : SGD.events) s (i : Z) (log : list log_entry) :
  let s' := SGD.set_learning_rate s
              (SGD.learning_rate s * (1 - SGD.learning_rate_decay s)) in
  SGD.anneal ev s i log = (s', log, None) \/
  SGD.anneal ev s i log = (s', log, Some (Crashed KeyboardInterrupt)) \/
  SGD.anneal ev s i log = (s, log, Some (Crashed KeyboardInterrupt)).
Proof.
  unfold SGD.anneal.
  destruct (SGD.loose_interrupt ev i) as [[| [] | | |]|]; auto.
Qed.

Lemma anneal_trainer (ev : SGD.events) s (i : Z) (log : list log_entry) :
  SGD.trainer (fst (fst (SGD.anneal ev s i log))) = SGD.trainer s.
Proof.
  unfold SGD.anneal.
  destruct (SGD.loose_interrupt ev i) as [[| [] | | |]|]; reflexivity.
Qed.

Lemma validate_consistent (valid_set : list batch) (ev : SGD.events) s (i : Z) :
  consistent (SGD.trainer s) ->
  consistent (SGD.trainer (fst (fst (SGD.validate valid_set ev s i)))).
Proof.
  intros Hc. unfold SGD.validate.
  destruct (SGD.eval_interrupt ev i) as [k|].
  - destruct (Trainer.evaluate_interrupted k (SGD.trainer s) i valid_set)
      as [tr|e] eqn:E; [|exact Hc].
    rewrite handler_state. simpl.
    eapply evaluate_interrupted_consistent; eassumption.
  - pose proof (evaluate_consistent (SGD.trainer s) i valid_set Hc) as H.
    destruct (Trainer.evaluate (SGD.trainer s) i valid_set) as [[tr log] r].
    simpl in H.
    destruct r as [u|[]]; rewrite ?handler_state, ?anneal_trainer; simpl;
      exact H.
Qed.

Lemma update_moved (train_set : list batch) (ev : SGD.events) s
    (velocities : list tensor) (i : Z) :
  moved s (fst (fst (fst (SGD.update train_set ev s velocities i)))).
Proof.
  unfold SGD.update. destruct (SGD.learn_interrupt ev i) as [[b pt]|].
  - pose proof (learn_interrupted_moved s velocities train_set b pt) as H.
    destruct (SGD.learn_interrupted s velocities train_set b pt).
    destruct (SGD.loose_interrupt ev i) as [[| | | [] |]|]; exact H.
  - pose proof (learn_moved s velocities train_set) as H.
    destruct (SGD.learn s velocities train_set) as [[s' v'] ys].
    destruct (SGD.loose_interrupt ev i) as [[| | | | []]|]; destruct ys;
      exact H.
Qed.

Lemma pass_moved (train_set : list batch) (ev : SGD.events) s
    (velocities : list tensor) (i : Z) :
  moved s (fst (fst (fst (SGD.pass train_set ev s velocities i)))).
Proof.
  unfold SGD.pass.
  destruct (SGD.loose_interrupt ev i) as [[| | | |]|];
    try apply update_moved. apply moved_refl.
Qed.

(** An iteration is a turn of the loop body, unless a KeyboardInterrupt
    arrives at the head of the loop. *)
Lemma iteration_cases (train_set valid_set : list batch) (ev : SGD.events)
    s (velocities : list tensor) (i : Z) :
  (SGD.loose_interrupt ev i = Some AtCheck /\
   SGD.iteration train_set valid_set ev s velocities i
   = (s, velocities, [], Some (Crashed KeyboardInterrupt))) \/
  (SGD.loose_interrupt ev i <> Some AtCheck /\
   SGD.iteration train_set valid_set ev s velocities i
   = SGD.turn train_set valid_set ev s velocities i).
Proof.
  unfold SGD.iteration.
  destruct (SGD.loose_interrupt ev i) as [[| | | |]|];
    [left; auto | right; split; [discriminate | reflexivity] ..].
Qed.

Lemma turn_consistent (train_set valid_set : list batch) (ev : SGD.events)
    s (velocities : list tensor) (i : Z) :
  consistent (SGD.trainer s) ->
  consistent
    (SGD.trainer
       (fst (fst (fst (SGD.turn train_set valid_set ev s velocities i))))).
Proof.
  intros Hc. unfold SGD.turn.
  destruct (Z.eqb (Trainer.validation_frequency (SGD.trainer s)) 0); [exact Hc|].
  assert (H1 : consistent
                 (SGD.trainer
                    (fst (fst (if Z.eqb (i mod Trainer.validation_frequency
                                                 (SGD.trainer s)) 0
                               then SGD.validate valid_set ev s i
                               else (s, [], None)))))).
  { destruct (Z.eqb _ 0); [apply validate_consistent, Hc | exact Hc]. }
  destruct (if Z.eqb _ 0 then _ else _) as [[s1 log1] [term|]]; simpl in H1.
  - exact H1.
  - pose proof (pass_moved train_set ev s1 velocities i) as H2.
    destruct (SGD.pass train_set ev s1 velocities i) as [[[s2 v2] log2] stop2].
    simpl in *. eapply moved_consistent; eassumption.
Qed.

Lemma iteration_consistent (train_set valid_set : list batch) (ev : SGD.events)
    s (velocities : list tensor) (i : Z) :
  consistent (SGD.trainer s) ->
  consistent
    (SGD.trainer
       (fst (fst (fst (SGD.iteration train_set valid_set ev s velocities i))))).
Proof.
  intros Hc.
  destruct (iteration_cases train_set valid_set ev s velocities i)
    as [[_ ->]|[_ ->]]; [exact Hc | apply turn_consistent, Hc].
Qed.

(** Where the snapshot comes from, and that no check touches the
    parameters. *)
Lemma moved_best_params s s' :
  moved s s' ->
  Trainer.best_params (SGD.trainer s') = Trainer.best_params (SGD.trainer s).
Proof. intros (ps & -> & _). reflexivity. Qed.

Lemma evaluate_params (tr : Trainer.t batch) (i : Z) (valid_set : list batch) :
  Trainer.params (fst (fst (Trainer.evaluate tr i valid_set)))
  = Trainer.params tr.
Proof.
  unfold Trainer.evaluate.
  destruct (Trainer.valid_costs tr valid_set) as [|cost rest]; [reflexivity|].
  destruct (Trainer.improvement tr cost); destruct (Z.ltb _ _); reflexivity.
Qed.

Lemma evaluate_interrupted_params (k : nat) (tr tr' : Trainer.t batch) (i : Z)
    (valid_set : list batch) :
  Trainer.evaluate_interrupted k tr i valid_set = Ok tr' ->
  Trainer.params tr' = Trainer.params tr.
Proof.
  unfold Trainer.evaluate_interrupted. intros H.
  destruct k as [|[|[|k]]]; [inversion H; auto| | |];
    (destruct (Trainer.valid_costs tr valid_set) as [|cost rest];
     [discriminate|]);
    (destruct (Trainer.improvement tr cost); inversion H; reflexivity).
Qed.

Lemma validate_params (valid_set : list batch) (ev : SGD.events) s (i : Z) :
  SGD.params (fst (fst (SGD.validate valid_set ev s i))) = SGD.params s.
Proof.
  unfold SGD.validate, SGD.params.
  destruct (SGD.eval_interrupt ev i) as [k|].
  - destruct (Trainer.evaluate_interrupted k (SGD.trainer s) i valid_set)
      as [tr|e] eqn:E; [|reflexivity].
    rewrite handler_state. simpl.
    eapply evaluate_interrupted_params; eassumption.
  - pose proof (evaluate_params (SGD.trainer s) i valid_set) as H.
    destruct (Trainer.evaluate (SGD.trainer s) i valid_set) as [[tr log] r].
    simpl in H.
    destruct r as [u|[]]; rewrite ?handler_state, ?anneal_trainer; simpl;
      exact H.
Qed.

Lemma validate_best (valid_set : list batch) (ev : SGD.events) s (i : Z) :
  let s1 := fst (fst (SGD.validate valid_set ev s i)) in
  Trainer.best_params (SGD.trainer s1) = Trainer.best_params (SGD.trainer s) \/
  (Trainer.best_params (SGD.trainer s1) = SGD.params s /\
   finds valid_set (SGD.eval_interrupt ev i) (SGD.trainer s) = true).
Proof.
  unfold SGD.validate, SGD.params.
  destruct (SGD.eval_interrupt ev i) as [k|].
  - destruct (Trainer.evaluate_interrupted k (SGD.trainer s) i valid_set)
      as [tr|e] eqn:E; [|left; reflexivity].
    rewrite handler_state. simpl.
    eapply evaluate_interrupted_best; eassumption.
  - pose proof (evaluate_best (SGD.trainer s) i valid_set) as H.
    destruct (Trainer.evaluate (SGD.trainer s) i valid_set) as [[tr log] r].
    simpl in H.
    destruct r as [u|[]]; rewrite ?handler_state, ?anneal_trainer; simpl;
      exact H.
Qed.

Lemma iteration_best (train_set valid_set : list batch) (ev : SGD.events)
    s (velocities : list tensor) (i : Z) :
  let s' := fst (fst (fst (SGD.iteration train_set valid_set ev s velocities i))) in
  Trainer.best_params (SGD.trainer s') = Trainer.best_params (SGD.trainer s) \/
  In (i, Trainer.best_params (SGD.trainer s'), true) (sgd_call valid_set ev s i).
Proof.
  destruct (iteration_cases train_set valid_set ev s velocities i)
    as [[_ ->]|[Hl ->]]; [left; reflexivity|].
  unfold SGD.turn, sgd_call.
  destruct (Z.eqb (Trainer.validation_frequency (SGD.trainer s)) 0);
    [left; reflexivity|].
  destruct (Z.eqb (i mod Trainer.validation_frequency (SGD.trainer s)) 0).
  - pose proof (validate_best valid_set ev s i) as H1.
    destruct (SGD.validate valid_set ev s i) as [[s1 log1] stop].
    cbn [fst snd] in H1.
    assert (H2 : forall s2 : SGD.t batch,
               Trainer.best_params (SGD.trainer s2)
               = Trainer.best_params (SGD.trainer s1) ->
               Trainer.best_params (SGD.trainer s2)
               = Trainer.best_params (SGD.trainer s) \/
               In (i, Trainer.best_params (SGD.trainer s2), true)
                  match SGD.loose_interrupt ev i with
                  | Some AtCheck => []
                  | _ => [(i, SGD.params s,
                           finds valid_set (SGD.eval_interrupt ev i)
                             (SGD.trainer s))]
                  end).
    { intros s2 E. rewrite E. destruct H1 as [H1|[H1 H1']]; [left; exact H1|].
      right. rewrite H1, H1'.
      destruct (SGD.loose_interrupt ev i) as [[| | | |]|];
        [congruence | left; reflexivity ..]. }
    destruct stop as [term|]; [apply H2; reflexivity|].
    pose proof (pass_moved train_set ev s1 velocities i) as Hm.
    destruct (SGD.pass train_set ev s1 velocities i) as [[[s2 v2] log2] stop2].
    apply H2, moved_best_params, Hm.
  - left.
    pose proof (pass_moved train_set ev s velocities i) as Hm.
    destruct (SGD.pass train_set ev s velocities i) as [[[s2 v2] log2] stop2].
    apply (moved_best_params _ _ Hm).
Qed.

Lemma validated_step (best mid start : list tensor)
    (here later : list (Z * list tensor * bool)) (i : Z) :
  mid = start \/ In (i, mid, true) here ->
  validated best mid later -> validated best start (here ++ later).
Proof.
  intros H1 [->|[j Hj]].
  - destruct H1 as [H1|H1]; [left; exact H1|].
    right. exists i. apply in_or_app. auto.
  - right. exists j. apply in_or_app. auto.
Qed.

Lemma sgd_loop_validated (train_set valid_set : list batch) (ev : SGD.events)
    (n : nat) :
  forall (i : Z) s (velocities : list tensor) (log : list log_entry),
    validated
      (Trainer.best_params
         (SGD.trainer
            (fst (fst (fst (SGD.train_loop train_set valid_set ev n i s
                              velocities log))))))
      (Trainer.best_params (SGD.trainer s))
      (sgd_calls train_set valid_set ev n i s velocities).
Proof.
  induction n as [|n IH]; intros i s velocities log;
    cbn [SGD.train_loop sgd_calls]; [left; reflexivity|].
  pose proof (iteration_best train_set valid_set ev s velocities i) as H.
  destruct (SGD.iteration train_set valid_set ev s velocities i)
    as [[[s' v'] log'] [term|]]; cbn [fst snd] in *.
  - eapply validated_step; [exact H | left; reflexivity].
  - eapply validated_step; [exact H | apply IH].
Qed.

Lemma sgd_loop_length (train_set valid_set : list batch) (ev : SGD.events)
    (n : nat) :
  forall (i : Z) s (velocities : list tensor) (log : list log_entry),
    length
      (SGD.params
         (fst (fst (fst (SGD.train_loop train_set valid_set ev n i s
                           velocities log)))))
    = length (SGD.params s).
Proof.
  induction n as [|n IH]; intros i s velocities log; cbn [SGD.train_loop];
    [reflexivity|].
  assert (H : length
                (SGD.params
                   (fst (fst (fst (SGD.iteration train_set valid_set ev s
                                     velocities i)))))
              = length (SGD.params s)).
  { destruct (iteration_cases train_set valid_set ev s velocities i)
      as [[_ ->]|[_ ->]]; [reflexivity|].
    unfold SGD.turn.
    destruct (Z.eqb (Trainer.validation_frequency (SGD.trainer s)) 0);
      [reflexivity|].
    assert (H1 : SGD.params
                   (fst (fst (if Z.eqb (i mod Trainer.validation_frequency
                                                (SGD.trainer s)) 0
                              then SGD.validate valid_set ev s i
                              else (s, [], None))))
                 = SGD.params s).
    { destruct (Z.eqb (i mod _) 0); [apply validate_params | reflexivity]. }
    destruct (if Z.eqb (i mod _) 0 then _ else _) as [[s1 log1] [term|]];
      cbn [fst snd] in *; [now rewrite H1|].
    pose proof (pass_moved train_set ev s1 velocities i) as (ps & E & Hl).
    destruct (SGD.pass train_set ev s1 velocities i) as [[[s2 v2] log2] stop2].
    cbn [fst snd] in *. subst s2. unfold SGD.params in *. simpl.
    rewrite Hl, H1. reflexivity. }
  destruct (SGD.iteration train_set valid_set ev s velocities i)
    as [[[s' v'] log'] [term|]]; cbn [fst snd] in *; [exact H|].
  rewrite IH. exact H.
Qed.

Lemma sgd_train_restores (train_set valid_set : list batch) (ev : SGD.events) s :
  consistent (SGD.trainer s) ->
  let r := SGD.train train_set valid_set ev s in
  terminated (snd r) ->
  SGD.params (fst (fst r)) = Trainer.best_params (SGD.trainer (fst (fst r))).
Proof.
  intros Hc r Ht. subst r. unfold SGD.train in *.
  pose proof (sgd_loop_rule train_set valid_set ev
                (fun _ s _ => consistent (SGD.trainer s))
                (fun s _ _ => consistent (SGD.trainer s))) as H.
  specialize (H (fun i s v log HI =>
                   ltac:(pose proof (iteration_consistent train_set valid_set ev
                                       s v i HI) as H';
                         destruct (SGD.iteration train_set valid_set ev s v i)
                           as [[[? ?] ?] [?|]]; exact H'))
                (fun _ _ _ HI => HI)
                (Z.to_nat (Trainer.iterations (SGD.trainer s))) 0%Z s
                (map zeros_like (SGD.params s)) [] Hc).
  destruct (SGD.train_loop _ _ _ _ _ _ _ _) as [[[s' v'] log] term].
  assert (Hr : terminated (snd (SGD.restore ev s' log term)) ->
               SGD.params (fst (fst (SGD.restore ev s' log term)))
               = Trainer.best_params
                   (SGD.trainer (fst (fst (SGD.restore ev s' log term))))).
  { unfold SGD.restore. destruct (SGD.restore_interrupt ev); simpl.
    - intros [X|[X|X]]; discriminate.
    - intros _. apply restore_best, H. }
  destruct term; try (apply Hr, Ht).
  simpl in Ht. destruct Ht as [Ht|[Ht|Ht]]; discriminate.
Qed.

End SGDLoop.

(** *** Scipy *)

Section ScipyLoop.
Context {batch : Type}.
Implicit Types (s : Scipy.t batch) (tr : Trainer.t batch).

Lemma set_flat_consistent tr tr' (x : list R) :
  Scipy.set_flat tr x = Ok tr' -> consistent tr -> consistent tr'.
Proof.
  unfold Scipy.set_flat. destruct (Trainer.flat_to_arrays tr x) as [arrays|e];
    simpl; [|discriminate].
  intros H Hc. inversion H; subst. unfold consistent in *. simpl.
  rewrite set_values_length. exact Hc.
Qed.

Lemma set_flat_upto_consistent (k : nat) tr tr' (x : list R) :
  Scipy.set_flat_upto k tr x = Ok tr' -> consistent tr -> consistent tr'.
Proof.
  unfold Scipy.set_flat_upto.
  destruct (Trainer.flat_to_arrays tr x) as [arrays|e]; simpl; [|discriminate].
  intros H Hc. inversion H; subst. unfold consistent in *. simpl.
  rewrite set_values_upto_length. exact Hc.
Qed.

Lemma set_probes_consistent (xs : list (list R)) :
  forall tr tr',
    Scipy.set_probes tr xs = Ok tr' -> consistent tr -> consistent tr'.
Proof.
  induction xs as [|x xs IH]; intros tr tr' H Hc; simpl in H.
  - inversion H; subst. exact Hc.
  - destruct (Scipy.set_flat tr x) as [tr1|e] eqn:E; simpl in H; [|discriminate].
    eapply IH; [exact H|]. eapply set_flat_consistent; eassumption.
Qed.

Lemma scipy_handler_state (ev : Scipy.events) s (i : Z)
    (log : list log_entry) (line : log_entry) (term : terminal) :
  fst (fst (Scipy.handler ev s i log line term)) = s.
Proof.
  unfold Scipy.handler.
  destruct (Scipy.loose_interrupt ev i) as [[| [] | | |]|]; reflexivity.
Qed.

Lemma scipy_handler_cases (ev : Scipy.events) s (i : Z)
    (log : list log_entry) (line : log_entry) (term : terminal) :
  Scipy.handler ev s i log line term = (s, log ++ [line], Some term) \/
  Scipy.handler ev s i log line term
  = (s, log ++ [line], Some (Crashed KeyboardInterrupt)) \/
  Scipy.handler ev s i log line term
  = (s, log, Some (Crashed KeyboardInterrupt)).
Proof.
  unfold Scipy.handler.
  destruct (Scipy.loose_interrupt ev i) as [[| [] | | |]|]; auto.
Qed.

Lemma scipy_pass_handler_cases (ev : Scipy.events) s (i : Z) :
  Scipy.pass_handler ev s i = (s, [LogInterrupted], Some Interrupted) \/
  Scipy.pass_handler ev s i
  = (s, [LogInterrupted], Some (Crashed KeyboardInterrupt)) \/
  Scipy.pass_handler ev s i = (s, [], Some (Crashed KeyboardInterrupt)).
Proof.
  unfold Scipy.pass_handler.
  destruct (Scipy.loose_interrupt ev i) as [[| | | [] |]|]; auto.
Qed.

Lemma scipy_validate_consistent (valid_set : list batch) (ev : Scipy.events)
    s (i : Z) :
  consistent (Scipy.trainer s) ->
  consistent (Scipy.trainer (fst (fst (Scipy.validate valid_set ev s i)))).
Proof.
  intros Hc. unfold Scipy.validate.
  destruct (Scipy.eval_interrupt ev i) as [k|].
  - destruct (Trainer.evaluate_interrupted k (Scipy.trainer s) i valid_set)
      as [tr|e] eqn:E; [|exact Hc].
    rewrite scipy_handler_state. simpl.
    eapply evaluate_interrupted_consistent; eassumption.
  - pose proof (evaluate_consistent (Scipy.trainer s) i valid_set Hc) as H.
    destruct (Trainer.evaluate (Scipy.trainer s) i valid_set) as [[tr log] r].
    simpl in H.
    destruct r as [u|[]]; rewrite ?scipy_handler_state; simpl; try exact H.
    destruct (Scipy.loose_interrupt ev i) as [[| | | |]|]; exact H.
Qed.

Lemma commit_consistent (ev : Scipy.events) s (i : Z)
    (res : Scipy.OptimizeResult) :
  consistent (Scipy.trainer s) ->
  consistent (Scipy.trainer (fst (fst (Scipy.commit ev s i res)))).
Proof.
  intros Hc. unfold Scipy.commit.
  destruct (Scipy.loose_interrupt ev i) as [[| | | | []]|]; try exact Hc;
    (destruct (Scipy.commit_interrupt ev i) as [k|];
     [destruct (Scipy.set_flat_upto k (Scipy.trainer s) (Scipy.res_x res))
        as [tr'|e] eqn:E; [|exact Hc];
      simpl; eapply set_flat_upto_consistent; eassumption
     |destruct (Scipy.set_flat (Scipy.trainer s) (Scipy.res_x res))
        as [tr'|e] eqn:E; [|exact Hc];
      simpl; eapply set_flat_consistent; eassumption]).
Qed.

Lemma optimize_consistent (train_set : list batch) (ev : Scipy.events) s
    (i : Z) :
  consistent (Scipy.trainer s) ->
  consistent (Scipy.trainer (fst (fst (Scipy.optimize train_set ev s i)))).
Proof.
  intros Hc. unfold Scipy.optimize.
  destruct (Trainer.arrays_to_flat _ _) as [x0|e]; [|exact Hc].
  set (run := Scipy.minimize s _ _ x0 _).
  destruct (Scipy.set_probes (Scipy.trainer s) (Scipy.probes run))
    as [tr1|e] eqn:E1; [|exact Hc].
  pose proof (set_probes_consistent _ _ _ E1 Hc) as Hc1.
  assert (Hp : forall tr2,
             match Scipy.partial_probe run with
             | Some (x, k) => Scipy.set_flat_upto k tr1 x
             | None => Ok tr1
             end = Ok tr2 -> consistent tr2).
  { intros tr2 H. destruct (Scipy.partial_probe run) as [[x k]|].
    - eapply set_flat_upto_consistent; eassumption.
    - inversion H; subst. exact Hc1. }
  destruct (match Scipy.partial_probe run with
            | Some (x, k) => Scipy.set_flat_upto k tr1 x
            | None => Ok tr1
            end) as [tr2|e]; [|exact Hc1].
  specialize (Hp tr2 eq_refl).
  destruct (Scipy.outcome run) as [res|[]]; simpl; try exact Hp.
  - apply commit_consistent. exact Hp.
  - destruct (scipy_pass_handler_cases ev (Scipy.set_trainer s tr2) i)
      as [-> |[-> | ->]]; exact Hp.
Qed.

Lemma scipy_pass_consistent (train_set : list batch) (ev : Scipy.events) s
    (i : Z) :
  consistent (Scipy.trainer s) ->
  consistent (Scipy.trainer (fst (fst (Scipy.pass train_set ev s i)))).
Proof.
  intros Hc. unfold Scipy.pass.
  destruct (Scipy.loose_interrupt ev i) as [[| | | |]|];
    try apply optimize_consistent; exact Hc.
Qed.

(** An iteration is a turn of the loop body, unless a KeyboardInterrupt
    arrives at the head of the loop. *)
Lemma scipy_iteration_cases (train_set valid_set : list batch)
    (ev : Scipy.events) s (i : Z) :
  (Scipy.loose_interrupt ev i = Some AtCheck /\
   Scipy.iteration train_set valid_set ev s i
   = (s, [], Some (Crashed KeyboardInterrupt))) \/
  (Scipy.loose_interrupt ev i <> Some AtCheck /\
   Scipy.iteration train_set valid_set ev s i
   = Scipy.turn train_set valid_set ev s i).
Proof.
  unfold Scipy.iteration.
  destruct (Scipy.loose_interrupt ev i) as [[| | | |]|];
    [left; auto | right; split; [discriminate | reflexivity] ..].
Qed.

Lemma scipy_iteration_consistent (train_set valid_set : list batch)
    (ev : Scipy.events) s (i : Z) :
  consistent (Scipy.trainer s) ->
  consistent
    (Scipy.trainer (fst (fst (Scipy.iteration train_set valid_set ev s i)))).
Proof.
  intros Hc.
  destruct (scipy_iteration_cases train_set valid_set ev s i)
    as [[_ ->]|[_ ->]]; [exact Hc|].
  unfold Scipy.turn.
  pose proof (scipy_validate_consistent valid_set ev s i Hc) as H1.
  destruct (Scipy.validate valid_set ev s i) as [[s1 log1] [term|]];
    simpl in *; [exact H1|].
  pose proof (scipy_pass_consistent train_set ev s1 i H1) as H2.
  destruct (Scipy.pass train_set ev s1 i) as [[s2 log2] stop2]. exact H2.
Qed.

Lemma scipy_loop_consistent (train_set valid_set : list batch)
    (ev : Scipy.events) (n : nat) :
  forall (i : Z) s (log : list log_entry),
    consistent (Scipy.trainer s) ->
    consistent
      (Scipy.trainer
         (fst (fst (Scipy.train_loop train_set valid_set ev n i s log)))).
Proof.
  induction n as [|n IH]; intros i s log Hc; simpl; [exact Hc|].
  pose proof (scipy_iteration_consistent train_set valid_set ev s i Hc) as H.
  destruct (Scipy.iteration train_set valid_set ev s i) as [[s' log'] [term|]];
    simpl in *; [exact H|].
  apply IH, H.
Qed.

(** The minimizer and the commit of its result change parameter values
    only. *)
Lemma reset_refl tr : reset tr tr.
Proof. exists (Trainer.params tr). destruct tr; split; reflexivity. Qed.

Lemma reset_trans tr1 tr2 tr3 : reset tr1 tr2 -> reset tr2 tr3 -> reset tr1 tr3.
Proof.
  intros (p & -> & Hp) (q & -> & Hq). exists q. split; [reflexivity|].
  rewrite Hq. exact Hp.
Qed.

Lemma set_flat_reset tr tr' (x : list R) :
  Scipy.set_flat tr x = Ok tr' -> reset tr tr'.
Proof.
  unfold Scipy.set_flat. destruct (Trainer.flat_to_arrays tr x) as [arrays|e];
    simpl; [|discriminate].
  intros H. inversion H; subst. eexists. split; [reflexivity|].
  apply set_values_length.
Qed.

Lemma set_flat_upto_reset (k : nat) tr tr' (x : list R) :
  Scipy.set_flat_upto k tr x = Ok tr' -> reset tr tr'.
Proof.
  unfold Scipy.set_flat_upto.
  destruct (Trainer.flat_to_arrays tr x) as [arrays|e]; simpl; [|discriminate].
  intros H. inversion H; subst. eexists. split; [reflexivity|].
  apply set_values_upto_length.
Qed.

Lemma set_probes_reset (xs : list (list R)) :
  forall tr tr', Scipy.set_probes tr xs = Ok tr' -> reset tr tr'.
Proof.
  induction xs as [|x xs IH]; intros tr tr' H; simpl in H.
  - inversion H; subst. apply reset_refl.
  - destruct (Scipy.set_flat tr x) as [tr1|e] eqn:E; simpl in H; [|discriminate].
    eapply reset_trans; [eapply set_flat_reset; eassumption | apply IH, H].
Qed.

Lemma commit_reset (ev : Scipy.events) s (i : Z) (res : Scipy.OptimizeResult) :
  reset (Scipy.trainer s) (Scipy.trainer (fst (fst (Scipy.commit ev s i res)))).
Proof.
  unfold Scipy.commit.
  destruct (Scipy.loose_interrupt ev i) as [[| | | | []]|];
    try apply reset_refl;
    (destruct (Scipy.commit_interrupt ev i) as [k|];
     [destruct (Scipy.set_flat_upto k (Scipy.trainer s) (Scipy.res_x res))
        as [tr'|e] eqn:E; [|apply reset_refl];
      simpl; eapply set_flat_upto_reset; eassumption
     |destruct (Scipy.set_flat (Scipy.trainer s) (Scipy.res_x res))
        as [tr'|e] eqn:E; [|apply reset_refl];
      simpl; eapply set_flat_reset; eassumption]).
Qed.

Lemma optimize_reset (train_set : list batch) (ev : Scipy.events) s (i : Z) :
  reset (Scipy.trainer s)
    (Scipy.trainer (fst (fst (Scipy.optimize train_set ev s i)))).
Proof.
  unfold Scipy.optimize.
  destruct (Trainer.arrays_to_flat _ _) as [x0|e]; [|apply reset_refl].
  set (run := Scipy.minimize s _ _ x0 _).
  destruct (Scipy.set_probes (Scipy.trainer s) (Scipy.probes run))
    as [tr1|e] eqn:E1; [|apply reset_refl].
  pose proof (set_probes_reset _ _ _ E1) as Hc1.
  assert (Hp : forall tr2,
             match Scipy.partial_probe run with
             | Some (x, k) => Scipy.set_flat_upto k tr1 x
             | None => Ok tr1
             end = Ok tr2 -> reset (Scipy.trainer s) tr2).
  { intros tr2 H. destruct (Scipy.partial_probe run) as [[x k]|].
    - eapply reset_trans; [exact Hc1 | eapply set_flat_upto_reset; eassumption].
    - inversion H; subst. exact Hc1. }
  destruct (match Scipy.partial_probe run with
            | Some (x, k) => Scipy.set_flat_upto k tr1 x
            | None => Ok tr1
            end) as [tr2|e]; [|exact Hc1].
  specialize (Hp tr2 eq_refl).
  destruct (Scipy.outcome run) as [res|[]]; simpl; try exact Hp.
  - eapply reset_trans; [exact Hp|].
    apply (commit_reset ev (Scipy.set_trainer s tr2) i res).
  - destruct (scipy_pass_handler_cases ev (Scipy.set_trainer s tr2) i)
      as [-> |[-> | ->]]; exact Hp.
Qed.

Lemma scipy_pass_reset (train_set : list batch) (ev : Scipy.events) s (i : Z) :
  reset (Scipy.trainer s)
    (Scipy.trainer (fst (fst (Scipy.pass train_set ev s i)))).
Proof.
  unfold Scipy.pass.
  destruct (Scipy.loose_interrupt ev i) as [[| | | |]|];
    try apply optimize_reset. apply reset_refl.
Qed.

Lemma reset_best_params tr tr' :
  reset tr tr' -> Trainer.best_params tr' = Trainer.best_params tr.
Proof. intros (ps & -> & _). reflexivity. Qed.

Lemma reset_length tr tr' :
  reset tr tr' -> length (Trainer.params tr') = length (Trainer.params tr).
Proof. intros (ps & -> & H). exact H. Qed.

Lemma scipy_validate_params (valid_set : list batch) (ev : Scipy.events) s
    (i : Z) :
  Trainer.params (Scipy.trainer (fst (fst (Scipy.validate valid_set ev s i))))
  = Trainer.params (Scipy.trainer s).
Proof.
  unfold Scipy.validate.
  destruct (Scipy.eval_interrupt ev i) as [k|].
  - destruct (Trainer.evaluate_interrupted k (Scipy.trainer s) i valid_set)
      as [tr|e] eqn:E; [|reflexivity].
    rewrite scipy_handler_state. simpl.
    eapply evaluate_interrupted_params; eassumption.
  - pose proof (evaluate_params (Scipy.trainer s) i valid_set) as H.
    destruct (Trainer.evaluate (Scipy.trainer s) i valid_set) as [[tr log] r].
    simpl in H.
    destruct r as [u|[]]; rewrite ?scipy_handler_state; simpl; try exact H.
    destruct (Scipy.loose_interrupt ev i) as [[| | | |]|]; exact H.
Qed.

Lemma scipy_validate_best (valid_set : list batch) (ev : Scipy.events) s
    (i : Z) :
  let s1 := fst (fst (Scipy.validate valid_set ev s i)) in
  Trainer.best_params (Scipy.trainer s1)
  = Trainer.best_params (Scipy.trainer s) \/
  (Trainer.best_params (Scipy.trainer s1) = Trainer.params (Scipy.trainer s) /\
   finds valid_set (Scipy.eval_interrupt ev i) (Scipy.trainer s) = true).
Proof.
  unfold Scipy.validate.
  destruct (Scipy.eval_interrupt ev i) as [k|].
  - destruct (Trainer.evaluate_interrupted k (Scipy.trainer s) i valid_set)
      as [tr|e] eqn:E; [|left; reflexivity].
    rewrite scipy_handler_state. simpl.
    eapply evaluate_interrupted_best; eassumption.
  - pose proof (evaluate_best (Scipy.trainer s) i valid_set) as H.
    destruct (Trainer.evaluate (Scipy.trainer s) i valid_set) as [[tr log] r].
    simpl in H.
    destruct r as [u|[]]; rewrite ?scipy_handler_state; simpl; try exact H.
    destruct (Scipy.loose_interrupt ev i) as [[| | | |]|]; exact H.
Qed.

Lemma scipy_iteration_best (train_set valid_set : list batch)
    (ev : Scipy.events) s (i : Z) :
  let s' := fst (fst (Scipy.iteration train_set valid_set ev s i)) in
  Trainer.best_params (Scipy.trainer s')
  = Trainer.best_params (Scipy.trainer s) \/
  In (i, Trainer.best_params (Scipy.trainer s'), true)
     (scipy_call valid_set ev s i).
Proof.
  destruct (scipy_iteration_cases train_set valid_set ev s i)
    as [[_ ->]|[Hl ->]]; [left; reflexivity|].
  unfold Scipy.turn, scipy_call.
  pose proof (scipy_validate_best valid_set ev s i) as H1.
  destruct (Scipy.validate valid_set ev s i) as [[s1 log1] stop].
  cbn [fst snd] in H1.
  assert (H2 : forall s2 : Scipy.t batch,
             Trainer.best_params (Scipy.trainer s2)
             = Trainer.best_params (Scipy.trainer s1) ->
             Trainer.best_params (Scipy.trainer s2)
             = Trainer.best_params (Scipy.trainer s) \/
             In (i, Trainer.best_params (Scipy.trainer s2), true)
                match Scipy.loose_interrupt ev i with
                | Some AtCheck => []
                | _ => [(i, Trainer.params (Scipy.trainer s),
                         finds valid_set (Scipy.eval_interrupt ev i)
                           (Scipy.trainer s))]
                end).
  { intros s2 E. rewrite E. destruct H1 as [H1|[H1 H1']]; [left; exact H1|].
    right. rewrite H1, H1'.
    destruct (Scipy.loose_interrupt ev i) as [[| | | |]|];
      [congruence | left; reflexivity ..]. }
  destruct stop as [term|]; [apply H2; reflexivity|].
  pose proof (scipy_pass_reset train_set ev s1 i) as Hm.
  destruct (Scipy.pass train_set ev s1 i) as [[s2 log2] stop2].
  apply H2, reset_best_params, Hm.
Qed.

Lemma scipy_loop_validated (train_set valid_set : list batch)
    (ev : Scipy.events) (n : nat) :
  forall (i : Z) s (log : list log_entry),
    validated
      (Trainer.best_params
         (Scipy.trainer
            (fst (fst (Scipy.train_loop train_set valid_set ev n i s log)))))
      (Trainer.best_params (Scipy.trainer s))
      (scipy_calls train_set valid_set ev n i s).
Proof.
  induction n as [|n IH]; intros i s log;
    cbn [Scipy.train_loop scipy_calls]; [left; reflexivity|].
  pose proof (scipy_iteration_best train_set valid_set ev s i) as H.
  destruct (Scipy.iteration train_set valid_set ev s i)
    as [[s' log'] [term|]]; cbn [fst snd] in *.
  - eapply validated_step; [exact H | left; reflexivity].
  - eapply validated_step; [exact H | apply IH].
Qed.

Lemma scipy_loop_length (train_set valid_set : list batch)
    (ev : Scipy.events) (n : nat) :
  forall (i : Z) s (log : list log_entry),
    length
      (Trainer.params
         (Scipy.trainer
            (fst (fst (Scipy.train_loop train_set valid_set ev n i s log)))))
    = length (Trainer.params (Scipy.trainer s)).
Proof.
  induction n as [|n IH]; intros i s log; cbn [Scipy.train_loop];
    [reflexivity|].
  assert (H : length
                (Trainer.params
                   (Scipy.trainer
                      (fst (fst (Scipy.iteration train_set valid_set ev s i)))))
              = length (Trainer.params (Scipy.trainer s))).
  { destruct (scipy_iteration_cases train_set valid_set ev s i)
      as [[_ ->]|[_ ->]]; [reflexivity|].
    unfold Scipy.turn.
    pose proof (scipy_validate_params valid_set ev s i) as H1.
    destruct (Scipy.validate valid_set ev s i) as [[s1 log1] [term|]];
      cbn [fst snd] in *; [now rewrite H1|].
    pose proof (scipy_pass_reset train_set ev s1 i) as Hm.
    destruct (Scipy.pass train_set ev s1 i) as [[s2 log2] stop2].
    cbn [fst snd] in *. rewrite (reset_length _ _ Hm), H1. reflexivity. }
  destruct (Scipy.iteration train_set valid_set ev s i)
    as [[s' log'] [term|]]; cbn [fst snd] in *; [exact H|].
  rewrite IH. exact H.
Qed.

Lemma scipy_train_restores (train_set valid_set : list batch)
    (ev : Scipy.events) s :
  consistent (Scipy.trainer s) ->
  let r := Scipy.train train_set valid_set ev s in
  terminated (snd r) ->
  Trainer.params (Scipy.trainer (fst (fst r)))
  = Trainer.best_params (Scipy.trainer (fst (fst r))).
Proof.
  intros Hc r Ht. subst r. unfold Scipy.train in *.
  pose proof (scipy_loop_consistent train_set valid_set ev
                (Z.to_nat (Trainer.iterations (Scipy.trainer s))) 0%Z s [] Hc)
    as H.
  destruct (Scipy.train_loop _ _ _ _ _ _ _) as [[s' log] term].
  simpl in H.
  assert (Hr : terminated (snd (Scipy.restore ev s' log term)) ->
               Trainer.params
                 (Scipy.trainer (fst (fst (Scipy.restore ev s' log term))))
               = Trainer.best_params
                   (Scipy.trainer (fst (fst (Scipy.restore ev s' log term))))).
  { unfold Scipy.restore. destruct (Scipy.restore_interrupt ev); simpl.
    - intros [X|[X|X]]; discriminate.
    - intros _. apply restore_best, H. }
  destruct term; try (apply Hr, Ht).
  simpl in Ht. destruct Ht as [Ht|[Ht|Ht]]; discriminate.
Qed.

End ScipyLoop.

Lemma sgd_train_validated {batch : Type} (train_set valid_set : list batch)
    (ev : SGD.events) (s : SGD.t batch) :
  let r := SGD.train train_set valid_set ev s in
  validated (Trainer.best_params (SGD.trainer (fst (fst r))))
    (Trainer.best_params (SGD.trainer s))
    (sgd_run_calls train_set valid_set ev s).
Proof.
  unfold SGD.train, sgd_run_calls.
  pose proof (sgd_loop_validated train_set valid_set ev
                (Z.to_nat (Trainer.iterations (SGD.trainer s))) 0%Z s
                (map zeros_like (SGD.params s)) []) as H.
  destruct (SGD.train_loop _ _ _ _ _ _ _ _) as [[[s' v'] log] term].
  cbn [fst snd] in H. unfold SGD.restore.
  destruct term; try exact H;
    destruct (SGD.restore_interrupt ev); exact H.
Qed.

Lemma sgd_train_length {batch : Type} (train_set valid_set : list batch)
    (ev : SGD.events) (s : SGD.t batch) :
  let r := SGD.train train_set valid_set ev s in
  length (SGD.params (fst (fst r))) = length (SGD.params s).
Proof.
  unfold SGD.train.
  pose proof (sgd_loop_length train_set valid_set ev
                (Z.to_nat (Trainer.iterations (SGD.trainer s))) 0%Z s
                (map zeros_like (SGD.params s)) []) as H.
  destruct (SGD.train_loop _ _ _ _ _ _ _ _) as [[[s' v'] log] term].
  cbn [fst snd] in H. unfold SGD.restore.
  destruct term; try exact H;
    destruct (SGD.restore_interrupt ev); unfold SGD.params in *; simpl;
    rewrite ?set_values_length, ?set_values_upto_length; exact H.
Qed.

Lemma scipy_train_validated {batch : Type} (train_set valid_set : list batch)
    (ev : Scipy.events) (s : Scipy.t batch) :
  let r := Scipy.train train_set valid_set ev s in
  validated (Trainer.best_params (Scipy.trainer (fst (fst r))))
    (Trainer.best_params (Scipy.trainer s))
    (scipy_run_calls train_set valid_set ev s).
Proof.
  unfold Scipy.train, scipy_run_calls.
  pose proof (scipy_loop_validated train_set valid_set ev
                (Z.to_nat (Trainer.iterations (Scipy.trainer s))) 0%Z s [])
    as H.
  destruct (Scipy.train_loop _ _ _ _ _ _ _) as [[s' log] term].
  cbn [fst snd] in H. unfold Scipy.restore.
  destruct term; try exact H;
    destruct (Scipy.restore_interrupt ev); exact H.
Qed.

Lemma scipy_train_length {batch : Type} (train_set valid_set : list batch)
    (ev : Scipy.events) (s : Scipy.t batch) :
  let r := Scipy.train train_set valid_set ev s in
  length (Trainer.params (Scipy.trainer (fst (fst r))))
  = length (Trainer.params (Scipy.trainer s)).
Proof.
  unfold Scipy.train.
  pose proof (scipy_loop_length train_set valid_set ev
                (Z.to_nat (Trainer.iterations (Scipy.trainer s))) 0%Z s [])
    as H.
  destruct (Scipy.train_loop _ _ _ _ _ _ _) as [[s' log] term].
  cbn [fst snd] in H. unfold Scipy.restore.
  destruct term; try exact H;
    destruct (Scipy.restore_interrupt ev); simpl;
    rewrite ?set_values_length, ?set_values_upto_length; exact H.
Qed.

(** C1, amended.  A run of [SGD.train] or of [Scipy.train] that its loop
    ends (patience elapsed, a KeyboardInterrupt caught by one of the two
    [try] blocks, or the iterations used up) and whose last line is not
    interrupted leaves every parameter at its value in [best_params]; there
    are as many parameters as before; and [best_params] is the snapshot the
    run started with or the parameter values at which a call of [evaluate]
    of this run found an improvement. *)
Theorem train_restores_best {batch : Type} (train_set valid_set : list batch) :
  (forall (ev : SGD.events) (s : SGD.t batch),
      consistent (SGD.trainer s) ->
      let r := SGD.train train_set valid_set ev s in
      terminated (snd r) ->
      SGD.params (fst (fst r)) = Trainer.best_params (SGD.trainer (fst (fst r))) /\
      length (SGD.params (fst (fst r))) = length (SGD.params s) /\
      validated (Trainer.best_params (SGD.trainer (fst (fst r))))
        (Trainer.best_params (SGD.trainer s))
        (sgd_run_calls train_set valid_set ev s)) /\
  (forall (ev : Scipy.events) (s : Scipy.t batch),
      consistent (Scipy.trainer s) ->
      let r := Scipy.train train_set valid_set ev s in
      terminated (snd r) ->
      Trainer.params (Scipy.trainer (fst (fst r)))
      = Trainer.best_params (Scipy.trainer (fst (fst r))) /\
      length (Trainer.params (Scipy.trainer (fst (fst r))))
      = length (Trainer.params (Scipy.trainer s)) /\
      validated (Trainer.best_params (Scipy.trainer (fst (fst r))))
        (Trainer.best_params (Scipy.trainer s))
        (scipy_run_calls train_set valid_set ev s)).
Proof.
  split; intros ev s Hc r Ht; subst r.
  - split; [apply sgd_train_restores; assumption|].
    split; [apply sgd_train_length | apply sgd_train_validated].
  - split; [apply scipy_train_restores; assumption|].
    split; [apply scipy_train_length | apply scipy_train_validated].
Qed.

Lemma train_restores_best_witness :
  let s := Sample.sgd
             (Trainer.set_params
                (Sample.trainer [Sample.vec [5%R]] 3 0%R 10 100 1%R)
                [Sample.vec [7%R]])
             0%R 10%R (1 / 10)%R false in
  let ev := SGD.mk_events (fun _ => Some 0%nat) (fun _ => None)
              (fun _ => None) None in
  SGD.params (fst (fst (SGD.train [1%R] [0%R] ev s))) = [Sample.vec [5%R]].
Proof.
  intros s ev.
  apply (proj1 (proj1 (train_restores_best [1%R] [0%R]) ev s eq_refl
                  ltac:(right; left; reflexivity))).
Defined.

(** *** The snapshot taken at construction *)

Section Snapshot.
Context {batch : Type}.
Implicit Types (s : SGD.t batch) (tr : Trainer.t batch).



End Snapshot.

(** *** Patience *)

Lemma patience_arith (vf P b i : Z) :
  (0 < vf)%Z -> (0 <= P)%Z ->
  (i mod vf = 0)%Z -> (b mod vf = 0)%Z -> (P < i - b)%Z ->
  (forall j, (b < j < i)%Z -> (j mod vf = 0)%Z -> (j - b <= P)%Z) ->
  i = (b + (P / vf + 1) * vf)%Z.
Proof.
  intros Hvf HP Hi Hb Hlt Hall.
  apply Z.mod_divide in Hi; [|lia]. apply Z.mod_divide in Hb; [|lia].
  destruct Hi as [qi Hi], Hb as [qb Hb]. subst i b.
  assert (Hk : (1 <= qi - qb)%Z) by nia.
  assert (Hprev : ((qi - qb - 1) * vf <= P)%Z).
  { destruct (Z.eq_dec (qi - qb) 1) as [E|E]; [rewrite E; lia|].
    specialize (Hall ((qi - 1) * vf)%Z).
    assert (qb * vf < (qi - 1) * vf < qi * vf)%Z by nia.
    specialize (Hall H). rewrite Z.mod_mul in Hall by lia.
    specialize (Hall eq_refl). nia. }
  assert (Hq : (P / vf = qi - qb - 1)%Z).
  { symmetry. apply (Z.div_unique P vf (qi - qb - 1) (P - vf * (qi - qb - 1)));
      [left; nia | ring]. }
  rewrite Hq. ring.
Qed.

Section Patience.
Context {batch : Type}.
Variables (train_set valid_set : list batch) (ev : SGD.events).
Variables (vf P : Z).
Implicit Types (s : SGD.t batch).

Local Abbreviation waiting := (Spec.waiting vf P).
Local Abbreviation stopped := (Spec.stopped vf P).
Local Abbreviation ended := (Spec.ended vf P).

Lemma moved_waiting (i : Z) s s' (log : list log_entry) :
  moved s s' -> waiting i s log -> waiting i s' log.
Proof. intros (ps & -> & _) H. exact H. Qed.

Lemma not_in_app (l1 l2 : list log_entry) :
  ~ In LogPatienceElapsed l1 -> ~ In LogPatienceElapsed l2 ->
  ~ In LogPatienceElapsed (l1 ++ l2).
Proof. intros H1 H2 H. apply in_app_or in H. tauto. Qed.

Lemma pass_quiet s (velocities : list tensor) (i : Z) :
  ~ In LogPatienceElapsed
      (snd (fst (SGD.pass train_set ev s velocities i))) /\
  snd (SGD.pass train_set ev s velocities i) <> Some Converged /\
  snd (SGD.pass train_set ev s velocities i) <> Some Exhausted.
Proof.
  unfold SGD.pass, SGD.update.
  destruct (SGD.loose_interrupt ev i) as [[| | | [] | []]|];
    try (simpl; repeat split; [tauto | discriminate | discriminate]);
    (destruct (SGD.learn_interrupt ev i) as [[b pt]|];
     [destruct (SGD.learn_interrupted s velocities train_set b pt); simpl;
      (split; [|split; discriminate]); try tauto; intros [H|[]]; discriminate
     |destruct (SGD.learn s velocities train_set) as [[s' v'] [|y ys]]; simpl;
      (split; [|split; discriminate]); try tauto;
      intros [H|[]]; discriminate]).
Qed.

Lemma stopped_uncaught s (log : list log_entry) :
  ~ In LogPatienceElapsed log -> stopped s log (Crashed KeyboardInterrupt).
Proof. intros H. right. exact H. Qed.

Lemma not_in_valid (log : list log_entry) (i : Z) (costs : list R) (b : bool) :
  ~ In LogPatienceElapsed log ->
  ~ In LogPatienceElapsed (log ++ [LogValid i costs b]).
Proof. intros H. apply not_in_app; auto. intros [X|[]]; discriminate. Qed.

Lemma not_in_interrupted (log : list log_entry) :
  ~ In LogPatienceElapsed log ->
  ~ In LogPatienceElapsed (log ++ [LogInterrupted]).
Proof. intros H. apply not_in_app; auto. intros [X|[]]; discriminate. Qed.

(** What the validation step does to an iteration that is a checkpoint. *)
Lemma validate_waiting s (i : Z) (log : list log_entry) :
  (0 < vf)%Z -> (0 <= P)%Z -> (i mod vf = 0)%Z ->
  waiting i s log ->
  match SGD.validate valid_set ev s i with
  | (s', log', None) => waiting (i + 1) s' (log ++ log')
  | (s', log', Some term) => stopped s' (log ++ log') term
  end.
Proof.
  intros Hvf HP Hi (Hf & Hp & Hlog & Hb & Hall). unfold SGD.validate.
  destruct (SGD.eval_interrupt ev i) as [k|].
  - assert (Hl : ~ In LogPatienceElapsed
                   (log ++ Trainer.evaluate_interrupted_log k (SGD.trainer s) i
                             valid_set)).
    { unfold Trainer.evaluate_interrupted_log.
      destruct (Trainer.valid_costs (SGD.trainer s) valid_set);
        [rewrite app_nil_r; exact Hlog|].
      destruct (Nat.leb 4 k); [apply not_in_valid|rewrite app_nil_r]; exact Hlog. }
    destruct (Trainer.evaluate_interrupted k (SGD.trainer s) i valid_set)
      as [tr|e].
    + destruct (handler_cases ev (SGD.set_trainer s tr) i
                  (Trainer.evaluate_interrupted_log k (SGD.trainer s) i valid_set)
                  LogInterrupted Interrupted) as [-> |[-> | ->]].
      * simpl. rewrite app_assoc. apply not_in_interrupted, Hl.
      * apply stopped_uncaught. rewrite app_assoc.
        apply not_in_interrupted, Hl.
      * apply stopped_uncaught, Hl.
    + assert (~ In LogPatienceElapsed (log ++ []))
        by (rewrite app_nil_r; exact Hlog).
      destruct e; simpl; auto.
  - unfold Trainer.evaluate.
    destruct (Trainer.valid_costs (SGD.trainer s) valid_set) as [|cost rest].
    { simpl. apply not_in_app; auto. }
    destruct (Trainer.improvement (SGD.trainer s) cost) eqn:Ei.
    + (* improvement: the best iteration is this one *)
      simpl. rewrite Hp. replace (i - i)%Z with 0%Z by lia.
      destruct (Z.ltb P 0) eqn:E; [apply Z.ltb_lt in E; lia|].
      simpl. unfold waiting. simpl.
      repeat split; auto; try lia.
      apply not_in_valid, Hlog.
    + rewrite Hp.
      destruct (Z.ltb P (i - Trainer.best_iter (SGD.trainer s))) eqn:E.
      * apply Z.ltb_lt in E. cbn [negb].
        assert (He : elapsed vf P
                       (SGD.set_trainer s (SGD.trainer s))
                       (log ++ [LogValid (i + 1) (cost :: rest) false]
                            ++ [LogPatienceElapsed])).
        { exists log, i, (cost :: rest). repeat split; auto.
          apply patience_arith; auto. }
        destruct (handler_cases ev (SGD.set_trainer s (SGD.trainer s)) i
                    [LogValid (i + 1) (cost :: rest) false]
                    LogPatienceElapsed Converged) as [-> |[-> | ->]].
        -- exact He.
        -- left. exact He.
        -- apply stopped_uncaught, not_in_valid, Hlog.
      * apply Z.ltb_ge in E. cbn [negb].
        destruct (anneal_cases ev (SGD.set_trainer s (SGD.trainer s)) i
                    [LogValid (i + 1) (cost :: rest) false])
          as [-> |[-> | ->]].
        -- unfold waiting. simpl. repeat split; auto.
           ++ apply not_in_valid, Hlog.
           ++ intros j Hj Hm. destruct (Z.eq_dec j i) as [->|Hne]; [lia|].
              apply Hall; [lia | exact Hm].
        -- apply stopped_uncaught, not_in_valid, Hlog.
        -- apply stopped_uncaught, not_in_valid, Hlog.
Qed.

Lemma turn_waiting s (velocities : list tensor) (i : Z)
    (log : list log_entry) :
  (0 < vf)%Z -> (0 <= P)%Z ->
  waiting i s log ->
  match SGD.turn train_set valid_set ev s velocities i with
  | (s', _, log', None) => waiting (i + 1) s' (log ++ log')
  | (s', _, log', Some term) => stopped s' (log ++ log') term
  end.
Proof.
  intros Hvf HP HI. unfold SGD.turn.
  pose proof HI as (Hf & _). rewrite Hf.
  destruct (Z.eqb vf 0) eqn:E0; [apply Z.eqb_eq in E0; lia|].
  assert (H1 : match (if Z.eqb (i mod vf) 0
                      then SGD.validate valid_set ev s i
                      else (s, [], None)) with
               | (s', log', None) => waiting (i + 1) s' (log ++ log')
               | (s', log', Some term) => stopped s' (log ++ log') term
               end).
  { destruct (Z.eqb (i mod vf) 0) eqn:Em.
    - apply Z.eqb_eq in Em. apply validate_waiting; assumption.
    - apply Z.eqb_neq in Em. rewrite app_nil_r.
      destruct HI as (H1 & H2 & H3 & H4 & H5).
      repeat split; auto.
      intros j Hj Hm. destruct (Z.eq_dec j i) as [->|Hne]; [contradiction|].
      apply H5; [lia | exact Hm]. }
  destruct (if Z.eqb (i mod vf) 0 then _ else _) as [[s1 log1] [term|]].
  - exact H1.
  - pose proof (pass_moved train_set ev s1 velocities i) as Hm.
    pose proof (pass_quiet s1 velocities i) as (Hq & Hnc & Hne).
    destruct (SGD.pass train_set ev s1 velocities i)
      as [[[s2 v2] log2] stop2]. simpl in Hm, Hq, Hnc, Hne.
    pose proof (moved_waiting _ _ _ _ Hm H1) as (G1 & G2 & G3 & G4 & G5).
    rewrite app_assoc.
    assert (Hn : ~ In LogPatienceElapsed ((log ++ log1) ++ log2))
      by (apply not_in_app; assumption).
    destruct stop2 as [term|].
    + destruct term as [| | |e]; try exact Hn; try congruence.
      destruct e; try exact Hn. right. exact Hn.
    + repeat split; auto.
Qed.

Lemma iteration_waiting s (velocities : list tensor) (i : Z)
    (log : list log_entry) :
  (0 < vf)%Z -> (0 <= P)%Z ->
  waiting i s log ->
  match SGD.iteration train_set valid_set ev s velocities i with
  | (s', _, log', None) => waiting (i + 1) s' (log ++ log')
  | (s', _, log', Some term) => stopped s' (log ++ log') term
  end.
Proof.
  intros Hvf HP HI.
  destruct (iteration_cases train_set valid_set ev s velocities i)
    as [[_ ->]|[_ ->]]; [|apply turn_waiting; assumption].
  apply stopped_uncaught. rewrite app_nil_r. apply HI.
Qed.

Lemma train_waiting s :
  (0 < vf)%Z -> (0 <= P)%Z ->
  Trainer.validation_frequency (SGD.trainer s) = vf ->
  Trainer.patience (SGD.trainer s) = P ->
  Trainer.best_iter (SGD.trainer s) = 0%Z ->
  let r := SGD.train train_set valid_set ev s in
  ended (Z.to_nat (Trainer.iterations (SGD.trainer s)))
    (fst (fst r)) (snd (fst r)) (snd r).
Proof.
  intros Hvf HP Hf Hp Hb r. subst r. unfold SGD.train.
  pose proof (sgd_loop_rule_at train_set valid_set ev waiting stopped) as H.
  specialize (H (fun i s0 v log HI => iteration_waiting s0 v i log Hvf HP HI)).
  assert (H0 : waiting 0 s []).
  { repeat split; auto. rewrite Hb. apply Z.mod_0_l. lia. rewrite Hb. lia. }
  specialize (H (Z.to_nat (Trainer.iterations (SGD.trainer s))) 0%Z s
                (map zeros_like (SGD.params s)) [] H0).
  destruct (SGD.train_loop _ _ _ _ _ _ _ _) as [[[s' v'] log] term].
  unfold SGD.restore.
  destruct H as [H|[-> (_ & _ & Hl & _ & Hall)]].
  - destruct term as [| | |e]; simpl in H; try contradiction;
      try exact H;
      (destruct (SGD.restore_interrupt ev); simpl; [|exact H]).
    + left. exact H.
    + right. exact H.
  - destruct (SGD.restore_interrupt ev); simpl.
    + right. exact Hl.
    + split; [exact Hl | exact Hall].
Qed.

End Patience.

(** C6, amended: with validation every [vf >= 1] iterations, patience
    [P >= 0] and a trainer whose best iteration is 0, a run that ends with
    patience elapsed logs PatienceElapsedError once, as its last line, after
    the check of an iteration [i] that brought no improvement; and [i] is
    [(P / vf + 1) * vf] iterations after the last improvement, the first
    checkpoint more than [P] iterations after it.  That is checkpoint
    [P / vf + 1] after the improvement, which is checkpoint [P + 1] when
    [vf = 1].  A run that ends otherwise never logs PatienceElapsedError,
    unless a KeyboardInterrupt that no [try] block catches arrives after the
    line is logged, and the line is then logged in the same way; and a run
    that uses up its iterations has had no checkpoint more than [P]
    iterations after the last improvement. *)
Theorem patience_elapsed_at {batch : Type} (train_set valid_set : list batch)
    (ev : SGD.events) (s : SGD.t batch) :
  let vf := Trainer.validation_frequency (SGD.trainer s) in
  let P := Trainer.patience (SGD.trainer s) in
  let r := SGD.train train_set valid_set ev s in
  let best := Trainer.best_iter (SGD.trainer (fst (fst r))) in
  (0 < vf)%Z -> (0 <= P)%Z ->
  Trainer.best_iter (SGD.trainer s) = 0%Z ->
  (snd r = Converged ->
   exists log0 i costs,
     snd (fst r) = log0 ++ [LogValid (i + 1) costs false; LogPatienceElapsed] /\
     ~ In LogPatienceElapsed log0 /\
     i = (best + (P / vf + 1) * vf)%Z /\
     (vf = 1%Z -> i = (best + (P + 1))%Z)) /\
  (snd r <> Converged -> snd r <> Crashed KeyboardInterrupt ->
   ~ In LogPatienceElapsed (snd (fst r))) /\
  (snd r = Crashed KeyboardInterrupt ->
   In LogPatienceElapsed (snd (fst r)) ->
   exists log0 i costs,
     snd (fst r) = log0 ++ [LogValid (i + 1) costs false; LogPatienceElapsed] /\
     ~ In LogPatienceElapsed log0 /\
     i = (best + (P / vf + 1) * vf)%Z /\
     (vf = 1%Z -> i = (best + (P + 1))%Z)) /\
  (snd r = Exhausted ->
   forall j, (best < j < Trainer.iterations (SGD.trainer s))%Z ->
             (j mod vf = 0)%Z -> (j - best <= P)%Z).
Proof.
  intros vf P r best Hvf HP Hb.
  pose proof (train_waiting train_set valid_set ev vf P s Hvf HP
                eq_refl eq_refl Hb) as H.
  fold r in H. subst best. clearbody r. destruct r as [[s' log] term].
  simpl in *.
  assert (He : elapsed vf P s' log ->
               exists log0 i costs,
                 log = log0 ++ [LogValid (i + 1) costs false; LogPatienceElapsed] /\
                 ~ In LogPatienceElapsed log0 /\
                 i = (Trainer.best_iter (SGD.trainer s') + (P / vf + 1) * vf)%Z /\
                 (vf = 1%Z ->
                  i = (Trainer.best_iter (SGD.trainer s') + (P + 1))%Z)).
  { intros (log0 & i & costs & H1 & H2 & H3).
    exists log0, i, costs. repeat split; auto.
    intros E1. rewrite H3, E1, Z.div_1_r. ring. }
  destruct term as [| | |e]; simpl in H.
  - split; [intros _; apply He, H|].
    split; [congruence|]. split; discriminate.
  - split; [discriminate|]. split; [intros _ _; exact H|].
    split; discriminate.
  - destruct H as [Hl Hall].
    split; [discriminate|]. split; [intros _ _; exact Hl|].
    split; [discriminate|].
    intros _ j Hj Hm. apply Hall; [|exact Hm]. lia.
  - split; [discriminate|]. split.
    + intros _ Hne. destruct e; try exact H. congruence.
    + split; [|discriminate]. intros E Hin. injection E as ->.
      destruct H as [H|H]; [apply He, H | contradiction].
Qed.

Section Still.
Context {batch : Type}.
Implicit Types (s : SGD.t batch).

(** With learning rate 0 and no clipping a pass changes no parameter. *)
Lemma sgd_updates_still s (ps gs : list tensor) :
  SGD.learning_rate s = 0%R -> SGD.clip_params_at_zero s = false ->
  fst (SGD.sgd_updates s ps gs) = ps.
Proof.
  intros Hl Hc. revert gs.
  induction ps as [|p ps IH]; intros [|g gs]; simpl; try reflexivity.
  destruct (SGD._maybe_rescale_gradient s g) as [grad len].
  specialize (IH gs). destruct (SGD.sgd_updates s ps gs) as [rest grads].
  simpl in *. rewrite IH. f_equal.
  unfold SGD._apply_delta. rewrite Hc, Hl, Ropp_0.
  apply NagFacts.add_zero_move.
Qed.

Lemma set_params_same s : SGD.set_params s (SGD.params s) = s.
Proof. destruct s as [[]]; reflexivity. Qed.

Lemma sgd_still (train_set : list batch) s :
  SGD.learning_rate s = 0%R -> SGD.clip_params_at_zero s = false ->
  fst (SGD._sgd s train_set) = s /\
  length (snd (SGD._sgd s train_set)) = length train_set.
Proof.
  intros Hl Hc. induction train_set as [|x rest IH]; simpl; [auto|].
  unfold SGD.sgd_batch.
  pose proof (sgd_updates_still s (SGD.params s)
                (Trainer.f_grad (SGD.trainer s) x (SGD.params s)) Hl Hc) as H.
  destruct (SGD.sgd_updates s (SGD.params s) _) as [ps' grads].
  simpl in H. subst ps'. rewrite set_params_same.
  destruct (SGD._sgd s rest) as [s2 ys]. simpl in *.
  destruct IH as [-> ->]. auto.
Qed.

Lemma pass_still (train_set : list batch) (ev : SGD.events) s
    (velocities : list tensor) (i : Z) (x : batch) (rest : list batch) :
  quiet_at ev i ->
  train_set = x :: rest ->
  SGD.momentum s = 0%R ->
  SGD.learning_rate s = 0%R -> SGD.clip_params_at_zero s = false ->
  exists log,
    SGD.pass train_set ev s velocities i = (s, velocities, log, None).
Proof.
  intros (_ & Hq2 & Hq3) Ht Hm Hl Hc.
  unfold SGD.pass, SGD.update, SGD.learn. rewrite Hq2, Hq3, Hm.
  destruct (Rltb 0 0) eqn:E; [apply GradientFacts.Rltb_true in E; lra|].
  pose proof (sgd_still train_set s Hl Hc) as [H1 H2].
  destruct (SGD._sgd s train_set) as [s' ys]. simpl in *. subst s'.
  destruct ys as [|y ys]; [subst train_set; discriminate|].
  eexists. reflexivity.
Qed.

Lemma evaluate_when (tr : Trainer.t batch) (i : Z) (valid_set : list batch)
    (cost : R) (rest : list R) (b : bool) :
  Trainer.valid_costs tr valid_set = cost :: rest ->
  Trainer.improvement tr cost = b ->
  Trainer.evaluate tr i valid_set
  = (let tr' := if b then Trainer.record_best tr cost i else tr in
     (tr', [LogValid (i + 1) (cost :: rest) b],
      if Z.ltb (Trainer.patience tr') (i - Trainer.best_iter tr')
      then Raise PatienceElapsedError
      else if negb b then Raise NoImprovementError else Ok tt)).
Proof.
  intros Hc Hi. unfold Trainer.evaluate. rewrite Hc, Hi. cbv zeta.
  destruct (Z.ltb _ _); [reflexivity|]. destruct b; reflexivity.
Qed.

Lemma iteration_turn (train_set valid_set : list batch) (ev : SGD.events) s
    (velocities : list tensor) (i : Z) :
  SGD.loose_interrupt ev i <> Some AtCheck ->
  SGD.iteration train_set valid_set ev s velocities i
  = SGD.turn train_set valid_set ev s velocities i.
Proof.
  intros H.
  destruct (iteration_cases train_set valid_set ev s velocities i)
    as [[E _]|[_ E]]; [contradiction | exact E].
Qed.

(** Three kinds of uninterrupted iteration of a trainer that stands still:
    a check that improves, no check, and a check that uses up the patience. *)
Lemma iteration_improves (train_set valid_set : list batch) (ev : SGD.events)
    s (velocities : list tensor) (i : Z) (x : batch) (others : list batch)
    (cost : R) (rest : list R) :
  quiet_at ev i ->
  train_set = x :: others ->
  SGD.momentum s = 0%R ->
  SGD.learning_rate s = 0%R -> SGD.clip_params_at_zero s = false ->
  Trainer.validation_frequency (SGD.trainer s) <> 0%Z ->
  (i mod Trainer.validation_frequency (SGD.trainer s) = 0)%Z ->
  (0 <= Trainer.patience (SGD.trainer s))%Z ->
  Trainer.valid_costs (SGD.trainer s) valid_set = cost :: rest ->
  Trainer.improvement (SGD.trainer s) cost = true ->
  exists log,
    SGD.iteration train_set valid_set ev s velocities i
    = (SGD.set_trainer s (Trainer.record_best (SGD.trainer s) cost i),
       velocities, log, None).
Proof.
  intros Hq Ht Hm Hl Hc Hvf Hi HP Hv Himp.
  pose proof Hq as (Hq1 & Hq2 & Hq3).
  rewrite iteration_turn by (rewrite Hq3; discriminate). unfold SGD.turn.
  apply Z.eqb_neq in Hvf. apply Z.eqb_eq in Hi. rewrite Hvf, Hi.
  unfold SGD.validate. rewrite Hq1.
  rewrite (evaluate_when _ i valid_set cost rest true Hv Himp). cbv zeta.
  change (Trainer.patience (Trainer.record_best (SGD.trainer s) cost i))
    with (Trainer.patience (SGD.trainer s)).
  change (Trainer.best_iter (Trainer.record_best (SGD.trainer s) cost i)) with i.
  replace (Z.ltb (Trainer.patience (SGD.trainer s)) (i - i)) with false
    by (symmetry; apply Z.ltb_ge; lia).
  cbn [negb].
  destruct (pass_still train_set ev
              (SGD.set_trainer s (Trainer.record_best (SGD.trainer s) cost i))
              velocities i x others Hq Ht Hm Hl Hc) as [log Hu].
  rewrite Hu. eexists. reflexivity.
Qed.

Lemma iteration_unchecked (train_set valid_set : list batch) (ev : SGD.events)
    s (velocities : list tensor) (i : Z) (x : batch) (others : list batch) :
  quiet_at ev i ->
  train_set = x :: others ->
  SGD.momentum s = 0%R ->
  SGD.learning_rate s = 0%R -> SGD.clip_params_at_zero s = false ->
  Trainer.validation_frequency (SGD.trainer s) <> 0%Z ->
  (i mod Trainer.validation_frequency (SGD.trainer s) <> 0)%Z ->
  exists log,
    SGD.iteration train_set valid_set ev s velocities i
    = (s, velocities, log, None).
Proof.
  intros Hq Ht Hm Hl Hc Hvf Hi.
  pose proof Hq as (Hq1 & Hq2 & Hq3).
  rewrite iteration_turn by (rewrite Hq3; discriminate). unfold SGD.turn.
  apply Z.eqb_neq in Hvf. apply Z.eqb_neq in Hi. rewrite Hvf, Hi.
  destruct (pass_still train_set ev s velocities i x others Hq Ht Hm Hl Hc)
    as [log Hu].
  rewrite Hu. eexists. reflexivity.
Qed.

Lemma set_trainer_same s : SGD.set_trainer s (SGD.trainer s) = s.
Proof. destruct s; reflexivity. Qed.

Lemma iteration_elapses (train_set valid_set : list batch) (ev : SGD.events)
    s (velocities : list tensor) (i : Z) (cost : R) (rest : list R) :
  quiet_at ev i ->
  Trainer.validation_frequency (SGD.trainer s) <> 0%Z ->
  (i mod Trainer.validation_frequency (SGD.trainer s) = 0)%Z ->
  Trainer.valid_costs (SGD.trainer s) valid_set = cost :: rest ->
  Trainer.improvement (SGD.trainer s) cost = false ->
  (Trainer.patience (SGD.trainer s) < i - Trainer.best_iter (SGD.trainer s))%Z ->
  exists log,
    SGD.iteration train_set valid_set ev s velocities i
    = (s, velocities, log, Some Converged).
Proof.
  intros (Hq1 & Hq2 & Hq3) Hvf Hi Hv Himp HP.
  rewrite iteration_turn by (rewrite Hq3; discriminate). unfold SGD.turn.
  apply Z.eqb_neq in Hvf. apply Z.eqb_eq in Hi. rewrite Hvf, Hi.
  unfold SGD.validate. rewrite Hq1.
  rewrite (evaluate_when _ i valid_set cost rest false Hv Himp). cbv zeta.
  apply Z.ltb_lt in HP. rewrite HP. rewrite set_trainer_same.
  unfold SGD.handler. rewrite Hq3. eexists. reflexivity.
Qed.

(** Iterations of a trainer that moves: a check that brings no improvement
    and lowers the learning rate, or no check, followed by a pass that no
    try block's interrupt cuts short; an interrupt may arrive after the line
    of the pass is logged. *)
Lemma iteration_anneals (train_set valid_set : list batch) (ev : SGD.events)
    s (velocities : list tensor) (i : Z) (cost : R) (rest : list R)
    (s2 : SGD.t batch) (v2 : list tensor) (y : list R * list R)
    (ys : list (list R * list R)) :
  SGD.eval_interrupt ev i = None -> SGD.learn_interrupt ev i = None ->
  SGD.loose_interrupt ev i = None \/
    SGD.loose_interrupt ev i = Some (AfterPass true) ->
  Trainer.validation_frequency (SGD.trainer s) <> 0%Z ->
  (i mod Trainer.validation_frequency (SGD.trainer s) = 0)%Z ->
  Trainer.valid_costs (SGD.trainer s) valid_set = cost :: rest ->
  Trainer.improvement (SGD.trainer s) cost = false ->
  (i - Trainer.best_iter (SGD.trainer s) <= Trainer.patience (SGD.trainer s))%Z ->
  SGD.learn
    (SGD.set_learning_rate s
       (SGD.learning_rate s * (1 - SGD.learning_rate_decay s)))
    velocities train_set = (s2, v2, y :: ys) ->
  exists log,
    SGD.iteration train_set valid_set ev s velocities i
    = (s2, v2, log,
       match SGD.loose_interrupt ev i with
       | Some _ => Some (Crashed KeyboardInterrupt)
       | None => None
       end) /\
    no_improvement log.
Proof.
  intros Hq1 Hq2 Hq3 Hvf Hi Hv Himp HP HL.
  rewrite iteration_turn by (destruct Hq3 as [-> | ->]; discriminate).
  unfold SGD.turn.
  apply Z.eqb_neq in Hvf. apply Z.eqb_eq in Hi. rewrite Hvf, Hi.
  unfold SGD.validate. rewrite Hq1.
  rewrite (evaluate_when _ i valid_set cost rest false Hv Himp). cbv zeta.
  replace (Z.ltb _ _) with false by (symmetry; apply Z.ltb_ge; lia).
  cbn [negb]. rewrite set_trainer_same.
  unfold SGD.anneal, SGD.pass, SGD.update.
  destruct Hq3 as [Hq3|Hq3]; rewrite Hq3, Hq2, HL;
    (eexists; split; [reflexivity|]);
    intros j c [H|[H|[]]]; discriminate.
Qed.



(** One pass of the plain kind over one batch of the one-number network. *)
Lemma sample_pass (s : SGD.t R) (velocities : list tensor) (a x : R) :
  SGD.momentum s = 0%R -> SGD.clip_params_at_zero s = false ->
  Trainer.f_grad (SGD.trainer s) = Sample.grad ->
  SGD.params s = [Sample.vec [a]] ->
  (norm (mk_ndarray [1%nat] [x]) <= SGD.max_gradient_norm s)%R ->
  exists y,
    SGD.learn s velocities [x]
    = (SGD.set_params s [Sample.vec [(a + - SGD.learning_rate s * x)%R]],
       velocities, [y]).
Proof.
  intros Hm Hc Hg Hp Hn. unfold SGD.learn. rewrite Hm.
  destruct (Rltb 0 0) eqn:E; [apply GradientFacts.Rltb_true in E; lra|].
  unfold SGD._sgd, SGD.sgd_batch. rewrite Hg, Hp.
  cbn [Sample.grad map Sample.vec shape data length SGD.sgd_updates].
  unfold SGD._maybe_rescale_gradient.
  destruct (Rltb (SGD.max_gradient_norm s) (norm (mk_ndarray [1%nat] [x])))
    eqn:E1; [apply GradientFacts.Rltb_true in E1; lra|].
  unfold SGD._apply_delta. rewrite Hc.
  eexists. reflexivity.
Qed.

End Still.

Lemma train_loop_step {batch : Type} (train_set valid_set : list batch)
    (ev : SGD.events) (n : nat) (i : Z) (s s' : SGD.t batch)
    (v v' : list tensor) (log log' : list log_entry) (stop : option terminal) :
  SGD.iteration train_set valid_set ev s v i = (s', v', log', stop) ->
  SGD.train_loop train_set valid_set ev (S n) i s v log
  = match stop with
    | Some term => (s', v', log ++ log', term)
    | None => SGD.train_loop train_set valid_set ev n (i + 1) s' v' (log ++ log')
    end.
Proof. intros H. simpl. rewrite H. reflexivity. Qed.

(** A run on the one-number network: validation every 2 iterations,
    patience 1, learning rate 0, so that the first check improves on the
    best cost 10 and none after it does. *)
Lemma sample_run_converges :
  snd (SGD.train [0%R] [0%R] Sample.quiet
         (Sample.sgd (Sample.trainer [Sample.vec [5%R]] 2 0%R 10 1 10%R)
            0%R 10%R 0%R false))
  = Converged.
Proof.
  unfold SGD.train.
  set (s0 := Sample.sgd _ _ _ _ _).
  change (Z.to_nat (Trainer.iterations (SGD.trainer s0))) with 10%nat.
  set (v := map zeros_like (SGD.params s0)).
  assert (Hq : forall i, quiet_at Sample.quiet i) by (intros i; repeat split).
  destruct (iteration_improves [0%R] [0%R] Sample.quiet s0 v 0 0%R []
              (mean [5%R]) [] (Hq 0%Z))
    as [log0 I0]; try reflexivity; try discriminate; try (simpl; lia).
  { apply GradientFacts.Rltb_true. rewrite TrackerFacts.mean_one. simpl. lra. }
  rewrite (train_loop_step _ _ _ _ _ _ _ _ _ _ _ _ I0).
  set (s1 := SGD.set_trainer s0 _).
  destruct (iteration_unchecked [0%R] [0%R] Sample.quiet s1 v 1 0%R [] (Hq 1%Z))
    as [log1 I1]; try reflexivity; try discriminate.
  rewrite (train_loop_step _ _ _ _ _ _ _ _ _ _ _ _ I1).
  destruct (iteration_elapses [0%R] [0%R] Sample.quiet s1 v 2 (mean [5%R]) []
              (Hq 2%Z))
    as [log2 I2]; try reflexivity; try discriminate; try (simpl; lia).
  { apply GradientFacts.Rltb_false. simpl. lra. }
  rewrite (train_loop_step _ _ _ _ _ _ _ _ _ _ _ _ I2).
  reflexivity.
Qed.

Lemma patience_elapsed_at_witness :
  let s := Sample.sgd (Sample.trainer [Sample.vec [5%R]] 2 0%R 10 1 10%R)
             0%R 10%R 0%R false in
  let r := SGD.train [0%R] [0%R] Sample.quiet s in
  exists log0 i costs,
    snd (fst r) = log0 ++ [LogValid (i + 1) costs false; LogPatienceElapsed] /\
    ~ In LogPatienceElapsed log0 /\
    i = (Trainer.best_iter (SGD.trainer (fst (fst r))) + (1 / 2 + 1) * 2)%Z /\
    (2%Z = 1%Z ->
     i = (Trainer.best_iter (SGD.trainer (fst (fst r))) + (1 + 1))%Z).
Proof.
  intros s r.
  refine (proj1 (patience_elapsed_at [0%R] [0%R] Sample.quiet s _ _ _) _).
  - simpl. lia.
  - simpl. lia.
  - reflexivity.
  - exact sample_run_converges.
Defined.

(** C6 as stated fails when validation is not done at every iteration: with
    validation every 2 iterations and patience 1, the check at iteration 0
    improves, the next check, at iteration 2, is already more than 1
    iteration later and stops the run; it is the first checkpoint after the
    improvement, not the second. *)
Lemma patience_counts_iterations :
  ~ patience_claim [0%R] [0%R] Sample.quiet
      (Sample.sgd (Sample.trainer [Sample.vec [5%R]] 2 0%R 10 1 10%R)
         0%R 10%R 0%R false).
Proof.
  unfold patience_claim. intros H.
  specialize (H sample_run_converges).
  destruct H as (log0 & i & costs & marker & Hlog & Hi).
  pose proof (train_waiting [0%R] [0%R] Sample.quiet 2 1
                (Sample.sgd (Sample.trainer [Sample.vec [5%R]] 2 0%R 10 1 10%R)
                   0%R 10%R 0%R false)
                ltac:(lia) ltac:(lia) eq_refl eq_refl eq_refl) as Hw.
  cbv zeta in Hw. rewrite sample_run_converges in Hw.
  simpl ended in Hw.
  destruct Hw as (log1 & j & costs1 & Hlog1 & _ & Hj).
  rewrite Hlog in Hlog1.
  change (log0 ++ [LogValid (i + 1) costs marker; LogPatienceElapsed])
    with (log0 ++ [LogValid (i + 1) costs marker] ++ [LogPatienceElapsed])
    in Hlog1.
  change (log1 ++ [LogValid (j + 1) costs1 false; LogPatienceElapsed])
    with (log1 ++ [LogValid (j + 1) costs1 false] ++ [LogPatienceElapsed])
    in Hlog1.
  rewrite !app_assoc in Hlog1.
  apply app_inj_tail in Hlog1. destruct Hlog1 as [Hlog1 _].
  apply app_inj_tail in Hlog1. destruct Hlog1 as [_ Heq].
  injection Heq as Hij _ _.
  simpl Trainer.patience in Hi. simpl Trainer.validation_frequency in Hi.
  change (1 / 2)%Z with 0%Z in Hj. lia.
Qed.

Lemma norm_single (x : R) : norm (mk_ndarray [1%nat] [x]) = Rabs x.
Proof.
  unfold norm. simpl. replace (x * x + 0)%R with (Rsqr x) by (unfold Rsqr; ring).
  apply sqrt_Rsqr_abs.
Qed.

(** C1 as stated fails for a KeyboardInterrupt that arrives outside the two
    [try] blocks: on the one-number network with value 5, gradient 1 and
    learning rate 1/10, the first check brings no improvement on the best
    cost 1 and lowers the rate to 9/100, the pass moves the parameter to
    5 - 9/100, and an interrupt that arrives after the line of the pass is
    logged leaves [train] with the parameter there, while the best value is
    5. *)
Lemma uncaught_interrupt_not_restored :
  ~ restores_claim [1%R] [0%R]
      (SGD.mk_events (fun _ => None) (fun _ => None)
         (fun _ => Some (AfterPass true)) None)
      (Sample.sgd (Sample.trainer [Sample.vec [5%R]] 3 0%R 10 100 1%R)
         0%R 10%R (1 / 10)%R false).
Proof.
  unfold restores_claim.
  set (ev := SGD.mk_events _ _ _ _).
  set (s0 := Sample.sgd _ _ _ _ _).
  set (s1 := SGD.set_learning_rate s0
                (SGD.learning_rate s0 * (1 - SGD.learning_rate_decay s0))).
  destruct (sample_pass s1 (map zeros_like (SGD.params s0)) 5 1)
    as [y Hy]; try reflexivity.
  { rewrite norm_single, Rabs_R1. simpl. lra. }
  destruct (fun Hi HP =>
              iteration_anneals [1%R] [0%R] ev s0
                (map zeros_like (SGD.params s0)) 0 (mean [5%R]) [] _ _ y []
                eq_refl eq_refl (or_intror eq_refl) ltac:(discriminate) eq_refl
                eq_refl Hi HP Hy)
    as (log & I0 & _).
  { apply GradientFacts.Rltb_false. rewrite TrackerFacts.mean_one. simpl. lra. }
  { simpl. lia. }
  unfold SGD.train.
  change (Z.to_nat (Trainer.iterations (SGD.trainer s0))) with 10%nat.
  rewrite (train_loop_step _ _ _ _ _ _ _ _ _ _ _ _ I0).
  cbn [SGD.loose_interrupt ev fst snd].
  intros H. specialize (H (or_intror eq_refl)).
  unfold SGD.params in H. simpl in H.
  injection H as H. lra.
Qed.




End LoopFacts.

(** * Further properties *)

(** ** Flat buffers: lengths, errors and partial input *)

Module FlatMore.
Import Trainer.

Section Loops.
Context {A : Type}.

Lemma firstn_then (c m : nat) (l : list A) :
  firstn c l ++ firstn m (skipn c l) = firstn (c + m) l.
Proof.
  revert l. induction c as [|c IH]; intros [|a l]; simpl;
    try reflexivity.
  - now rewrite firstn_nil.
  - now rewrite IH.
Qed.

Lemma flat_to_arrays_loop_short (shapes : list (list nat)) (x : list A) :
  forall (start : nat) (acc : list (ndarray A)),
    start <= length x ->
    length x < start + sum (map prod shapes) ->
    flat_to_arrays_loop (combine shapes (map prod shapes)) x start acc
    = Raise ValueError.
Proof.
  induction shapes as [|sh shapes IH]; intros start acc Hs Hlen; simpl in *;
    [lia|].
  unfold reshape, slice.
  destruct (Nat.eqb (length (firstn (prod sh) (skipn start x))) (prod sh)) eqn:E.
  - simpl. apply Nat.eqb_eq in E.
    rewrite length_firstn, length_skipn in E. apply IH; lia.
  - reflexivity.
Qed.

Lemma flat_to_arrays_loop_long (shapes : list (list nat)) (x : list A) :
  forall (start : nat) (acc : list (ndarray A)),
    start + sum (map prod shapes) <= length x ->
    exists arrays,
      flat_to_arrays_loop (combine shapes (map prod shapes)) x start acc
      = Ok (acc ++ arrays, start + sum (map prod shapes)) /\
      map shape arrays = shapes /\ Forall well_formed arrays /\
      concat (map data arrays) = firstn (sum (map prod shapes)) (skipn start x).
Proof.
  induction shapes as [|sh shapes IH]; intros start acc Hlen; simpl in *.
  - exists []. rewrite app_nil_r, Nat.add_0_r. auto.
  - unfold reshape, slice.
    assert (E : length (firstn (prod sh) (skipn start x)) = prod sh).
    { rewrite length_firstn, length_skipn. lia. }
    rewrite E, Nat.eqb_refl. simpl.
    destruct (IH (start + prod sh)
                (acc ++ [mk_ndarray sh (firstn (prod sh) (skipn start x))]))
      as (arrays & H1 & H2 & H3 & H4); [lia|].
    exists (mk_ndarray sh (firstn (prod sh) (skipn start x)) :: arrays).
    rewrite H1, <- app_assoc, Nat.add_assoc. simpl.
    repeat split; auto.
    + now rewrite H2.
    + rewrite H4.
      replace (skipn (start + prod sh) x) with (skipn (prod sh) (skipn start x))
        by (rewrite skipn_skipn; f_equal; lia).
      apply firstn_then.
Qed.

Lemma assign_slice_length (x vals x' : list A) (start count : nat) :
  assign_slice x start count vals = Ok x' -> length x' = length x.
Proof.
  unfold assign_slice, slice.
  set (n := length (firstn count (skipn start x))).
  assert (Hn : n <= length x - start)
    by (subst n; rewrite length_firstn, length_skipn; lia).
  destruct (Nat.eqb (length vals) n) eqn:E.
  - apply Nat.eqb_eq in E. intros H. inversion H; subst x'.
    rewrite !length_app, length_firstn, length_skipn. lia.
  - destruct vals as [|c [|? ?]]; try discriminate.
    intros H. inversion H; subst x'.
    rewrite !length_app, repeat_length, length_firstn, length_skipn. lia.
Qed.

Lemma arrays_to_flat_loop_length (ac : list (ndarray A * nat)) :
  forall (x x' : list A) (start : nat),
    arrays_to_flat_loop ac x start = Ok x' -> length x' = length x.
Proof.
  induction ac as [|[a c] ac IH]; intros x x' start H; simpl in H.
  - inversion H. reflexivity.
  - destruct (assign_slice x start c (flatten a)) as [x1|e] eqn:E;
      simpl in H; [|discriminate].
    rewrite (IH _ _ _ H). eapply assign_slice_length, E.
Qed.

Lemma arrays_to_flat_loop_app (l1 l2 : list (ndarray A * nat)) :
  forall (x : list A) (start : nat),
    arrays_to_flat_loop (l1 ++ l2) x start
    = bind (arrays_to_flat_loop l1 x start)
        (fun x' => arrays_to_flat_loop l2 x' (start + sum (map snd l1))).
Proof.
  induction l1 as [|[a c] l1 IH]; intros x start; simpl.
  - rewrite Nat.add_0_r. reflexivity.
  - destruct (assign_slice x start c (flatten a)) as [x1|e]; simpl;
      [|reflexivity].
    rewrite IH, Nat.add_assoc. reflexivity.
Qed.

(** Conforming arrays written into a buffer that has room for more. *)
Lemma arrays_to_flat_loop_room (arrays : list (ndarray A)) :
  forall (pre zs : list A),
    Forall well_formed arrays ->
    sum (map prod (map shape arrays)) <= length zs ->
    arrays_to_flat_loop (combine arrays (map prod (map shape arrays)))
      (pre ++ zs) (length pre)
    = Ok (pre ++ concat (map data arrays)
              ++ skipn (sum (map prod (map shape arrays))) zs).
Proof.
  induction arrays as [|a l IH]; intros pre zs Hwf Hlen; simpl in *.
  - reflexivity.
  - inversion Hwf as [|? ? Ha Hl]; subst.
    unfold well_formed in Ha. unfold flatten. rewrite <- Ha in Hlen |- *.
    rewrite FlatFacts.assign_slice_exact by lia. simpl.
    replace (length pre + length (data a)) with (length (pre ++ data a))
      by (rewrite length_app; reflexivity).
    rewrite app_assoc.
    rewrite IH; [| exact Hl | rewrite length_skipn; lia].
    rewrite <- !app_assoc, skipn_skipn.
    rewrite (Nat.add_comm (sum _) (length (data a))). reflexivity.
Qed.

Lemma combine_map_snd (arrays : list (ndarray A)) (cs : list nat) :
  length cs = length arrays -> map snd (combine arrays cs) = cs.
Proof.
  revert cs. induction arrays as [|a l IH]; intros [|c cs] H; simpl in *;
    try discriminate; auto.
  f_equal. apply IH. lia.
Qed.

End Loops.

(** X1.  For a trainer whose counts are the element counts of its shapes,
    [flat_to_arrays] accepts exactly the buffers whose length is the sum of
    the counts: a shorter buffer raises ValueError (a slice cannot be
    reshaped), a longer one fails the final assertion, and an accepted buffer
    is cut, in order, into well-formed arrays of the recorded shapes. *)
Theorem flat_to_arrays_outcome {batch : Type} (s : Trainer.t batch) (x : list R) :
  counts s = map prod (shapes s) ->
  (length x < sum (counts s) -> flat_to_arrays s x = Raise ValueError) /\
  (sum (counts s) < length x -> flat_to_arrays s x = Raise AssertionError) /\
  (length x = sum (counts s) ->
   exists arrays,
     flat_to_arrays s x = Ok arrays /\ map shape arrays = shapes s /\
     Forall well_formed arrays /\ concat (map data arrays) = x).
Proof.
  intros Hc. unfold flat_to_arrays, flat_to_arrays_with. rewrite Hc.
  split; [|split]; intros Hlen.
  - rewrite flat_to_arrays_loop_short by (simpl; lia). reflexivity.
  - destruct (flat_to_arrays_loop_long (shapes s) x 0 [])
      as (arrays & H1 & _); [simpl; lia|].
    rewrite H1. simpl.
    destruct (Nat.eqb (sum (map prod (shapes s))) (length x)) eqn:E;
      [apply Nat.eqb_eq in E; lia | reflexivity].
  - destruct (flat_to_arrays_loop_long (shapes s) x 0 [])
      as (arrays & H1 & H2 & H3 & H4); [simpl; lia|].
    exists arrays. rewrite H1. simpl. rewrite <- Hlen, Nat.eqb_refl.
    repeat split; auto.
    rewrite H4. simpl. rewrite <- Hlen. apply firstn_all.
Qed.

Lemma flat_to_arrays_outcome_witness :
  flat_to_arrays
    (Sample.trainer [Sample.vec [1%R; 2%R]; Sample.vec [3%R]] 3 0%R 10 100 1%R)
    [1%R; 2%R]
  = Raise ValueError.
Proof.
  apply (proj1 (flat_to_arrays_outcome
                  (Sample.trainer [Sample.vec [1%R; 2%R]; Sample.vec [3%R]]
                     3 0%R 10 100 1%R)
                  [1%R; 2%R] eq_refl)).
  simpl. lia.
Defined.

(** X2.  Whatever arrays it is given, a buffer that [arrays_to_flat] returns
    has the length the trainer's counts add up to. *)
Theorem arrays_to_flat_length {batch : Type} (s : Trainer.t batch)
    (arrays : list tensor) (x : list R) :
  arrays_to_flat s arrays = Ok x -> length x = sum (counts s).
Proof.
  unfold arrays_to_flat, arrays_to_flat_with. intros H.
  rewrite (arrays_to_flat_loop_length _ _ _ _ H). apply repeat_length.
Qed.

Lemma arrays_to_flat_length_witness :
  length [7%R; 7%R; 0%R]
  = sum (counts (Sample.trainer [Sample.vec [1%R; 2%R]; Sample.vec [3%R]]
                   3 0%R 10 100 1%R)).
Proof.
  apply (arrays_to_flat_length
           (Sample.trainer [Sample.vec [1%R; 2%R]; Sample.vec [3%R]]
              3 0%R 10 100 1%R)
           [Sample.vec [7%R]] [7%R; 7%R; 0%R] eq_refl).
Defined.

(** X3.  [arrays_to_flat] pairs arrays with counts as [zip] does: given
    well-formed arrays for the first shapes only, it leaves the rest of the
    buffer zero; and arrays beyond the recorded shapes are ignored. *)
Theorem arrays_to_flat_partial {batch : Type} (s : Trainer.t batch)
    (arrays extra : list tensor) (more : list (list nat)) :
  counts s = map prod (shapes s) ->
  shapes s = map shape arrays ++ more ->
  Forall well_formed arrays ->
  arrays_to_flat s arrays
  = Ok (concat (map data arrays) ++ repeat 0%R (sum (map prod more))) /\
  (more = [] -> arrays_to_flat s (arrays ++ extra) = arrays_to_flat s arrays).
Proof.
  intros Hc Hs Hwf. unfold arrays_to_flat, arrays_to_flat_with.
  rewrite Hc, Hs, map_app.
  assert (Hsum : forall l1 l2, sum (l1 ++ l2) = sum l1 + sum l2).
  { induction l1 as [|c l1 IH]; intros l2; simpl; [reflexivity|].
    rewrite IH. lia. }
  assert (Hcomb : forall (l : list tensor) cs, combine arrays
                    (map prod (map shape arrays) ++ cs)
                  = combine arrays (map prod (map shape arrays))).
  { intros _ cs. clear. induction arrays as [|a l IH]; simpl; [reflexivity|].
    now rewrite IH. }
  split.
  - rewrite (Hcomb arrays).
    pose proof (arrays_to_flat_loop_room arrays []
                  (repeat 0%R (sum (map prod (map shape arrays)
                                    ++ map prod more))) Hwf) as H.
    assert (Hroom : sum (map prod (map shape arrays))
                    <= length (repeat 0%R (sum (map prod (map shape arrays)
                                                ++ map prod more))))
      by (rewrite repeat_length, Hsum; lia).
    specialize (H Hroom). etransitivity; [exact H|]. cbn [app].
    f_equal. f_equal. rewrite Hsum.
    generalize (sum (map prod (map shape arrays))). intros n.
    induction n as [|n IH]; simpl; [reflexivity | exact IH].
  - intros ->. simpl. rewrite !app_nil_r.
    clear. generalize (repeat 0%R (sum (map prod (map shape arrays)))).
    generalize 0%nat.
    induction arrays as [|a l IH]; intros start x; simpl.
    + destruct extra; reflexivity.
    + destruct (assign_slice x start (prod (shape a)) (flatten a)); simpl;
        [apply IH | reflexivity].
Qed.

Lemma arrays_to_flat_partial_witness :
  arrays_to_flat
    (Sample.trainer [Sample.vec [1%R; 2%R]; Sample.vec [3%R]] 3 0%R 10 100 1%R)
    [Sample.vec [8%R; 9%R]]
  = Ok [8%R; 9%R; 0%R].
Proof.
  apply (proj1 (arrays_to_flat_partial
                  (Sample.trainer [Sample.vec [1%R; 2%R]; Sample.vec [3%R]]
                     3 0%R 10 100 1%R)
                  [Sample.vec [8%R; 9%R]] [] [[1%nat]] eq_refl eq_refl
                  ltac:(repeat constructor))).
Defined.

Lemma assign_slice_at (pre vals zs : list R) (c : nat) :
  c <= length zs ->
  assign_slice (pre ++ zs) (length pre) c vals
  = if Nat.eqb (length vals) c then Ok (pre ++ vals ++ skipn c zs)
    else match vals with
         | [v] => Ok (pre ++ repeat v c ++ skipn c zs)
         | _ => Raise ValueError
         end.
Proof.
  intros Hle. unfold assign_slice, slice.
  rewrite skipn_app, skipn_all, Nat.sub_diag. simpl.
  rewrite length_firstn, Nat.min_l by exact Hle.
  rewrite firstn_app, firstn_all, Nat.sub_diag. simpl. rewrite app_nil_r.
  rewrite skipn_app, (skipn_all2 pre) by lia.
  replace (length pre + c - length pre) with c by lia.
  reflexivity.
Qed.

Lemma skipn_repeat (n m : nat) (v : R) :
  skipn n (repeat v (n + m)) = repeat v m.
Proof. induction n as [|n IH]; simpl; [reflexivity | exact IH]. Qed.

Lemma sum_app (l1 l2 : list nat) : sum (l1 ++ l2) = sum l1 + sum l2.
Proof.
  induction l1 as [|c l1 IH]; simpl; [reflexivity|]. rewrite IH. lia.
Qed.

Lemma combine_app_same {A B : Type} (l1 l2 : list A) (m1 m2 : list B) :
  length l1 = length m1 ->
  combine (l1 ++ l2) (m1 ++ m2) = combine l1 m1 ++ combine l2 m2.
Proof.
  revert m1. induction l1 as [|a l1 IH]; intros [|b m1] H; simpl in *;
    try discriminate; [reflexivity|].
  f_equal. apply IH. lia.
Qed.

(** X4.  The first array whose element count is not the count of its slot
    makes [arrays_to_flat] raise ValueError, unless it holds exactly one
    element: NumPy then fills the whole slot with that element, so an array
    of the wrong shape is flattened without complaint. *)
Theorem arrays_to_flat_ill_sized {batch : Type} (s : Trainer.t batch)
    (good rest : list tensor) (a : tensor) (c : nat) (more : list nat) :
  counts s = map prod (map shape good) ++ c :: more ->
  Forall well_formed good ->
  (length (data a) <> c -> length (data a) <> 1%nat ->
   arrays_to_flat s (good ++ a :: rest) = Raise ValueError) /\
  (forall v, data a = [v] ->
     arrays_to_flat s (good ++ [a])
     = Ok (concat (map data good) ++ repeat v c ++ repeat 0%R (sum more))).
Proof.
  intros Hc Hwf.
  assert (Hpre : forall tl,
             arrays_to_flat s (good ++ a :: tl)
             = bind (assign_slice
                       (concat (map data good) ++ repeat 0%R (c + sum more))
                       (length (concat (map data good))) c (flatten a))
                 (fun x' => arrays_to_flat_loop (combine tl more) x'
                              (length (concat (map data good)) + c))).
  { intros tl. unfold arrays_to_flat, arrays_to_flat_with. rewrite Hc.
    rewrite combine_app_same by (now rewrite !length_map).
    rewrite arrays_to_flat_loop_app.
    pose proof (arrays_to_flat_loop_room good []
                  (repeat 0%R (sum (map prod (map shape good) ++ c :: more)))
                  Hwf) as H.
    assert (Hroom : sum (map prod (map shape good))
                    <= length (repeat 0%R (sum (map prod (map shape good)
                                                ++ c :: more))))
      by (rewrite repeat_length, sum_app; lia).
    specialize (H Hroom). cbn [app length] in H.
    etransitivity; [apply f_equal2; [exact H | reflexivity]|].
    cbn [bind]. rewrite sum_app, skipn_repeat.
    rewrite combine_map_snd by (now rewrite !length_map).
    rewrite (FlatFacts.sum_counts_concat good Hwf). reflexivity. }
  split.
  - intros H1 H2. rewrite Hpre, assign_slice_at
      by (rewrite repeat_length; lia).
    unfold flatten.
    destruct (Nat.eqb (length (data a)) c) eqn:E;
      [apply Nat.eqb_eq in E; contradiction|].
    destruct (data a) as [|v [|w l]]; simpl in *; try reflexivity.
    contradiction.
  - intros v Hv. rewrite Hpre, assign_slice_at
      by (rewrite repeat_length; lia).
    unfold flatten. rewrite Hv. cbn [length].
    rewrite skipn_repeat.
    destruct (Nat.eqb 1 c) eqn:E.
    + apply Nat.eqb_eq in E. subst c. reflexivity.
    + reflexivity.
Qed.

Lemma arrays_to_flat_ill_sized_witness :
  arrays_to_flat
    (Sample.trainer [Sample.vec [1%R; 2%R]; Sample.vec [3%R]] 3 0%R 10 100 1%R)
    ([] ++ Sample.vec [4%R; 5%R; 6%R] :: [Sample.vec [3%R]])
  = Raise ValueError.
Proof.
  apply (proj1 (arrays_to_flat_ill_sized
                  (Sample.trainer [Sample.vec [1%R; 2%R]; Sample.vec [3%R]]
                     3 0%R 10 100 1%R)
                  [] [Sample.vec [3%R]] (Sample.vec [4%R; 5%R; 6%R])
                  2 [1%nat] eq_refl ltac:(constructor))).
  - simpl. lia.
  - simpl. lia.
Defined.

(** X5.  [update_params] pairs parameters with targets as [zip] does: the
    first parameters take the targets' values, parameters without a target
    keep theirs, targets without a parameter are dropped; the number of
    parameters never changes, and nothing else of the trainer does. *)
Theorem update_params_zip {batch : Type} (s : Trainer.t batch)
    (targets : list tensor) :
  params (update_params s targets)
  = firstn (length (params s)) targets ++ skipn (length targets) (params s) /\
  length (params (update_params s targets)) = length (params s) /\
  best_params (update_params s targets) = best_params s /\
  best_cost (update_params s targets) = best_cost s /\
  best_iter (update_params s targets) = best_iter s.
Proof.
  simpl. repeat split; [|apply LoopFacts.set_values_length].
  generalize (params s). intros ps. revert targets.
  induction ps as [|p ps IH]; intros [|a targets]; simpl; try reflexivity.
  now rewrite IH.
Qed.

End FlatMore.

(** ** Gradient policy: the size and the sign of a step *)

Module GradientMore.
Import SGD GradientFacts.

Local Open Scope R_scope.

Lemma norm_scaled_abs (c : R) (g : tensor) :
  norm (scale c g) = Rabs c * norm g.
Proof.
  unfold norm, scale. simpl.
  rewrite sum_sq_scaled, sqrt_mult by (try apply sum_sq_nonneg; nra).
  f_equal. change (c * c) with (Rsqr c). apply sqrt_Rsqr_abs.
Qed.

Lemma rescaled_length {batch : Type} (s : SGD.t batch) (g : tensor) :
  0 <= max_gradient_norm s ->
  norm (fst (_maybe_rescale_gradient s g)) = Rmin (norm g) (max_gradient_norm s) /\
  shape (fst (_maybe_rescale_gradient s g)) = shape g /\
  length (data (fst (_maybe_rescale_gradient s g))) = length (data g).
Proof.
  intros Hm. unfold _maybe_rescale_gradient.
  destruct (Rltb (max_gradient_norm s) (norm g)) eqn:E; simpl.
  - apply Rltb_true in E. rewrite !length_map. repeat split.
    change (norm (mul_scalar (div_scalar g (norm g)) (max_gradient_norm s))
            = Rmin (norm g) (max_gradient_norm s)).
    rewrite rescaled_is_scale by lra.
    rewrite norm_scaled by (apply Rmult_le_pos;
                            [lra | left; apply Rinv_0_lt_compat; lra]).
    rewrite Rmin_right by lra. field. lra.
  - apply Rltb_false in E. rewrite Rmin_left by lra. auto.
Qed.

(** X6.  For a bound that is not negative, the gradient that
    [_maybe_rescale_gradient] returns has the smaller of the gradient's
    length and the bound as its length, and the shape of the gradient. *)
Theorem rescaled_norm {batch : Type} (s : SGD.t batch) (g : tensor) :
  0 <= max_gradient_norm s ->
  norm (fst (_maybe_rescale_gradient s g)) = Rmin (norm g) (max_gradient_norm s) /\
  shape (fst (_maybe_rescale_gradient s g)) = shape g /\
  length (data (fst (_maybe_rescale_gradient s g))) = length (data g).
Proof. exact (rescaled_length s g). Qed.

Lemma rescaled_norm_witness :
  norm (fst (_maybe_rescale_gradient
               (Sample.sgd (Sample.trainer [Sample.vec [0]] 3 0 10 100 1)
                  0 1 (1 / 10) false)
               (Sample.vec [3; 4])))
  = Rmin (norm (Sample.vec [3; 4])) 1.
Proof.
  apply (rescaled_norm
           (Sample.sgd (Sample.trainer [Sample.vec [0]] 3 0 10 100 1)
              0 1 (1 / 10) false)
           (Sample.vec [3; 4])).
  simpl. lra.
Defined.

(** X7.  A negative bound is not refused: every gradient that is not zero
    is then returned multiplied by a negative factor, with the length
    [-max_gradient_norm], so that it points the opposite way. *)
Theorem negative_bound_reverses {batch : Type} (s : SGD.t batch) (g : tensor) :
  max_gradient_norm s < 0 -> 0 < norm g ->
  fst (_maybe_rescale_gradient s g) = scale (max_gradient_norm s / norm g) g /\
  max_gradient_norm s / norm g < 0 /\
  norm (fst (_maybe_rescale_gradient s g)) = - max_gradient_norm s.
Proof.
  intros Hm Hg. unfold _maybe_rescale_gradient.
  destruct (Rltb (max_gradient_norm s) (norm g)) eqn:E;
    [|apply Rltb_false in E; lra].
  simpl. rewrite rescaled_is_scale by lra.
  assert (Hc : max_gradient_norm s / norm g < 0).
  { assert (0 < / norm g) by (apply Rinv_0_lt_compat; lra).
    unfold Rdiv. nra. }
  repeat split; [exact Hc|].
  rewrite norm_scaled_abs, Rabs_left by exact Hc. field. lra.
Qed.

Lemma negative_bound_reverses_witness :
  norm (fst (_maybe_rescale_gradient
               (Sample.sgd (Sample.trainer [Sample.vec [0]] 3 0 10 100 1)
                  0 (-1) (1 / 10) false)
               (Sample.vec [3; 4])))
  = - (-1).
Proof.
  apply (negative_bound_reverses
           (Sample.sgd (Sample.trainer [Sample.vec [0]] 3 0 10 100 1)
              0 (-1) (1 / 10) false)
           (Sample.vec [3; 4])).
  - simpl. lra.
  - rewrite norm_3_4. lra.
Defined.

Lemma shifted_step (clip : bool) (x d : R) :
  Rabs (shifted clip x d - x) <= Rabs d /\
  (clip = true -> (0 < x -> 0 <= shifted clip x d) /\
                  (x < 0 -> shifted clip x d <= 0)).
Proof.
  unfold shifted.
  destruct (Rltb 0 x) eqn:E1, (Rltb (x + d) 0) eqn:E2,
           (Rltb x 0) eqn:E3, (Rltb 0 (x + d)) eqn:E4;
    repeat match goal with
      | H : Rltb _ _ = true |- _ => apply Rltb_true in H
      | H : Rltb _ _ = false |- _ => apply Rltb_false in H
      end;
    try lra;
    destruct clip; simpl;
    (split; [unfold Rabs; repeat destruct Rcase_abs; lra
            | intros; try discriminate; split; intros; lra]).
Qed.

(** X8.  With clip_params_at_zero no element of a parameter changes sign in
    an update: a positive element stays positive or becomes 0, a negative one
    stays negative or becomes 0; and, clipped or not, no element moves
    further than its delta. *)
Theorem apply_delta_keeps_sign {batch : Type} (s : SGD.t batch)
    (v delta : tensor) (i : nat) (x d : R) :
  nth_error (data v) i = Some x ->
  nth_error (data delta) i = Some d ->
  exists y,
    nth_error (data (_apply_delta s v delta)) i = Some y /\
    Rabs (y - x) <= Rabs d /\
    (clip_params_at_zero s = true -> (0 < x -> 0 <= y) /\ (x < 0 -> y <= 0)).
Proof.
  intros Hv Hd. exists (shifted (clip_params_at_zero s) x d).
  rewrite apply_delta_data.
  split; [apply nth_error_zip_with; assumption | apply shifted_step].
Qed.

Lemma apply_delta_keeps_sign_witness :
  exists y,
    nth_error
      (data (_apply_delta
               (Sample.sgd (Sample.trainer [Sample.vec [0]] 3 0 10 100 1)
                  0 1 (1 / 10) true)
               (Sample.vec [1; -2]) (Sample.vec [-3; 1]))) 0
    = Some y /\ 0 <= y.
Proof.
  destruct (apply_delta_keeps_sign
              (Sample.sgd (Sample.trainer [Sample.vec [0]] 3 0 10 100 1)
                 0 1 (1 / 10) true)
              (Sample.vec [1; -2]) (Sample.vec [-3; 1]) 0 1 (-3)
              eq_refl eq_refl) as (y & Hy & _ & Hc).
  exists y. split; [exact Hy|]. apply Hc; [reflexivity | lra].
Defined.

Lemma self_difference (xs : list R) : sum_sq (zip_with Rminus xs xs) = 0.
Proof. induction xs as [|x xs IH]; simpl; [reflexivity | rewrite IH; ring]. Qed.

Lemma step_sum_sq (clip : bool) (xs : list R) :
  forall ds,
    sum_sq (zip_with Rminus (zip_with (shifted clip) xs ds) xs) <= sum_sq ds.
Proof.
  induction xs as [|x xs IH]; intros [|d ds].
  - simpl. lra.
  - apply (sum_sq_nonneg (d :: ds)).
  - change (zip_with (shifted clip) (x :: xs) []) with (x :: xs).
    rewrite self_difference. simpl. lra.
  - simpl. specialize (IH ds).
    pose proof (proj1 (shifted_step clip x d)) as H.
    apply Rsqr_le_abs_1 in H. unfold Rsqr in H. lra.
Qed.

(** X9.  One update of a parameter by [-learning_rate] times the rescaled
    gradient moves it, in Euclidean distance, by at most
    [|learning_rate| * max_gradient_norm], whatever the gradient and whether
    parameters are clipped at zero or not. *)
Theorem update_is_bounded {batch : Type} (s : SGD.t batch) (p g : tensor) :
  0 <= max_gradient_norm s ->
  dist (_apply_delta s p
          (scale (- learning_rate s) (fst (_maybe_rescale_gradient s g)))) p
  <= Rabs (learning_rate s) * max_gradient_norm s.
Proof.
  intros Hm. unfold dist. rewrite apply_delta_data.
  set (d := scale (- learning_rate s) (fst (_maybe_rescale_gradient s g))).
  apply Rle_trans with (norm d).
  - unfold norm. apply sqrt_le_1_alt, step_sum_sq.
  - subst d. rewrite norm_scaled_abs, Rabs_Ropp.
    apply Rmult_le_compat_l; [apply Rabs_pos|].
    rewrite (proj1 (rescaled_length s g Hm)). apply Rmin_r.
Qed.

Lemma update_is_bounded_witness :
  let s := Sample.sgd (Sample.trainer [Sample.vec [0]] 3 0 10 100 1)
             0 1 (1 / 10) false in
  dist (_apply_delta s (Sample.vec [1; 1])
          (scale (- (1 / 10)) (fst (_maybe_rescale_gradient s (Sample.vec [3; 4])))))
       (Sample.vec [1; 1])
  <= Rabs (1 / 10) * 1.
Proof.
  intros s. apply (update_is_bounded s (Sample.vec [1; 1]) (Sample.vec [3; 4])).
  simpl. lra.
Defined.

End GradientMore.

(** ** The passes over the training set *)

Module PassMore.
Import SGD.

Local Open Scope R_scope.

Lemma sgd_updates_nth {batch : Type} (s : SGD.t batch) (ps gs : list tensor) :
  forall i p g,
    nth_error ps i = Some p -> nth_error gs i = Some g ->
    nth_error (fst (sgd_updates s ps gs)) i
    = Some (_apply_delta s p
              (scale (- learning_rate s) (fst (_maybe_rescale_gradient s g)))) /\
    nth_error (snd (sgd_updates s ps gs)) i = Some (norm g).
Proof.
  revert gs. induction ps as [|q ps IH]; intros gs i p g Hp Hg.
  - destruct i; discriminate.
  - destruct gs as [|h gs]; [destruct i; discriminate|].
    simpl. destruct (_maybe_rescale_gradient s h) as [grad len] eqn:Eh.
    destruct (sgd_updates s ps gs) as [rest grads] eqn:E.
    destruct i; simpl in *.
    + inversion Hp; inversion Hg; subst. rewrite Eh. simpl. split; [reflexivity|].
      unfold _maybe_rescale_gradient in Eh.
      destruct (Rltb (max_gradient_norm s) (norm g)); inversion Eh; reflexivity.
    + specialize (IH gs i p g Hp Hg). rewrite E in IH. exact IH.
Qed.

(** X10.  In one batch of the plain pass every gradient is taken at the
    parameter values the batch started with: the parameter at position [i]
    becomes what [_apply_delta] makes of it and [-learning_rate] times its
    rescaled gradient, and the length reported for it is the gradient's
    length before rescaling. *)
Theorem sgd_batch_spec {batch : Type} (s : SGD.t batch) (x : batch)
    (i : nat) (p g : tensor) :
  nth_error (params s) i = Some p ->
  nth_error (Trainer.f_grad (trainer s) x (params s)) i = Some g ->
  nth_error (params (fst (sgd_batch s x))) i
  = Some (_apply_delta s p
            (scale (- learning_rate s) (fst (_maybe_rescale_gradient s g)))) /\
  nth_error (snd (snd (sgd_batch s x))) i = Some (norm g) /\
  length (params (fst (sgd_batch s x))) = length (params s).
Proof.
  intros Hp Hg. unfold sgd_batch.
  pose proof (sgd_updates_nth s (params s) _ i p g Hp Hg) as [H1 H2].
  pose proof (NagFacts.sgd_updates_length s (params s)
                (Trainer.f_grad (trainer s) x (params s))) as H3.
  destruct (sgd_updates s (params s) _) as [ps' grads].
  cbn [fst snd] in *. change (params (set_params s ps')) with ps'. auto.
Qed.

Lemma sgd_batch_spec_witness :
  let s := Sample.sgd (Sample.trainer [Sample.vec [1]] 3 0 10 100 1)
             0 10 (1 / 10) false in
  nth_error (snd (snd (sgd_batch s 2))) 0 = Some (norm (mk_ndarray [1%nat] [2])).
Proof.
  intros s.
  apply (sgd_batch_spec s 2 0 (Sample.vec [1]) (mk_ndarray [1%nat] [2])
           eq_refl eq_refl).
Defined.

(** X11.  Without clipping at zero, one batch of the Nesterov pass follows
    the recurrence of its docstring, element by element: with [pj] an
    element of a parameter and [vj] that element of its velocity, the
    gradients are taken where the element is [pj + m * vj]; with [gj] the
    element of the gradient taken there and [c] what rescaling makes of it,
    the element of the velocity becomes [vj' = m * vj - a * c] and the
    element of the parameter becomes [pj + vj']. *)
Theorem nag_follows_recurrence {batch : Type} (s : SGD.t batch)
    (velocities : list tensor) (x : batch) (i j : nat) (p v : tensor)
    (pj vj : R) :
  clip_params_at_zero s = false ->
  nth_error (params s) i = Some p ->
  nth_error velocities i = Some v ->
  nth_error (data p) j = Some pj ->
  nth_error (data v) j = Some vj ->
  let look := fst (nag_moves s (params s) velocities) in
  let r := nag_batch s velocities x in
  lookahead (momentum s) (params s) velocities look /\
  (exists l, nth_error look i = Some l /\
             nth_error (data l) j = Some (pj + momentum s * vj)) /\
  forall g gj,
    nth_error (Trainer.f_grad (trainer s) x look) i = Some g ->
    nth_error (data g) j = Some gj ->
    exists c p' v' vj',
      (max_gradient_norm s < norm g ->
         c = gj / norm g * max_gradient_norm s) /\
      (norm g <= max_gradient_norm s -> c = gj) /\
      vj' = momentum s * vj - learning_rate s * c /\
      nth_error (snd (fst r)) i = Some v' /\
      nth_error (data v') j = Some vj' /\
      nth_error (params (fst (fst r))) i = Some p' /\
      nth_error (data p') j = Some (pj + vj').
Proof.
  intros Hclip Hp Hv Hpj Hvj look r.
  split; [apply NagFacts.nag_moves_lookahead|].
  destruct (NagFacts.nag_batch_elements s velocities x i j p v pj vj
              Hp Hv Hpj Hvj) as [Hl H].
  split; [exact Hl|].
  intros g gj Hg Hgj.
  destruct (H g gj Hg Hgj) as (p' & v' & H1 & H2 & _ & _ & _ & H6 & H7).
  set (c := if Rltb (max_gradient_norm s) (norm g)
            then gj / norm g * max_gradient_norm s else gj) in *.
  exists c, p', v', (momentum s * vj - learning_rate s * c).
  split.
  { intros Hlt. subst c.
    destruct (Rltb _ _) eqn:E; [reflexivity|].
    apply GradientFacts.Rltb_false in E. lra. }
  split.
  { intros Hle. subst c.
    destruct (Rltb _ _) eqn:E; [|reflexivity].
    apply GradientFacts.Rltb_true in E. lra. }
  split; [reflexivity|]. split; [exact H2|].
  split; [rewrite H7; f_equal; ring|].
  split; [exact H1|].
  rewrite H6, Hclip. unfold shifted. simpl. f_equal. ring.
Qed.

Lemma nag_follows_recurrence_witness :
  let s := Sample.sgd (Sample.trainer [Sample.vec [1]] 3 0 10 100 1)
             (1 / 2) 10 (1 / 10) false in
  let r := nag_batch s [Sample.vec [2]] 3 in
  exists p' v',
    nth_error (snd (fst r)) 0 = Some v' /\
    nth_error (data v') 0 = Some (7 / 10) /\
    nth_error (params (fst (fst r))) 0 = Some p' /\
    nth_error (data p') 0 = Some (17 / 10).
Proof.
  intros s r.
  destruct (nag_follows_recurrence s [Sample.vec [2]] 3 0 0 (Sample.vec [1])
              (Sample.vec [2]) 1 2 eq_refl eq_refl eq_refl eq_refl eq_refl)
    as (_ & _ & H).
  destruct (H (mk_ndarray [1%nat] [3]) 3 eq_refl eq_refl)
    as (c & p' & v' & vj' & _ & C2 & Hv' & H1 & H2 & H3 & H4).
  assert (Hn : norm (mk_ndarray [1%nat] [3]) = 3).
  { unfold norm. simpl. replace (3 * 3 + 0) with (3 * 3) by lra.
    apply sqrt_square. lra. }
  rewrite Hn in C2.
  assert (Hc : c = 3) by (apply C2; simpl; lra).
  assert (Hvj : vj' = 7 / 10) by (rewrite Hv', Hc; simpl; lra).
  exists p', v'. split; [exact H1|]. split; [rewrite H2, Hvj; reflexivity|].
  split; [exact H3|]. rewrite H4, Hvj. f_equal. lra.
Defined.

End PassMore.

(** ** The loop of SGD.train: learning rate, iteration count, failures *)

Module LoopMore.
Import LoopFacts.

Local Open Scope R_scope.

Lemma anneals_app (l1 l2 : list log_entry) :
  (forall l, l2 <> LogPatienceElapsed :: l) ->
  anneals (l1 ++ l2) = (anneals l1 + anneals l2)%nat.
Proof.
  intros H2. induction l1 as [|e l1 IH]; [reflexivity|].
  destruct e as [i c [|]| | | |]; simpl; try exact IH.
  destruct l1 as [|e' l1].
  - simpl. destruct l2 as [|[] l2]; try reflexivity. exfalso. eapply H2; eauto.
  - simpl app in *. destruct e'; rewrite IH; reflexivity.
Qed.

Lemma train_lines_app (l1 l2 : list log_entry) :
  train_lines (l1 ++ l2) = train_lines l1 ++ train_lines l2.
Proof.
  induction l1 as [|e l1 IH]; [reflexivity|].
  destruct e; simpl; rewrite IH; reflexivity.
Qed.

Section Loop.
Context {batch : Type}.
Variables (train_set valid_set : list batch) (ev : SGD.events).
Implicit Types (s : SGD.t batch).

Lemma moved_rates s s' :
  moved s s' ->
  SGD.learning_rate s' = SGD.learning_rate s /\
  SGD.learning_rate_decay s' = SGD.learning_rate_decay s.
Proof. intros (ps & -> & _). auto. Qed.

(** How far the learning rate can be from what the log says: the rate is
    the first one times the factor to the power [k], and [k] is the number
    of unimproved checks that the log shows, or one less when an interrupt
    ended the run. *)
Lemma lowered_exact (lr d : R) (log : list log_entry) (term : terminal) :
  lowered lr d (lr * (1 - d) ^ anneals log) log term.
Proof. exists (anneals log). auto. Qed.

Lemma anneals_valid (i : Z) (costs : list R) (tl : list log_entry) :
  (forall l, tl <> LogPatienceElapsed :: l) ->
  anneals (LogValid i costs false :: tl) = S (anneals tl).
Proof.
  intros H. destruct tl as [|[] tl]; try reflexivity. exfalso. eapply H; eauto.
Qed.

(** The validation step lowers the learning rate when it handles a
    NoImprovementError, and only then. *)
Lemma validate_anneals s (i : Z) :
  let r := SGD.validate valid_set ev s i in
  SGD.learning_rate_decay (fst (fst r)) = SGD.learning_rate_decay s /\
  (forall l, snd (fst r) <> LogPatienceElapsed :: l) /\
  train_lines (snd (fst r)) = [] /\
  match snd r with
  | None =>
      SGD.learning_rate (fst (fst r))
      = SGD.learning_rate s
        * (1 - SGD.learning_rate_decay s) ^ anneals (snd (fst r)) /\
      forall log2, (forall l, log2 <> LogPatienceElapsed :: l) ->
                   anneals (snd (fst r) ++ log2)
                   = (anneals (snd (fst r)) + anneals log2)%nat
  | Some term =>
      term <> Exhausted /\
      lowered (SGD.learning_rate s) (SGD.learning_rate_decay s)
        (SGD.learning_rate (fst (fst r))) (snd (fst r)) term
  end.
Proof.
  intros r. subst r. unfold SGD.validate.
  assert (X0 : forall term,
             lowered (SGD.learning_rate s) (SGD.learning_rate_decay s)
               (SGD.learning_rate s) [] term).
  { intros term. exists 0%nat. simpl. repeat split; auto; lra. }
  assert (XI : forall term,
             lowered (SGD.learning_rate s) (SGD.learning_rate_decay s)
               (SGD.learning_rate s) [LogInterrupted] term).
  { intros term. exists 0%nat. simpl. repeat split; auto; lra. }
  assert (XV : forall j c term,
             lowered (SGD.learning_rate s) (SGD.learning_rate_decay s)
               (SGD.learning_rate s) [LogValid j c true] term).
  { intros j c term. exists 0%nat. simpl. repeat split; auto; lra. }
  assert (XVI : forall j c term,
             lowered (SGD.learning_rate s) (SGD.learning_rate_decay s)
               (SGD.learning_rate s) ([LogValid j c true] ++ [LogInterrupted])
               term).
  { intros j c term. exists 0%nat. simpl. repeat split; auto; lra. }
  assert (XP : forall j c term,
             lowered (SGD.learning_rate s) (SGD.learning_rate_decay s)
               (SGD.learning_rate s)
               ([LogValid j c false] ++ [LogPatienceElapsed]) term).
  { intros j c term. exists 0%nat. simpl. repeat split; auto; lra. }
  assert (XL : forall j c tl term,
             tl = [] \/ tl = [LogInterrupted] ->
             term = Interrupted \/ term = Crashed KeyboardInterrupt ->
             lowered (SGD.learning_rate s) (SGD.learning_rate_decay s)
               (SGD.learning_rate s) ([LogValid j c false] ++ tl) term).
  { intros j c tl term Htl Ht. exists 0%nat.
    split; [simpl; lra|]. split.
    - right. destruct Htl as [-> | ->]; reflexivity.
    - intros H1 H2. destruct Ht as [-> | ->]; contradiction. }
  assert (XA : forall j c term,
             lowered (SGD.learning_rate s) (SGD.learning_rate_decay s)
               (SGD.learning_rate s * (1 - SGD.learning_rate_decay s))
               [LogValid j c false] term).
  { intros j c term. exists 1%nat. simpl. repeat split; auto; lra. }
  destruct (SGD.eval_interrupt ev i) as [k|].
  - destruct (Trainer.evaluate_interrupted k (SGD.trainer s) i valid_set)
      as [tr|e].
    2:{ simpl. repeat split; auto; try discriminate. }
    unfold SGD.handler, Trainer.evaluate_interrupted_log.
    destruct (Trainer.valid_costs (SGD.trainer s) valid_set) as [|cost rest];
      [|destruct (Nat.leb 4 k);
        [destruct (Trainer.improvement (SGD.trainer s) cost)|]];
      destruct (SGD.loose_interrupt ev i) as [[| [] | | |]|]; cbn [fst snd];
      (split; [reflexivity|]); (split; [intros l; discriminate|]);
      (split; [reflexivity|]); (split; [discriminate|]);
      try apply X0; try apply XI; try apply XV; try apply XVI;
      try (apply (XL _ _ [LogInterrupted]); auto; fail);
      try (apply (XL _ _ []); auto; fail).
  - unfold Trainer.evaluate.
    destruct (Trainer.valid_costs (SGD.trainer s) valid_set) as [|cost rest].
    { simpl. repeat split; auto; try discriminate. }
    destruct (Trainer.improvement (SGD.trainer s) cost).
    + destruct (Z.ltb _ _); cbn [negb fst snd].
      * unfold SGD.handler.
        destruct (SGD.loose_interrupt ev i) as [[| [] | | |]|]; cbn [fst snd];
          (split; [reflexivity|]); (split; [intros l; discriminate|]);
          (split; [reflexivity|]); (split; [discriminate|]);
          exists 0%nat; simpl; repeat split; auto; lra.
      * split; [reflexivity|]. split; [intros l; discriminate|].
        split; [reflexivity|]. split; [simpl; lra|].
        intros log2 H2. reflexivity.
    + destruct (Z.ltb _ _); cbn [negb fst snd].
      * unfold SGD.handler.
        destruct (SGD.loose_interrupt ev i) as [[| [] | | |]|]; cbn [fst snd];
          (split; [reflexivity|]); (split; [intros l; discriminate|]);
          (split; [reflexivity|]); (split; [discriminate|]);
          try apply XP; apply (XL _ _ []); auto.
      * unfold SGD.anneal.
        destruct (SGD.loose_interrupt ev i) as [[| [] | | |]|]; cbn [fst snd];
          (split; [reflexivity|]); (split; [intros l; discriminate|]);
          (split; [reflexivity|]);
          try (split; [discriminate|]);
          try apply XA; try (apply (XL _ _ []); auto; fail);
          (split; [simpl; lra|]);
          intros log2 H2; apply (anneals_valid _ _ log2 H2).
Qed.

Lemma pass_lines s (velocities : list tensor) (i : Z) :
  let r := SGD.pass train_set ev s velocities i in
  anneals (snd (fst r)) = 0%nat /\
  (forall l, snd (fst r) <> LogPatienceElapsed :: l) /\
  match snd r with
  | None => train_lines (snd (fst r)) = [(i + 1)%Z]
  | Some term =>
      term <> Exhausted /\ term <> Converged /\
      (train_lines (snd (fst r)) = [] \/
       train_lines (snd (fst r)) = [(i + 1)%Z] /\
       term = Crashed KeyboardInterrupt)
  end.
Proof.
  intros r. subst r. unfold SGD.pass, SGD.update.
  destruct (SGD.loose_interrupt ev i) as [[| | | [] | []]|];
    try (simpl; repeat split; auto; discriminate);
    (destruct (SGD.learn_interrupt ev i) as [[b pt]|];
     [destruct (SGD.learn_interrupted _ _ _ _ _); simpl;
      repeat split; auto; discriminate
     |destruct (SGD.learn s velocities train_set) as [[s' v'] [|y ys]]; simpl;
      repeat split; auto; discriminate]).
Qed.

(** What one iteration does to the learning rate and to the lines of the
    passes. *)
Lemma iteration_lines s (velocities : list tensor) (i : Z) :
  let r := SGD.iteration train_set valid_set ev s velocities i in
  SGD.learning_rate_decay (fst (fst (fst r))) = SGD.learning_rate_decay s /\
  (forall l, snd (fst r) <> LogPatienceElapsed :: l) /\
  match snd r with
  | None =>
      SGD.learning_rate (fst (fst (fst r)))
      = SGD.learning_rate s
        * (1 - SGD.learning_rate_decay s) ^ anneals (snd (fst r)) /\
      train_lines (snd (fst r)) = [(i + 1)%Z]
  | Some term =>
      term <> Exhausted /\
      lowered (SGD.learning_rate s) (SGD.learning_rate_decay s)
        (SGD.learning_rate (fst (fst (fst r)))) (snd (fst r)) term /\
      (train_lines (snd (fst r)) = [] \/
       train_lines (snd (fst r)) = [(i + 1)%Z] /\
       term = Crashed KeyboardInterrupt)
  end.
Proof.
  intros r. subst r.
  assert (X0 : forall term,
             lowered (SGD.learning_rate s) (SGD.learning_rate_decay s)
               (SGD.learning_rate s) [] term).
  { intros term. exists 0%nat. simpl. repeat split; auto; lra. }
  destruct (iteration_cases train_set valid_set ev s velocities i)
    as [[_ ->]|[_ ->]].
  { simpl. repeat split; auto; discriminate. }
  unfold SGD.turn.
  destruct (Z.eqb (Trainer.validation_frequency (SGD.trainer s)) 0).
  { simpl. repeat split; auto; discriminate. }
  assert (H1 : let v := if Z.eqb (i mod Trainer.validation_frequency
                                           (SGD.trainer s)) 0
                        then SGD.validate valid_set ev s i
                        else (s, [], None) in
               SGD.learning_rate_decay (fst (fst v))
               = SGD.learning_rate_decay s /\
               (forall l, snd (fst v) <> LogPatienceElapsed :: l) /\
               train_lines (snd (fst v)) = [] /\
               match snd v with
               | None =>
                   SGD.learning_rate (fst (fst v))
                   = SGD.learning_rate s
                     * (1 - SGD.learning_rate_decay s) ^ anneals (snd (fst v)) /\
                   forall log2, (forall l, log2 <> LogPatienceElapsed :: l) ->
                                anneals (snd (fst v) ++ log2)
                                = (anneals (snd (fst v)) + anneals log2)%nat
               | Some term =>
                   term <> Exhausted /\
                   lowered (SGD.learning_rate s) (SGD.learning_rate_decay s)
                     (SGD.learning_rate (fst (fst v))) (snd (fst v)) term
               end).
  { destruct (Z.eqb (i mod _) 0); [apply validate_anneals|].
    simpl. repeat split; auto; try discriminate. lra. }
  destruct (if Z.eqb (i mod _) 0 then _ else _) as [[s1 log1] stop].
  cbn [fst snd] in H1. destruct H1 as (L2 & L3 & L4 & L5).
  destruct stop as [term|].
  - cbn [fst snd]. destruct L5 as [L5 L6]. repeat split; auto.
  - destruct L5 as [L1 L5].
    pose proof (pass_moved train_set ev s1 velocities i) as Hm.
    pose proof (pass_lines s1 velocities i) as (U1 & U2 & U3).
    destruct (SGD.pass train_set ev s1 velocities i)
      as [[[s2 v2] log2] stop2]. cbn [fst snd] in *.
    destruct (moved_rates _ _ Hm) as [M1 M2].
    assert (Hrate : SGD.learning_rate s2
                    = SGD.learning_rate s
                      * (1 - SGD.learning_rate_decay s) ^ anneals (log1 ++ log2)).
    { rewrite M1, L1, (L5 log2 U2), U1, Nat.add_0_r. reflexivity. }
    split; [congruence|]. split.
    + intros l. destruct log1 as [|l0 log1]; [apply U2|].
      simpl. intros H. injection H as H0 _. subst l0.
      exact (L3 log1 eq_refl).
    + rewrite train_lines_app, L4. cbn [app].
      destruct stop2 as [term|].
      * destruct U3 as (U3 & U4 & U5). split; [exact U3|].
        split; [|exact U5]. rewrite Hrate. apply lowered_exact.
      * split; [exact Hrate | exact U3].
Qed.

Lemma upto_succ (k : nat) : upto (S k) = upto k ++ [Z.of_nat (S k)].
Proof. unfold upto. rewrite seq_S, map_app. reflexivity. Qed.

Lemma lowered_app (lr0 d lr lr' : R) (log log' : list log_entry)
    (term : terminal) :
  lr = lr0 * (1 - d) ^ anneals log ->
  (forall l, log' <> LogPatienceElapsed :: l) ->
  lowered lr d lr' log' term ->
  lowered lr0 d lr' (log ++ log') term.
Proof.
  intros Hl Hn (k & H1 & H2 & H3).
  exists (anneals log + k)%nat. rewrite (anneals_app log log' Hn).
  split; [rewrite H1, Hl, pow_add; ring|]. split.
  - destruct H2 as [H2|H2]; [left | right]; lia.
  - intros A B. rewrite (H3 A B). reflexivity.
Qed.

Lemma train_loop_lines (lr0 decay0 : R) (n : nat) :
  forall (i : Z) s (velocities : list tensor) (log : list log_entry),
    (0 <= i)%Z ->
    SGD.learning_rate s = lr0 * (1 - decay0) ^ anneals log ->
    SGD.learning_rate_decay s = decay0 ->
    train_lines log = upto (Z.to_nat i) ->
    let r := SGD.train_loop train_set valid_set ev n i s velocities log in
    lowered lr0 decay0 (SGD.learning_rate (fst (fst (fst r)))) (snd (fst r))
      (snd r) /\
    SGD.learning_rate_decay (fst (fst (fst r))) = decay0 /\
    exists k,
      train_lines (snd (fst r)) = upto (Z.to_nat i + k) /\
      (k <= n)%nat /\
      (snd r = Exhausted -> k = n) /\
      (snd r <> Exhausted -> snd r <> Crashed KeyboardInterrupt -> (k < n)%nat).
Proof.
  induction n as [|n IH]; intros i s velocities log Hi Hl Hd Ht r; subst r.
  - simpl. split; [rewrite Hl; apply lowered_exact|]. split; [exact Hd|].
    exists 0%nat. rewrite Nat.add_0_r. repeat split; auto. congruence.
  - cbn [SGD.train_loop].
    pose proof (iteration_lines s velocities i) as (I2 & I3 & I4).
    destruct (SGD.iteration train_set valid_set ev s velocities i)
      as [[[s' v'] log'] stop]. cbn [fst snd] in *.
    assert (Hd' : SGD.learning_rate_decay s' = decay0) by congruence.
    destruct stop as [term|].
    + cbn [fst snd]. destruct I4 as (I4 & I5 & I6).
      split; [eapply lowered_app; [exact Hl | exact I3 | rewrite <- Hd; exact I5]|].
      split; [exact Hd'|].
      rewrite train_lines_app.
      destruct I6 as [I6|[I6 ->]]; rewrite I6.
      * exists 0%nat. rewrite app_nil_r, Nat.add_0_r.
        split; [exact Ht|]. split; [lia|].
        split; [intros H; contradiction | intros _ _; lia].
      * exists 1%nat. rewrite Ht.
        replace (Z.to_nat i + 1)%nat with (S (Z.to_nat i)) by lia.
        rewrite upto_succ.
        split; [f_equal; f_equal; lia|]. split; [lia|].
        split; [discriminate | congruence].
    + destruct I4 as [I1 I4].
      assert (Hl' : SGD.learning_rate s'
                    = lr0 * (1 - decay0) ^ anneals (log ++ log')).
      { rewrite anneals_app by exact I3.
        rewrite I1, Hl, Hd, pow_add. ring. }
      destruct (IH (i + 1)%Z s' v' (log ++ log'))
        as (J1 & J2 & k & J3 & J6 & J4 & J5); auto; [lia | |].
      { rewrite train_lines_app, I4, Ht.
        replace (Z.to_nat (i + 1)) with (S (Z.to_nat i)) by lia.
        rewrite upto_succ. f_equal. f_equal. lia. }
      split; [exact J1|]. split; [exact J2|]. exists (S k).
      replace (Z.to_nat i + S k)%nat with (Z.to_nat (i + 1) + k)%nat by lia.
      split; [exact J3|]. split; [lia|]. split.
      * intros H. f_equal. auto.
      * intros H H'. specialize (J5 H H'). lia.
Qed.

Lemma train_lines_result (lr0 decay0 : R) s :
  SGD.learning_rate s = lr0 -> SGD.learning_rate_decay s = decay0 ->
  let r := SGD.train train_set valid_set ev s in
  let n := Z.to_nat (Trainer.iterations (SGD.trainer s)) in
  lowered lr0 decay0 (SGD.learning_rate (fst (fst r))) (snd (fst r)) (snd r) /\
  SGD.learning_rate_decay (fst (fst r)) = decay0 /\
  exists k,
    train_lines (snd (fst r)) = upto k /\ (k <= n)%nat /\
    (snd r = Exhausted -> k = n) /\
    (snd r <> Exhausted -> snd r <> Crashed KeyboardInterrupt -> (k < n)%nat).
Proof.
  intros Hl Hd r n. subst r n. unfold SGD.train.
  pose proof (train_loop_lines lr0 decay0
                (Z.to_nat (Trainer.iterations (SGD.trainer s))) 0%Z s
                (map zeros_like (SGD.params s)) []
                ltac:(lia) ltac:(simpl; rewrite Hl; ring) Hd eq_refl)
    as (H1 & H2 & k & H3 & H6 & H4 & H5).
  destruct (SGD.train_loop _ _ _ _ _ _ _ _) as [[[s' v'] log] term].
  cbn [fst snd] in *.
  assert (Hk : forall term',
             term <> Crashed KeyboardInterrupt ->
             (term' = Exhausted -> term = Exhausted) ->
             (term = term' \/ term' = Crashed KeyboardInterrupt) ->
             lowered lr0 decay0 (SGD.learning_rate s') log term').
  { intros term' Hne _ [<-|E]; [exact H1|].
    destruct H1 as (j & A & B & C). exists j. split; [exact A|].
    split; [exact B|]. intros _ X. contradiction. }
  unfold SGD.restore.
  destruct term as [| | |e];
    try (split; [exact H1|]; split; [exact H2|]; exists k; auto; fail);
    (destruct (SGD.restore_interrupt ev); cbn [fst snd];
     [split; [apply Hk; [discriminate | discriminate | auto]|];
      split; [exact H2|]; exists k;
      split; [exact H3|]; split; [exact H6|];
      split; [discriminate | congruence]
     |split; [exact H1|]; split; [exact H2|]; exists k; auto]).
Qed.

End Loop.

(** X12.  [SGD.train] lowers the learning rate by the factor
    [1 - learning_rate_decay] once for every NoImprovementError that it
    handles, and at no other time: the rate it ends with is the rate it
    started with times a power of that factor.  In a run that no
    KeyboardInterrupt ends the exponent is the number of checks without
    improvement that the log shows and that did not end the run; in a run
    that a KeyboardInterrupt ends, the last of these lines may be that of a
    check whose exception was never handled, and the exponent is that number
    or one less.  The decay itself never changes. *)
Theorem learning_rate_annealed {batch : Type} (train_set valid_set : list batch)
    (ev : SGD.events) (s : SGD.t batch) :
  let r := SGD.train train_set valid_set ev s in
  SGD.learning_rate_decay (fst (fst r)) = SGD.learning_rate_decay s /\
  exists k,
    SGD.learning_rate (fst (fst r))
    = SGD.learning_rate s * (1 - SGD.learning_rate_decay s) ^ k /\
    (k = anneals (snd (fst r)) \/ S k = anneals (snd (fst r))) /\
    (snd r <> Interrupted -> snd r <> Crashed KeyboardInterrupt ->
     k = anneals (snd (fst r))).
Proof.
  intros r. subst r.
  destruct (train_lines_result train_set valid_set ev
              (SGD.learning_rate s) (SGD.learning_rate_decay s) s
              eq_refl eq_refl) as (H1 & H2 & _).
  split; [exact H2 | exact H1].
Qed.

(** X13.  The lines that [SGD.train] logs after its passes over the
    training set are numbered 1, 2, ..., [k] without a gap; [k] is never
    more than [num_updates], it is [num_updates] when the run uses up its
    iterations, and it is smaller when the run ends in any other way than by
    a KeyboardInterrupt that no [try] block catches. *)
Theorem passes_are_counted {batch : Type} (train_set valid_set : list batch)
    (ev : SGD.events) (s : SGD.t batch) :
  let r := SGD.train train_set valid_set ev s in
  let n := Z.to_nat (Trainer.iterations (SGD.trainer s)) in
  exists k,
    train_lines (snd (fst r)) = upto k /\
    (k <= n)%nat /\
    (snd r = Exhausted -> k = n) /\
    (snd r <> Exhausted -> snd r <> Crashed KeyboardInterrupt -> (k < n)%nat).
Proof.
  intros r n. subst r n.
  destruct (train_lines_result train_set valid_set ev
              (SGD.learning_rate s) (SGD.learning_rate_decay s) s
              eq_refl eq_refl) as (_ & _ & H).
  exact H.
Qed.

End LoopMore.

(** ** Runs of SGD.train that fail, and runs that cannot *)

Module RunMore.
Import LoopFacts.

Local Open Scope R_scope.

Section Run.
Context {batch : Type}.
Implicit Types (s : SGD.t batch) (tr : Trainer.t batch).

Lemma valid_costs_nonempty tr (valid_set : list batch) :
  valid_set <> [] -> reports_cost tr -> Trainer.valid_costs tr valid_set <> [].
Proof.
  intros Hv Hr. unfold Trainer.valid_costs.
  destruct valid_set as [|x rest]; [contradiction|]. simpl.
  specialize (Hr x (Trainer.params tr)).
  destruct (Trainer.f_eval tr x (Trainer.params tr)); [contradiction|].
  discriminate.
Qed.

Lemma sgd_yields (train_set : list batch) :
  forall s, length (snd (SGD._sgd s train_set)) = length train_set.
Proof.
  induction train_set as [|x rest IH]; intros s; simpl; [reflexivity|].
  destruct (SGD.sgd_batch s x) as [s1 y].
  specialize (IH s1). destruct (SGD._sgd s1 rest). simpl in *. now rewrite IH.
Qed.

Lemma nag_yields (train_set : list batch) :
  forall s velocities,
    length (snd (SGD._nag s velocities train_set)) = length train_set.
Proof.
  induction train_set as [|x rest IH]; intros s velocities; simpl;
    [reflexivity|].
  destruct (SGD.nag_batch s velocities x) as [[s1 v1] y].
  specialize (IH s1 v1). destruct (SGD._nag s1 v1 rest) as [[? ?] ?].
  simpl in *. now rewrite IH.
Qed.

Lemma learn_yields s (velocities : list tensor) (train_set : list batch) :
  length (snd (SGD.learn s velocities train_set)) = length train_set.
Proof.
  unfold SGD.learn. destruct (Rltb 0 (SGD.momentum s)).
  - apply nag_yields.
  - pose proof (sgd_yields train_set s) as H.
    destruct (SGD._sgd s train_set). exact H.
Qed.

(** [evaluate], cut short or not, leaves the compiled functions and the
    validation frequency alone. *)
Lemma evaluate_setup tr (i : Z) (valid_set : list batch) :
  Trainer.f_eval (fst (fst (Trainer.evaluate tr i valid_set))) = Trainer.f_eval tr /\
  Trainer.validation_frequency (fst (fst (Trainer.evaluate tr i valid_set)))
  = Trainer.validation_frequency tr.
Proof.
  unfold Trainer.evaluate.
  destruct (Trainer.valid_costs tr valid_set) as [|cost rest]; [auto|].
  destruct (Trainer.improvement tr cost); destruct (Z.ltb _ _); auto.
Qed.

Lemma evaluate_interrupted_setup (k : nat) tr tr' (i : Z)
    (valid_set : list batch) :
  Trainer.evaluate_interrupted k tr i valid_set = Ok tr' ->
  Trainer.f_eval tr' = Trainer.f_eval tr /\
  Trainer.validation_frequency tr' = Trainer.validation_frequency tr.
Proof.
  unfold Trainer.evaluate_interrupted. intros H.
  destruct k as [|[|[|k]]]; [inversion H; auto| | |];
    (destruct (Trainer.valid_costs tr valid_set) as [|cost rest];
     [discriminate|]);
    (destruct (Trainer.improvement tr cost); inversion H; auto).
Qed.

Lemma handler_safe (ev : SGD.events) s (i : Z) (log : list log_entry)
    (line : log_entry) (term : terminal) :
  snd (SGD.handler ev s i log line term) = Some term \/
  snd (SGD.handler ev s i log line term) = Some (Crashed KeyboardInterrupt) /\
  SGD.loose_interrupt ev i <> None.
Proof.
  unfold SGD.handler.
  destruct (SGD.loose_interrupt ev i) as [[| [] | | |]|]; auto;
    right; (split; [reflexivity | discriminate]).
Qed.

Lemma anneal_safe (ev : SGD.events) s (i : Z) (log : list log_entry) :
  snd (SGD.anneal ev s i log) = None \/
  snd (SGD.anneal ev s i log) = Some (Crashed KeyboardInterrupt) /\
  SGD.loose_interrupt ev i <> None.
Proof.
  unfold SGD.anneal.
  destruct (SGD.loose_interrupt ev i) as [[| [] | | |]|]; auto;
    right; (split; [reflexivity | discriminate]).
Qed.

Lemma validate_safe (valid_set : list batch) (ev : SGD.events) s (i : Z) :
  valid_set <> [] -> reports_cost (SGD.trainer s) ->
  let r := SGD.validate valid_set ev s i in
  Trainer.f_eval (SGD.trainer (fst (fst r))) = Trainer.f_eval (SGD.trainer s) /\
  Trainer.validation_frequency (SGD.trainer (fst (fst r)))
  = Trainer.validation_frequency (SGD.trainer s) /\
  (snd r = None \/ snd r = Some Converged \/ snd r = Some Interrupted \/
   snd r = Some (Crashed KeyboardInterrupt) /\ SGD.loose_interrupt ev i <> None).
Proof.
  intros Hv Hr r. subst r.
  pose proof (valid_costs_nonempty (SGD.trainer s) valid_set Hv Hr) as Hc.
  unfold SGD.validate.
  destruct (SGD.eval_interrupt ev i) as [k|].
  - destruct (Trainer.evaluate_interrupted k (SGD.trainer s) i valid_set)
      as [tr|e] eqn:E.
    + destruct (evaluate_interrupted_setup _ _ _ _ _ E) as [E1 E2].
      rewrite handler_state. cbn [SGD.trainer SGD.set_trainer].
      split; [exact E1|]. split; [exact E2|].
      destruct (handler_safe ev (SGD.set_trainer s tr) i
                  (Trainer.evaluate_interrupted_log k (SGD.trainer s) i valid_set)
                  LogInterrupted Interrupted) as [X|X]; auto.
    + exfalso. unfold Trainer.evaluate_interrupted in E.
      destruct k as [|k]; [discriminate|].
      destruct (Trainer.valid_costs (SGD.trainer s) valid_set) as [|cost rest];
        [contradiction|].
      destruct (Trainer.improvement (SGD.trainer s) cost);
        destruct k as [|[|k]]; discriminate.
  - pose proof (evaluate_setup (SGD.trainer s) i valid_set) as [H1 H2].
    unfold Trainer.evaluate in *.
    destruct (Trainer.valid_costs (SGD.trainer s) valid_set) as [|cost rest];
      [contradiction|].
    destruct (Trainer.improvement (SGD.trainer s) cost);
      destruct (Z.ltb _ _); cbn [negb];
      rewrite ?handler_state, ?anneal_trainer; simpl in H1, H2;
      cbn [SGD.trainer SGD.set_trainer fst snd];
      (split; [exact H1|]); (split; [exact H2|]); auto.
    + match goal with
      | |- context [SGD.handler ev ?a i ?b ?c ?d] =>
          destruct (handler_safe ev a i b c d) as [X|X]; auto
      end.
    + match goal with
      | |- context [SGD.handler ev ?a i ?b ?c ?d] =>
          destruct (handler_safe ev a i b c d) as [X|X]; auto
      end.
    + match goal with
      | |- context [SGD.anneal ev ?a i ?b] =>
          destruct (anneal_safe ev a i b) as [X|X]; auto
      end.
Qed.

Lemma pass_safe (train_set : list batch) (ev : SGD.events) s
    (velocities : list tensor) (i : Z) :
  train_set <> [] ->
  let r := SGD.pass train_set ev s velocities i in
  snd r = None \/ snd r = Some Interrupted \/
  snd r = Some (Crashed KeyboardInterrupt) /\ SGD.loose_interrupt ev i <> None.
Proof.
  intros Ht r. subst r. unfold SGD.pass, SGD.update.
  pose proof (learn_yields s velocities train_set) as H.
  destruct (SGD.loose_interrupt ev i) as [[| | | [] | []]|];
    try (right; right; (split; [reflexivity | discriminate]));
    (destruct (SGD.learn_interrupt ev i) as [[b pt]|];
     [destruct (SGD.learn_interrupted _ _ _ _ _); simpl; auto;
      right; right; (split; [reflexivity | discriminate])
     |destruct (SGD.learn s velocities train_set) as [[s' v'] [|y ys]];
      simpl in *;
      [destruct train_set; [contradiction | discriminate]|]; auto;
      right; right; (split; [reflexivity | discriminate])]).
Qed.

Lemma moved_setup s s' :
  moved s s' ->
  Trainer.f_eval (SGD.trainer s') = Trainer.f_eval (SGD.trainer s) /\
  Trainer.validation_frequency (SGD.trainer s')
  = Trainer.validation_frequency (SGD.trainer s).
Proof. intros (ps & -> & _). auto. Qed.

(** X14.  With a validation frequency other than 0, a training set and a
    validation set that are not empty, and an evaluation function that
    reports a cost, the only exception that leaves [SGD.train] is a
    KeyboardInterrupt that arrives outside its two [try] blocks: the run
    ends with patience elapsed, interrupted, with its iterations used up, or
    with that KeyboardInterrupt; and when no interrupt arrives outside the
    [try] blocks, it is one of the first three, and [train] reaches its last
    line. *)
Theorem sgd_train_is_safe (train_set valid_set : list batch)
    (ev : SGD.events) s :
  Trainer.validation_frequency (SGD.trainer s) <> 0%Z ->
  train_set <> [] -> valid_set <> [] ->
  reports_cost (SGD.trainer s) ->
  let r := SGD.train train_set valid_set ev s in
  (terminated (snd r) \/ snd r = Crashed KeyboardInterrupt) /\
  ((forall i, SGD.loose_interrupt ev i = None) ->
   SGD.restore_interrupt ev = None -> terminated (snd r)).
Proof.
  intros Hvf Ht Hv Hr r. subst r.
  unfold SGD.train.
  pose proof (sgd_loop_rule train_set valid_set ev
                (fun _ s' _ =>
                   Trainer.f_eval (SGD.trainer s')
                   = Trainer.f_eval (SGD.trainer s) /\
                   Trainer.validation_frequency (SGD.trainer s')
                   = Trainer.validation_frequency (SGD.trainer s))
                (fun _ _ term =>
                   terminated term \/
                   term = Crashed KeyboardInterrupt /\
                   exists i, SGD.loose_interrupt ev i <> None)) as H.
  assert (Hstep : forall i s0 v (log : list log_entry),
             Trainer.f_eval (SGD.trainer s0) = Trainer.f_eval (SGD.trainer s) /\
             Trainer.validation_frequency (SGD.trainer s0)
             = Trainer.validation_frequency (SGD.trainer s) ->
             match SGD.iteration train_set valid_set ev s0 v i with
             | (s', _, _, None) =>
                 Trainer.f_eval (SGD.trainer s')
                 = Trainer.f_eval (SGD.trainer s) /\
                 Trainer.validation_frequency (SGD.trainer s')
                 = Trainer.validation_frequency (SGD.trainer s)
             | (_, _, _, Some term) =>
                 terminated term \/
                 term = Crashed KeyboardInterrupt /\
                 exists i, SGD.loose_interrupt ev i <> None
             end).
  { intros i s0 v log [F1 F2].
    destruct (iteration_cases train_set valid_set ev s0 v i)
      as [[E ->]|[_ ->]].
    { right. split; [reflexivity|]. exists i. rewrite E. discriminate. }
    unfold SGD.turn.
    rewrite F2. apply Z.eqb_neq in Hvf. rewrite Hvf. clear Hvf.
    assert (Hr0 : reports_cost (SGD.trainer s0))
      by (unfold reports_cost in *; rewrite F1; exact Hr).
    assert (H1 : let r := if Z.eqb (i mod Trainer.validation_frequency
                                             (SGD.trainer s)) 0
                          then SGD.validate valid_set ev s0 i
                          else (s0, [], None) in
                 Trainer.f_eval (SGD.trainer (fst (fst r)))
                 = Trainer.f_eval (SGD.trainer s0) /\
                 Trainer.validation_frequency (SGD.trainer (fst (fst r)))
                 = Trainer.validation_frequency (SGD.trainer s0) /\
                 (snd r = None \/ snd r = Some Converged \/
                  snd r = Some Interrupted \/
                  snd r = Some (Crashed KeyboardInterrupt) /\
                  SGD.loose_interrupt ev i <> None)).
    { destruct (Z.eqb (i mod _) 0);
        [apply validate_safe; assumption | simpl; auto]. }
    destruct (if Z.eqb (i mod _) 0 then _ else _) as [[s1 log1] stop].
    cbn [fst snd] in H1. destruct H1 as (G1 & G2 & G3).
    destruct G3 as [->|[->|[->|[-> G3]]]];
      [| left; left; reflexivity | left; right; left; reflexivity
       | right; split; [reflexivity | exists i; exact G3]].
    pose proof (pass_moved train_set ev s1 v i) as Hm.
    pose proof (pass_safe train_set ev s1 v i Ht) as Hu.
    destruct (SGD.pass train_set ev s1 v i) as [[[s2 v2] log2] stop2].
    cbn [fst snd] in *. destruct (moved_setup _ _ Hm) as [M1 M2].
    destruct Hu as [->|[->|[-> Hu]]];
      [split; congruence | left; right; left; reflexivity
       | right; split; [reflexivity | exists i; exact Hu]]. }
  specialize (H (fun i s0 v log HI => Hstep i s0 v log HI)
                (fun _ _ _ _ => or_introl (or_intror (or_intror eq_refl)))
                (Z.to_nat (Trainer.iterations (SGD.trainer s))) 0%Z s
                (map zeros_like (SGD.params s)) [] (conj eq_refl eq_refl)).
  destruct (SGD.train_loop _ _ _ _ _ _ _ _) as [[[s' v'] log] term].
  unfold SGD.restore.
  destruct H as [H|[-> [i Hi]]].
  - destruct H as [->|[->| ->]];
      (destruct (SGD.restore_interrupt ev) as [k|] eqn:Ek; cbn [fst snd];
       [split; [right; reflexivity | intros _ X; discriminate]
       |split; [left | intros _ _]; unfold terminated; auto]).
  - cbn [fst snd]. split; [right; reflexivity|].
    intros Hq _. rewrite Hq in Hi. contradiction.
Qed.

(** X15.  A validation frequency of 0 makes [i % self.validation_frequency]
    raise ZeroDivisionError in the first iteration, before anything is
    evaluated, learned or logged; the trainer is as it was.  With no
    iteration to run the frequency is never looked at, and [train] ends
    normally.  (Unless, in either case, a KeyboardInterrupt arrives
    first.) *)
Theorem zero_frequency_crashes (train_set valid_set : list batch)
    (ev : SGD.events) s :
  Trainer.validation_frequency (SGD.trainer s) = 0%Z ->
  ((0 < Trainer.iterations (SGD.trainer s))%Z ->
   SGD.loose_interrupt ev 0%Z <> Some AtCheck ->
   SGD.train train_set valid_set ev s = (s, [], Crashed ZeroDivisionError)) /\
  ((Trainer.iterations (SGD.trainer s) <= 0)%Z ->
   SGD.restore_interrupt ev = None ->
   snd (SGD.train train_set valid_set ev s) = Exhausted /\
   snd (fst (SGD.train train_set valid_set ev s)) = []).
Proof.
  intros Hvf. unfold SGD.train. split; intros Hn Hq.
  - destruct (Z.to_nat (Trainer.iterations (SGD.trainer s))) as [|n] eqn:E;
      [lia|].
    cbn [SGD.train_loop]. rewrite iteration_turn by exact Hq.
    unfold SGD.turn. rewrite Hvf. reflexivity.
  - replace (Z.to_nat (Trainer.iterations (SGD.trainer s))) with 0%nat by lia.
    unfold SGD.restore. rewrite Hq. simpl. auto.
Qed.

(** X16.  With an empty validation set the mean of the costs has no entry
    and [costs[0]] raises IndexError in the first call of [evaluate]:
    [train] leaves with it at iteration 0, with nothing learned or logged and
    the trainer as it was, unless it is interrupted before that. *)
Theorem empty_validation_set_crashes (train_set : list batch)
    (ev : SGD.events) s :
  Trainer.validation_frequency (SGD.trainer s) <> 0%Z ->
  (0 < Trainer.iterations (SGD.trainer s))%Z ->
  SGD.loose_interrupt ev 0%Z <> Some AtCheck ->
  SGD.eval_interrupt ev 0%Z <> Some 0%nat ->
  SGD.train train_set [] ev s = (s, [], Crashed IndexError).
Proof.
  intros Hvf Hn Hq Hev. unfold SGD.train.
  destruct (Z.to_nat (Trainer.iterations (SGD.trainer s))) as [|n] eqn:E;
    [lia|].
  cbn [SGD.train_loop]. rewrite iteration_turn by exact Hq. unfold SGD.turn.
  apply Z.eqb_neq in Hvf. rewrite Hvf. rewrite Z.mod_0_l by (apply Z.eqb_neq, Hvf).
  cbn [Z.eqb]. unfold SGD.validate.
  destruct (SGD.eval_interrupt ev 0%Z) as [[|k]|].
  - congruence.
  - reflexivity.
  - cbn. rewrite set_trainer_same. reflexivity.
Qed.

(** X17.  With an empty training set the pass yields nothing, the mean of
    no costs is not a sequence, and [zip] raises TypeError: an uninterrupted
    [train] whose first validation passes leaves with it in the first
    iteration and logs no training line. *)
Theorem empty_training_set_crashes (valid_set : list batch)
    (ev : SGD.events) s :
  Trainer.validation_frequency (SGD.trainer s) <> 0%Z ->
  (0 < Trainer.iterations (SGD.trainer s))%Z ->
  (0 <= Trainer.patience (SGD.trainer s))%Z ->
  (0 <= Trainer.best_iter (SGD.trainer s))%Z ->
  valid_set <> [] -> reports_cost (SGD.trainer s) ->
  quiet_at ev 0%Z ->
  snd (SGD.train [] valid_set ev s) = Crashed TypeError /\
  train_lines (snd (fst (SGD.train [] valid_set ev s))) = [] /\
  SGD.params (fst (fst (SGD.train [] valid_set ev s))) = SGD.params s.
Proof.
  intros Hvf Hn Hp Hb Hv Hr (He & Hl & Hq). unfold SGD.train.
  destruct (Z.to_nat (Trainer.iterations (SGD.trainer s))) as [|n] eqn:E;
    [lia|].
  cbn [SGD.train_loop].
  rewrite iteration_turn by (rewrite Hq; discriminate). unfold SGD.turn.
  apply Z.eqb_neq in Hvf. rewrite Hvf. rewrite Z.mod_0_l by (apply Z.eqb_neq, Hvf).
  cbn [Z.eqb]. unfold SGD.validate. rewrite He.
  pose proof (valid_costs_nonempty (SGD.trainer s) valid_set Hv Hr) as Hc.
  unfold Trainer.evaluate.
  destruct (Trainer.valid_costs (SGD.trainer s) valid_set) as [|cost rest];
    [contradiction|].
  assert (Hlearn : forall s1 : SGD.t batch,
             SGD.learn s1 (map zeros_like (SGD.params s)) []
             = (s1, map zeros_like (SGD.params s), [])).
  { intros s1. unfold SGD.learn. destruct (Rltb 0 (SGD.momentum s1)); reflexivity. }
  unfold SGD.anneal, SGD.pass, SGD.update.
  destruct (Trainer.improvement (SGD.trainer s) cost).
  - replace (Z.ltb _ _) with false by (symmetry; apply Z.ltb_ge; simpl; lia).
    cbn [negb]. rewrite Hq, Hl, Hlearn. cbn. auto.
  - replace (Z.ltb _ _) with false by (symmetry; apply Z.ltb_ge; simpl; lia).
    cbn [negb]. rewrite Hq, Hl, Hlearn. cbn. auto.
Qed.

End Run.

Lemma sample_reports_cost (values : list tensor) (validate : Z)
    (min_improvement : R) (num_updates patience : Z) (best_cost : R) :
  reports_cost
    (Sample.trainer values validate min_improvement num_updates patience
       best_cost).
Proof. intros x ps. discriminate. Qed.

Lemma sgd_train_is_safe_witness :
  terminated
    (snd (SGD.train [1] [0] Sample.quiet
            (Sample.sgd (Sample.trainer [Sample.vec [5]] 3 0 10 100 1)
               0 10 (1 / 10) false))).
Proof.
  refine (proj2 (sgd_train_is_safe [1] [0] Sample.quiet
                   (Sample.sgd (Sample.trainer [Sample.vec [5]] 3 0 10 100 1)
                      0 10 (1 / 10) false) _ _ _ _) _ _).
  - simpl. lia.
  - discriminate.
  - discriminate.
  - apply sample_reports_cost.
  - reflexivity.
  - reflexivity.
Defined.

Lemma zero_frequency_crashes_witness :
  let s := Sample.sgd (Sample.trainer [Sample.vec [5]] 0 0 10 100 1)
             0 10 (1 / 10) false in
  SGD.train [1] [0] Sample.quiet s = (s, [], Crashed ZeroDivisionError).
Proof.
  intros s.
  apply (proj1 (zero_frequency_crashes [1] [0] Sample.quiet s eq_refl)).
  - simpl. lia.
  - discriminate.
Defined.

Lemma empty_validation_set_crashes_witness :
  let s := Sample.sgd (Sample.trainer [Sample.vec [5]] 3 0 10 100 1)
             0 10 (1 / 10) false in
  SGD.train [1] [] Sample.quiet s = (s, [], Crashed IndexError).
Proof.
  intros s. apply empty_validation_set_crashes.
  - simpl. lia.
  - simpl. lia.
  - discriminate.
  - discriminate.
Defined.

Lemma empty_training_set_crashes_witness :
  let s := Sample.sgd (Sample.trainer [Sample.vec [5]] 3 0 10 100 1)
             0 10 (1 / 10) false in
  snd (SGD.train [] [0] Sample.quiet s) = Crashed TypeError.
Proof.
  intros s. apply (empty_training_set_crashes [0] Sample.quiet s).
  - simpl. lia.
  - simpl. lia.
  - simpl. lia.
  - simpl. lia.
  - discriminate.
  - apply sample_reports_cost.
  - repeat split.
Defined.

End RunMore.

(** ** Sample.reservoir *)

Module ReservoirMore.
Import SampleTrainer.

Lemma set_item_ok {A : Type} (l : list A) :
  forall (j : nat) (v : A),
    (j < length l)%nat ->
    exists l', set_item l j v = Ok l' /\ length l' = length l /\
               forall a, In a l' -> In a l \/ a = v.
Proof.
  induction l as [|a l IH]; intros j v Hj; simpl in *; [lia|].
  destruct j as [|j].
  - exists (v :: l). repeat split. intros b [<-|Hb]; simpl; auto.
  - destruct (IH j v ltac:(lia)) as (l' & E & Hl & Hin).
    rewrite E. simpl. exists (a :: l'). repeat split; [simpl; lia|].
    intros b [<-|Hb]; simpl; auto.
    destruct (Hin b Hb); auto.
Qed.

Lemma randint_ok (high : nat) (src : source) :
  (0 < high)%nat ->
  exists j src', randint high src = Ok (j, src') /\ (j < high)%nat.
Proof.
  intros H. destruct high as [|h]; [lia|].
  eexists _, _. split; [reflexivity|]. apply Nat.mod_upper_bound. lia.
Qed.

(** The loop over the input: it fails nowhere, fills the pool up to [n]
    items and afterwards only replaces items. *)
Lemma reservoir_fill_spec (xs : list tensor) :
  forall (i n : nat) (pool : list tensor) (src : source),
    (length pool <= n)%nat ->
    exists pool' src',
      reservoir_fill xs i n pool src = Ok (pool', src') /\
      length pool' = Nat.min n (length pool + length xs) /\
      (forall p, In p pool' ->
                 In p pool \/ exists x, In x xs /\ p = normalized x) /\
      ((length pool + length xs <= n)%nat ->
       pool' = pool ++ map normalized xs /\ src' = src).
Proof.
  induction xs as [|x xs IH]; intros i n pool src Hn.
  - exists pool, src. simpl. repeat split; auto; try lia.
    now rewrite app_nil_r.
  - cbn [reservoir_fill]. destruct (Nat.ltb (length pool) n) eqn:E.
    + apply Nat.ltb_lt in E.
      destruct (IH (S i) n (pool ++ [normalized x]) src) as (p' & s' & R & L & M & S).
      { rewrite length_app. simpl. lia. }
      exists p', s'. split; [exact R|]. rewrite length_app in *. simpl in *.
      split; [rewrite L; f_equal; lia|]. split.
      * intros p Hp. destruct (M p Hp) as [H|(y & Hy & ->)].
        -- apply in_app_or in H. destruct H as [H|[<-|[]]]; [auto|].
           right. exists x. auto.
        -- right. exists y. auto.
      * intros Hle. destruct S as [-> ->]; [lia|].
        rewrite <- app_assoc. auto.
    + apply Nat.ltb_ge in E.
      destruct (randint_ok (i + 1) src ltac:(lia)) as (j & src1 & Rj & Hj).
      rewrite Rj. cbn [bind]. destruct (Nat.ltb j n) eqn:Ej.
      * apply Nat.ltb_lt in Ej.
        destruct (set_item_ok pool j (normalized x) ltac:(lia))
          as (pool1 & R1 & L1 & M1).
        rewrite R1. cbn [bind].
        destruct (IH (S i) n pool1 src1 ltac:(lia)) as (p' & s' & R & L & M & S).
        exists p', s'. split; [exact R|]. simpl.
        split; [rewrite L; lia|]. split; [|intros; lia].
        intros p Hp. destruct (M p Hp) as [H|(y & Hy & ->)].
        -- destruct (M1 p H) as [H1| ->]; [auto|]. right. exists x. auto.
        -- right. exists y. auto.
      * destruct (IH (S i) n pool src1 Hn) as (p' & s' & R & L & M & S).
        exists p', s'. split; [exact R|]. simpl.
        split; [rewrite L; lia|]. split; [|intros; lia].
        intros p Hp. destruct (M p Hp) as [H|(y & Hy & ->)]; [auto|].
        right. exists y. auto.
Qed.

(** The padding loop: it fails nowhere when there is an item to draw, and
    only appends. *)
Lemma reservoir_pad_spec (k : nat) :
  forall (L : nat) (pool : list tensor) (src : source),
    (k = 0 \/ 0 < L <= length pool)%nat ->
    exists pool' src',
      reservoir_pad k L pool src = Ok (pool', src') /\
      length pool' = (length pool + k)%nat /\
      firstn (length pool) pool' = pool.
Proof.
  induction k as [|k IH]; intros L pool src HL.
  - exists pool, src. simpl. repeat split; [lia|]. apply firstn_all.
  - destruct HL as [HL|HL]; [discriminate|]. cbn [reservoir_pad].
    destruct (randint_ok L src ltac:(lia)) as (j & src1 & Rj & Hj).
    rewrite Rj. cbn [bind].
    destruct (nth_error pool j) as [x|] eqn:En.
    2:{ apply nth_error_None in En. lia. }
    destruct (randn (shape x) src1) as [noise src2].
    destruct (IH L (pool ++ [add x (mul (std_axis0 pool) noise)]) src2)
      as (p' & s' & R & Lp & F).
    { right. rewrite length_app. simpl. lia. }
    exists p', s'. split; [exact R|]. rewrite length_app in *. simpl in *.
    split; [lia|].
    assert (H : firstn (length pool) (firstn (length pool + 1) p')
                = firstn (length pool) (pool ++ [add x (mul (std_axis0 pool) noise)]))
      by (rewrite F; reflexivity).
    rewrite firstn_firstn in H. rewrite Nat.min_l in H by lia.
    rewrite H. rewrite firstn_app, firstn_all, Nat.sub_diag. simpl.
    apply app_nil_r.
Qed.

(** X19.  On a non-empty input (or for [n = 0]) [reservoir] raises nothing,
    whatever the generator produces, and returns exactly [n] items; on an
    empty input with [n > 0] it raises ValueError, from [rng.randint(0)] in
    the padding loop. *)
Theorem reservoir_size (xs : list tensor) (n : nat) (src : source) :
  (xs <> [] \/ n = 0%nat ->
   exists pool src',
     reservoir xs n src = Ok (pool, src') /\ length pool = n) /\
  (xs = [] -> (0 < n)%nat -> reservoir xs n src = Raise ValueError).
Proof.
  split.
  - intros H. unfold reservoir.
    destruct (reservoir_fill_spec xs 0 n [] src ltac:(simpl; lia))
      as (pool & src1 & R & L & _). rewrite R. cbn [bind]. simpl in L.
    destruct (reservoir_pad_spec (n - length pool) (length pool) pool src1)
      as (pool' & src' & R' & L' & _).
    { destruct H as [H| ->]; [|left; reflexivity].
      destruct xs as [|x xs]; [contradiction|]. simpl in L.
      destruct n as [|n]; [left; reflexivity|]. right. lia. }
    exists pool', src'. split; [exact R'|]. lia.
  - intros -> Hn. unfold reservoir. simpl.
    destruct n as [|n]; [lia|]. reflexivity.
Qed.

Lemma normalized_unit (x : tensor) :
  norm x <> 0%R -> norm (normalized x) = 1%R.
Proof.
  intros Hx. unfold normalized.
  replace (div_scalar x (norm x)) with (scale (/ norm x) x).
  - pose proof (GradientFacts.norm_nonneg x) as H0.
    rewrite GradientFacts.norm_scaled.
    + field. exact Hx.
    + left. apply Rinv_0_lt_compat. lra.
  - unfold scale, div_scalar. f_equal. apply map_ext. intros v.
    unfold Rdiv. ring.
Qed.

(** X20.  With at least [n] inputs nothing is padded: every item returned is
    one of the inputs divided by its length, a vector of length 1 when no
    input is all zeros. *)
Theorem reservoir_samples_input (xs : list tensor) (n : nat) (src : source)
    (pool : list tensor) (src' : source) :
  (n <= length xs)%nat ->
  reservoir xs n src = Ok (pool, src') ->
  length pool = n /\
  (forall p, In p pool -> exists x, In x xs /\ p = normalized x) /\
  ((forall x, In x xs -> norm x <> 0%R) ->
   forall p, In p pool -> norm p = 1%R).
Proof.
  intros Hn. unfold reservoir.
  destruct (reservoir_fill_spec xs 0 n [] src ltac:(simpl; lia))
    as (pool1 & src1 & R & L & M & _). rewrite R. cbn [bind]. simpl in L.
  replace (n - length pool1)%nat with 0%nat by lia. simpl.
  intros H. inversion H. subst. split; [lia|].
  assert (HM : forall p, In p pool -> exists x, In x xs /\ p = normalized x).
  { intros p Hp. destruct (M p Hp) as [[]|H1]. exact H1. }
  split; [exact HM|].
  intros Hx p Hp. destruct (HM p Hp) as (x & Hin & ->).
  apply normalized_unit, Hx, Hin.
Qed.

(** X21.  With at most [n] inputs no input is dropped and none is drawn at
    random: the pool starts with the inputs in their order, each divided by
    its length, and the padding comes after them. *)
Theorem reservoir_keeps_small_input (xs : list tensor) (n : nat) (src : source)
    (pool : list tensor) (src' : source) :
  (length xs <= n)%nat ->
  reservoir xs n src = Ok (pool, src') ->
  firstn (length xs) pool = map normalized xs /\
  (length xs = n -> pool = map normalized xs /\ src' = src).
Proof.
  intros Hn. unfold reservoir.
  destruct (reservoir_fill_spec xs 0 n [] src ltac:(simpl; lia))
    as (pool1 & src1 & R & L & _ & S). rewrite R. cbn [bind].
  destruct (S ltac:(simpl; lia)) as [-> ->]. simpl. rewrite length_map.
  intros H. split.
  - destruct (Nat.eq_dec (n - length xs) 0) as [E|E].
    + rewrite E in H. simpl in H. inversion H.
      rewrite <- (length_map normalized xs) at 1. apply firstn_all.
    + destruct xs as [|x xs]; [reflexivity|].
      destruct (reservoir_pad_spec (n - length (x :: xs)) (length (x :: xs))
                  (map normalized (x :: xs)) src) as (p' & s' & R' & _ & F).
      { right. rewrite length_map. simpl. lia. }
      rewrite R' in H. inversion H. subst.
      rewrite length_map in F. exact F.
  - intros E. rewrite E, Nat.sub_diag in H. simpl in H. inversion H. auto.
Qed.

Lemma reservoir_size_witness :
  exists pool src',
    reservoir [Sample.vec [3%R; 4%R]] 2 (constant 0) = Ok (pool, src') /\
    length pool = 2%nat.
Proof.
  apply (proj1 (reservoir_size [Sample.vec [3%R; 4%R]] 2 (constant 0))).
  left. discriminate.
Defined.

Lemma reservoir_samples_input_witness :
  let xs := [Sample.vec [3%R; 4%R]; Sample.vec [1%R]] in
  length (map normalized xs) = 2%nat.
Proof.
  intros xs.
  refine (proj1 (reservoir_samples_input xs 2 (constant 0)
                   (map normalized xs) (constant 0) _ _)).
  - simpl. lia.
  - reflexivity.
Defined.

Lemma reservoir_keeps_small_input_witness :
  let xs := [Sample.vec [3%R; 4%R]; Sample.vec [1%R]] in
  firstn (length xs) (map normalized xs) = map normalized xs.
Proof.
  intros xs.
  refine (proj1 (reservoir_keeps_small_input xs 2 (constant 0)
                   (map normalized xs) (constant 0) _ _)).
  - simpl. lia.
  - reflexivity.
Defined.

End ReservoirMore.

(** ** Trainer.evaluate, call by call *)

Module TrackerMore.

(** X18.  With a patience that is not negative, a call of [evaluate] that can
    compute its costs returns normally exactly when it finds an improvement
    (every other call raises), and it is then that it takes the snapshot:
    the best parameters are the current ones, the best iteration is the
    call's.  The parameters themselves are never touched, and one line is
    logged, starred on an improvement. *)
Theorem evaluate_returns_on_improvement {batch : Type} (tr : Trainer.t batch)
    (i : Z) (valid_set : list batch) (cost : R) (rest : list R) :
  Trainer.valid_costs tr valid_set = cost :: rest ->
  (0 <= Trainer.patience tr)%Z ->
  let r := Trainer.evaluate tr i valid_set in
  let tr' := fst (fst r) in
  (snd r = Ok tt <-> Trainer.improvement tr cost = true) /\
  (Trainer.improvement tr cost = true ->
   Trainer.best_params tr' = Trainer.params tr /\ Trainer.best_iter tr' = i /\
   Trainer.best_cost tr' = cost) /\
  (Trainer.improvement tr cost = false ->
   Trainer.best_params tr' = Trainer.best_params tr /\
   Trainer.best_iter tr' = Trainer.best_iter tr /\
   Trainer.best_cost tr' = Trainer.best_cost tr) /\
  Trainer.params tr' = Trainer.params tr /\
  snd (fst r) = [LogValid (i + 1) (cost :: rest) (Trainer.improvement tr cost)].
Proof.
  intros Hc Hp. cbv zeta. unfold Trainer.evaluate. rewrite Hc.
  destruct (Trainer.improvement tr cost) eqn:E.
  - replace (Z.ltb _ _) with false by (symmetry; apply Z.ltb_ge; simpl; lia).
    simpl. repeat split; auto; discriminate.
  - cbn [negb]. destruct (Z.ltb _ _); simpl; repeat split; auto; discriminate.
Qed.

Lemma evaluate_returns_on_improvement_witness :
  let tr := Sample.trainer [Sample.vec [5%R]] 3 0%R 10 100 Trainer.sentinel in
  snd (Trainer.evaluate tr 0 [0%R]) = Ok tt <->
  Trainer.improvement tr (mean [5%R]) = true.
Proof.
  intros tr.
  refine (proj1 (evaluate_returns_on_improvement tr 0 [0%R] (mean [5%R]) []
                   _ _)).
  - reflexivity.
  - simpl. lia.
Defined.

End TrackerMore.

(** ** The Scipy trainer *)

Module ScipyMore.
Import LoopFacts.

Section Scipy.
Context {batch : Type}.
Implicit Types (s : Scipy.t batch) (tr : Trainer.t batch).


Lemma flat_to_arrays_bad tr (x : list R) :
  Trainer.counts tr = map prod (Trainer.shapes tr) ->
  length x <> sum (Trainer.counts tr) ->
  exists e, Trainer.flat_to_arrays tr x = Raise e /\
            (e = ValueError \/ e = AssertionError).
Proof.
  intros Hc Hlen. unfold Trainer.flat_to_arrays, Trainer.flat_to_arrays_with.
  rewrite Hc in *.
  destruct (Nat.lt_ge_cases (length x) (sum (map prod (Trainer.shapes tr))))
    as [Hlt|Hge].
  - exists ValueError. split; [|auto].
    rewrite FlatMore.flat_to_arrays_loop_short by (simpl; lia). reflexivity.
  - exists AssertionError. split; [|auto].
    destruct (FlatMore.flat_to_arrays_loop_long (Trainer.shapes tr) x 0 [])
      as (arrays & H1 & _); [simpl; lia|].
    rewrite H1. simpl.
    destruct (Nat.eqb (sum (map prod (Trainer.shapes tr))) (length x)) eqn:E;
      [apply Nat.eqb_eq in E; lia | reflexivity].
Qed.

(** X22.  [function_at] evaluates the cost at the point it is given: a
    buffer whose length is not the number of parameter elements is refused
    (ValueError or AssertionError) before anything is evaluated, and the
    flattening of arrays of the recorded shapes gives the first mean cost of
    the evaluation function over the training set with those arrays as the
    parameters. *)
Theorem function_at_spec tr (train_set : list batch) :
  Trainer.counts tr = map prod (Trainer.shapes tr) ->
  length (Trainer.params tr) = length (Trainer.shapes tr) ->
  (forall x : list R,
      length x <> sum (Trainer.counts tr) ->
      exists e, Scipy.function_at tr train_set x = Raise e /\
                (e = ValueError \/ e = AssertionError)) /\
  (forall arrays : list tensor,
      map shape arrays = Trainer.shapes tr -> Forall well_formed arrays ->
      Scipy.function_at tr train_set (concat (map data arrays))
      = match Trainer.valid_costs (Trainer.set_params tr arrays) train_set with
        | [] => Raise IndexError
        | cost :: _ => Ok cost
        end).
Proof.
  intros Hc Hp. split.
  - intros x Hx. destruct (flat_to_arrays_bad tr x Hc Hx) as (e & E & He).
    exists e. split; [|exact He].
    unfold Scipy.function_at, Scipy.set_flat. rewrite E. reflexivity.
  - intros arrays Hs Hwf. unfold Scipy.function_at, Scipy.set_flat.
    unfold Trainer.flat_to_arrays. rewrite Hc, <- Hs.
    rewrite FlatFacts.flat_to_arrays_concat by exact Hwf. cbn [bind].
    unfold Trainer.update_params. rewrite set_values_all; [reflexivity|].
    rewrite Hp, <- Hs. now rewrite length_map.
Qed.

(** *** A run with an orderly minimizer *)












End Scipy.

Lemma function_at_spec_witness :
  let tr := Sample.trainer [Sample.vec [5%R]] 3 0%R 10 100 1%R in
  exists e, Scipy.function_at tr [0%R] [1%R; 2%R] = Raise e /\
            (e = ValueError \/ e = AssertionError).
Proof.
  intros tr.
  refine (proj1 (function_at_spec tr [0%R] eq_refl eq_refl) [1%R; 2%R] _).
  simpl. lia.
Defined.


End ScipyMore.
